(** * AI_Deleter: chunking and multi-pass paraphrase pipeline

    A shallow embedding of [src/AI_Deleter.py] (class [TextHumanizerApp]):
    the chunker [split_into_chunks], the post-processor [humanize_output],
    the settings handlers, the background job [_process_text] with its
    progress events, and the export [save_intermediate_outputs].

    Python [str] values are sequences of Unicode code points; the
    tokenizer and the sequence-to-sequence model are external and enter
    as section variables. *)

From Stdlib Require Import List Bool Arith ZArith NArith QArith Lia String Ascii.
From Stdlib Require Import DecimalString Sorted.
From Stdlib Require PrimFloat FloatOps SpecFloat Uint63.
Import ListNotations.

Set Implicit Arguments.

(* ================================================================= *)
(** ** Python text *)

Module Py.

(** A Python [str]: a list of code points. *)
Definition char := N.
Definition str := list char.

(** A source literal (ASCII only) as a Python [str]. *)
Definition lit (s : string) : str :=
  List.map N_of_ascii (list_ascii_of_string s).
Arguments lit s%_string.

Definition str_eqb (a b : str) : bool :=
  if list_eq_dec N.eq_dec a b then true else false.

(** [Py_UNICODE_ISSPACE]: the set used both by [str.strip()] and by
    [\s] in a [str] pattern of [re]. *)
Definition isspace (c : char) : bool :=
  ((9 <=? c) && (c <=? 13) || (28 <=? c) && (c <=? 32)
   || (c =? 133) || (c =? 160) || (c =? 5760)
   || (8192 <=? c) && (c <=? 8202)
   || (c =? 8232) || (c =? 8233) || (c =? 8239) || (c =? 8287)
   || (c =? 12288))%N.

Fixpoint lstrip (s : str) : str :=
  match s with
  | c :: s' => if isspace c then lstrip s' else s
  | [] => []
  end.

Definition rstrip (s : str) : str := rev (lstrip (rev s)).

(** [s.strip()] *)
Definition strip (s : str) : str := rstrip (lstrip s).

(** [sep.join(l)] *)
Fixpoint join (sep : str) (l : list str) : str :=
  match l with
  | [] => []
  | [a] => a
  | a :: l' => a ++ sep ++ join sep l'
  end.

(** [str(n)] for an [int]. *)
Definition str_of_int (z : Z) : str := lit (NilZero.string_of_int (Z.to_int z)).

(** [str(b)] for a [bool]. *)
Definition str_of_bool (b : bool) : str := if b then lit "True" else lit "False".

(** [c * n] for a one-character string [c]. *)
Definition times (c : string) (n : nat) : str := List.concat (repeat (lit c) n).
Arguments times c%_string n%_nat.

End Py.

(* ================================================================= *)
(** ** The fragment of [re] the program uses *)

Module Re.
Import Py.

(** A character class, and an atom: one class occurrence, possibly
    under [*] or [+] (both greedy). *)
Inductive atom :=
| One (c : char -> bool)
| Star (c : char -> bool)
| Plus (c : char -> bool).

(** A pattern: an optional one-character lookbehind [(?<=[...])]
    followed by a sequence of atoms. *)
Record regex := { lookbehind : option (char -> bool); atoms : list atom }.

Definition pat (l : list atom) : regex := {| lookbehind := None; atoms := l |}.

(** A match that consumed [x] before what [r] matched. *)
Definition consumed (x : char) (r : option (str * str)) : option (str * str) :=
  match r with
  | Some (m, rest) => Some (x :: m, rest)
  | None => None
  end.

(** Greedy repetition of the class [c] followed by the continuation
    [k]: as many characters as possible, giving them back one by one
    while [k] fails. *)
Fixpoint star (c : char -> bool) (k : str -> option (str * str)) (s : str)
  : option (str * str) :=
  match s with
  | x :: s' =>
      if c x then
        match consumed x (star c k s') with
        | Some r => Some r
        | None => k s
        end
      else k s
  | [] => k s
  end.

(** Matching a sequence of atoms at the head of [s]: the matched
    prefix and the rest. *)
Fixpoint match_atoms (p : list atom) (s : str) {struct p} : option (str * str) :=
  match p with
  | [] => Some ([], s)
  | One c :: p' =>
      match s with
      | x :: s' => if c x then consumed x (match_atoms p' s') else None
      | [] => None
      end
  | Star c :: p' => star c (match_atoms p') s
  | Plus c :: p' =>
      match s with
      | x :: s' => if c x then consumed x (star c (match_atoms p') s') else None
      | [] => None
      end
  end.

(** A pattern with an atom that is not starred matches no empty string. *)
Definition consumes (p : list atom) : bool :=
  existsb (fun a => match a with Star _ => false | _ => true end) p.

(** A match of [r] starting at the head of [s], where [prev] is the
    character just before it in the subject string. *)
Definition match_at (r : regex) (prev : option char) (s : str) : option (str * str) :=
  match lookbehind r with
  | None => match_atoms (atoms r) s
  | Some c =>
      match prev with
      | Some x => if c x then match_atoms (atoms r) s else None
      | None => None
      end
  end.

(** [re.sub(r, repl, s)] for a pattern whose matches are never empty
    (true of every pattern below): scan left to right, replace each
    leftmost match, resume after it.  [skip] counts the characters of
    the current match still to be passed over. *)
Fixpoint sub_scan (r : regex) (repl : str) (skip : nat) (prev : option char)
         (s : str) : str :=
  match s with
  | [] => []
  | x :: s' =>
      match skip with
      | S k => sub_scan r repl k (Some x) s'
      | O =>
          match match_at r prev s with
          | Some (_ :: m, _) => repl ++ sub_scan r repl (List.length m) (Some x) s'
          | _ => x :: sub_scan r repl 0 (Some x) s'
          end
      end
  end.

Definition sub (r : regex) (repl : str) (s : str) : str :=
  sub_scan r repl 0 None s.

(** [re.split(r, s)] for such a pattern (no capture groups): the pieces
    between the successive matches, empty pieces included.  [cur] is the
    piece being accumulated. *)
Fixpoint split_scan (r : regex) (skip : nat) (prev : option char) (cur : str)
         (s : str) : list str :=
  match s with
  | [] => [cur]
  | x :: s' =>
      match skip with
      | S k => split_scan r k (Some x) cur s'
      | O =>
          match match_at r prev s with
          | Some (_ :: m, _) => cur :: split_scan r (List.length m) (Some x) [] s'
          | _ => split_scan r 0 (Some x) (cur ++ [x]) s'
          end
      end
  end.

Definition split (r : regex) (s : str) : list str :=
  split_scan r 0 None [] s.

(** The classes used by the program. *)
Definition ws : char -> bool := isspace.
Definition one_of (a : string) (c : char) : bool :=
  existsb (N.eqb c) (lit a).
Arguments one_of a%_string c.
Definition EM_DASH : char := 8212%N.
Definition EN_DASH : char := 8211%N.
Definition dash (c : char) : bool := (N.eqb c EM_DASH || N.eqb c EN_DASH).

End Re.

(* ================================================================= *)
(** ** Settings *)

(** [self.settings], a dict with a fixed set of keys. *)
Record Settings := mkSettings {
  custom_passes : Z;
  remove_dashes : bool;
  use_custom_passes : bool;
  strength : Py.str;
  save_intermediate : bool;
  intermediate_format : Py.str;
  highlight_paraphraser : bool;
  highlight_intensity : Z
}.

(** The defaults of [TextHumanizerApp.__init__]. *)
Definition default_settings : Settings :=
  {| custom_passes := 1;
     remove_dashes := true;
     use_custom_passes := false;
     strength := Py.lit "High";
     save_intermediate := true;
     intermediate_format := Py.lit "json";
     highlight_paraphraser := true;
     highlight_intensity := 50 |}.

(* ================================================================= *)
(** ** Post-processor *)

Section PostProcessor.
Import Py Re.

(** [humanize_output(self, text)].  The patterns, in order: whitespace
    run, em or en dash, whitespace run; a dash; comma, whitespace
    run, comma; whitespace run, comma, whitespace run; comma,
    whitespace run, full stop; and, outside the [if], a whitespace
    run of at least one character. *)
Definition humanize_output (st : Settings) (text : str) : str :=
  let result := text in
  let result :=
    if remove_dashes st then
      let result := sub (pat [Star ws; One dash; Star ws]) (lit ", ") result in
      let result := sub (pat [One dash]) (lit ", ") result in
      let result := sub (pat [One (one_of ","); Star ws; One (one_of ",")]) (lit ",") result in
      let result := sub (pat [Star ws; One (one_of ","); Star ws]) (lit ", ") result in
      let result := sub (pat [One (one_of ","); Star ws; One (one_of ".")]) (lit ".") result in
      result
    else result in
  let result := sub (pat [Plus ws]) (lit " ") result in
  let result := strip result in
  result.

End PostProcessor.

(** The last two steps of [humanize_output], alone. *)
Definition collapse (s : Py.str) : Py.str :=
  Re.sub (Re.pat [Re.Plus Re.ws]) (Py.lit " ") s.

(** A text in which every whitespace character is a space followed by
    a character that is not whitespace ([loose]: or by nothing). *)
Fixpoint tidy (s : Py.str) : Prop :=
  match s with
  | [] => True
  | x :: s' =>
      (Py.isspace x = true ->
       x = 32%N /\ match s' with y :: _ => Py.isspace y = false | [] => False end)
      /\ tidy s'
  end.

Fixpoint loose (s : Py.str) : Prop :=
  match s with
  | [] => True
  | x :: s' =>
      (Py.isspace x = true ->
       x = 32%N /\ match s' with y :: _ => Py.isspace y = false | [] => True end)
      /\ loose s'
  end.

Definition starts_clean (s : Py.str) : Prop :=
  match s with y :: _ => Py.isspace y = false | [] => True end.

(* ================================================================= *)
(** ** Chunker *)

(** The task marker put in front of every text given to the tokenizer
    or the model, and the token budget. *)
Definition PREFIX : Py.str := Py.lit "paraphraser: ".
Definition BUDGET : nat := 60.

Section Chunker.
Import Py Re.

(** [len(self.tokenizer.encode(s, add_special_tokens=True))]: the
    tokenizer is an external collaborator. *)
Variable ntokens : str -> nat.

(** [(?<=[.!?])\s+] and [[,;]\s+] *)
Definition SENTENCE_END : regex :=
  {| lookbehind := Some (one_of ".!?"); atoms := [Plus ws] |}.
Definition PART_END : regex := pat [One (one_of ",;"); Plus ws].

Definition nonempty {A} (l : list A) : bool :=
  match l with [] => false | _ => true end.

(** The first two statements of [split_into_chunks]. *)
Definition sentences_of (text : str) : list str :=
  let sentences := split SENTENCE_END text in
  List.map strip (List.filter (fun s => nonempty (strip s)) sentences).

(** The loop variables of [split_into_chunks]. *)
Record ChunkerState := mkChunker {
  chunks : list str;
  current_chunk : list str;
  current_tokens : nat
}.

(** The inner loop [for part in parts]: both branches of its [if]
    append the part. *)
Definition emit_parts (chunks : list str) (parts : list str) : list str :=
  fold_left
    (fun chunks part =>
       let part_tokens := ntokens (PREFIX ++ part) in
       if BUDGET <? part_tokens then chunks ++ [part] else chunks ++ [part])
    parts chunks.

(** One iteration of [for sentence in sentences]. *)
Definition chunk_step (st : ChunkerState) (sentence : str) : ChunkerState :=
  let num_tokens := ntokens (PREFIX ++ sentence) in
  if BUDGET <? num_tokens then
    let st :=
      if nonempty (current_chunk st)
      then mkChunker (chunks st ++ [join (lit " ") (current_chunk st)]) [] 0
      else st in
    let parts := split PART_END sentence in
    mkChunker (emit_parts (chunks st) parts) (current_chunk st) (current_tokens st)
  else if BUDGET <? current_tokens st + num_tokens then
    mkChunker (chunks st ++ [join (lit " ") (current_chunk st)]) [sentence] num_tokens
  else
    mkChunker (chunks st) (current_chunk st ++ [sentence]) (current_tokens st + num_tokens).

(** [split_into_chunks(self, text)] *)
Definition split_into_chunks (text : str) : list str :=
  let st := fold_left chunk_step (sentences_of text) (mkChunker [] [] 0) in
  if nonempty (current_chunk st)
  then chunks st ++ [join (lit " ") (current_chunk st)]
  else chunks st.

(** *** The same loop, remembering where each chunk comes from *)

(** A chunk is either a group of whole sentences packed together, or
    one comma/semicolon part of an oversized sentence. *)
Inductive Origin :=
| Packed (sentences : list str)
| Part (part : str).

Definition render (o : Origin) : str :=
  match o with
  | Packed ss => join (lit " ") ss
  | Part p => p
  end.

Record Traced := mkTraced {
  t_chunks : list Origin;
  t_current : list str;
  t_tokens : nat
}.

Definition erase (t : Traced) : ChunkerState :=
  mkChunker (List.map render (t_chunks t)) (t_current t) (t_tokens t).

Definition traced_step (t : Traced) (sentence : str) : Traced :=
  let num_tokens := ntokens (PREFIX ++ sentence) in
  if BUDGET <? num_tokens then
    let t :=
      if nonempty (t_current t)
      then mkTraced (t_chunks t ++ [Packed (t_current t)]) [] 0
      else t in
    mkTraced (t_chunks t ++ List.map Part (split PART_END sentence))
             (t_current t) (t_tokens t)
  else if BUDGET <? t_tokens t + num_tokens then
    mkTraced (t_chunks t ++ [Packed (t_current t)]) [sentence] num_tokens
  else
    mkTraced (t_chunks t) (t_current t ++ [sentence]) (t_tokens t + num_tokens).

Definition chunk_origins (text : str) : list Origin :=
  let t := fold_left traced_step (sentences_of text) (mkTraced [] [] 0) in
  if nonempty (t_current t)
  then t_chunks t ++ [Packed (t_current t)]
  else t_chunks t.

(** What a chunk is made of, and what a sentence contributes: itself,
    or its comma/semicolon parts when it is over the budget. *)
Definition pieces (o : Origin) : list str :=
  match o with
  | Packed ss => ss
  | Part p => [p]
  end.

Definition expand (sentence : str) : list str :=
  if BUDGET <? ntokens (PREFIX ++ sentence) then split PART_END sentence
  else [sentence].

(** The running count of the packing loop: the per-sentence counts,
    each taken with its own prefix, added up. *)
Definition packed_tokens (ss : list str) : nat :=
  list_sum (List.map (fun s => ntokens (PREFIX ++ s)) ss).

(** The invariant of the packing loop. *)
Definition packing_ok (t : Traced) : Prop :=
  (forall ss, In (Packed ss) (t_chunks t) ->
              ss <> [] /\ (packed_tokens ss <= BUDGET)%nat) /\
  t_tokens t = packed_tokens (t_current t) /\
  (t_tokens t <= BUDGET)%nat.

End Chunker.

(** Two token counters used in the examples: one token per
    whitespace-separated word plus an end marker, and a counter that
    charges long texts a flat 100. *)
Fixpoint count_words (in_word : bool) (s : Py.str) : nat :=
  match s with
  | [] => 0
  | c :: s' =>
      if Py.isspace c then count_words false s'
      else if in_word then count_words true s'
      else S (count_words true s')
  end.

Definition word_tokens (s : Py.str) : nat := S (count_words false s).

Definition threshold_tokens (s : Py.str) : nat :=
  if 16 <? List.length s then 100 else 1.

(** A counter that charges every text 40 tokens: no two sentences fit
    in one chunk. *)
Definition flat_tokens (s : Py.str) : nat := 40.

(** A sentence of more than 60 words with two commas in a row. *)
Definition LONG_SENTENCE : Py.str :=
  Py.lit "x, , " ++ List.concat (repeat (Py.lit "y ") 60) ++ Py.lit "z.".

(* ================================================================= *)
(** ** Pass controller *)

(** The keyword arguments of [self.model.generate]. *)
Record GenParams := mkGenParams {
  num_beams : Z;
  num_return_sequences : Z;
  repetition_penalty : Q;
  length_penalty : Q;
  no_repeat_ngram_size : Z;
  max_length : Z;
  min_length : Z;
  early_stopping : bool;
  do_sample : bool
}.

(** The exceptions [_process_text] can meet: one raised by the
    tokenizer/model call (with its [str(e)]), and the built-in ones
    the function body itself can raise. *)
Inductive Exn :=
| ModelError (msg : Py.str)
| KeyError (key : Py.str)
| UnboundLocalError (name : Py.str)
| IndexError
| AttributeError.

(** [str(e)] (built-in wording as of CPython 3.11).  The text of a
    [KeyError] is [repr(key)]: the key between quotes chosen by its
    content, with backslashes, the quote and unprintable characters
    escaped.  Which characters are printable is a matter of the
    interpreter's Unicode tables, so [repr] is a function of the
    runtime. *)
Definition exn_str (repr : Py.str -> Py.str) (e : Exn) : Py.str :=
  match e with
  | ModelError msg => msg
  | KeyError key => repr key
  | UnboundLocalError name =>
      Py.lit "cannot access local variable '" ++ name
      ++ Py.lit "' where it is not associated with a value"
  | IndexError => Py.lit "list index out of range"
  | AttributeError => Py.lit "'NoneType' object has no attribute 'generate'"
  end.

(** One element of [self.intermediate_outputs]. *)
Record ChunkData := mkChunkData {
  original : Py.str;
  outputs : list (list Py.str)
}.

(** What the presentation layer is asked to do, in program order:
    the callbacks handed to [self.root.after(0, ...)], the message
    boxes, and the widget resets at the start of [humanize_text]. *)
Inductive UIEvent :=
| UpdateProgress (current total : Z) (message : Py.str)
| UpdateOutput (text : Py.str) (success : bool)
| ShowWarning (title message : Py.str)
| ShowInfo (title message : Py.str)
| BeginProcessing.

(** A record of one call of the generation client: the text and the
    parameters it was given, and what it answered. *)
Record Call := mkCall {
  call_text : Py.str;
  call_params : GenParams;
  call_result : Py.str + list Py.str
}.

(** [{"Standard": 1, "High": 1, "Maximum": 2}] *)
Definition STRENGTH_PASSES : list (Py.str * Z) :=
  [(Py.lit "Standard", 1%Z); (Py.lit "High", 1%Z); (Py.lit "Maximum", 2%Z)].

Fixpoint dict_get {V : Type} (d : list (Py.str * V)) (k : Py.str) : option V :=
  match d with
  | [] => None
  | (k', v) :: d' => if Py.str_eqb k k' then Some v else dict_get d' k
  end.

(** The [if strength == ... elif ... else] of [_process_text]:
    [(num_beams, repetition_penalty)]. *)
Definition beam_parameters (strength : Py.str) : Z * Q :=
  if Py.str_eqb strength (Py.lit "Standard") then (4%Z, 10 # 1)
  else if Py.str_eqb strength (Py.lit "High") then (8%Z, 12 # 1)
  else (10%Z, 15 # 1).

(** The pass count of a run: the custom value when it is enabled, else
    the dict lookup (which raises [KeyError] on an unknown key). *)
Definition effective_passes (st : Settings) : Exn + Z :=
  if use_custom_passes st then inr (custom_passes st)
  else match dict_get STRENGTH_PASSES (strength st) with
       | Some p => inr p
       | None => inl (KeyError (strength st))
       end.

Definition gen_params (num_beams : Z) (repetition_penalty : Q) : GenParams :=
  {| num_beams := num_beams;
     num_return_sequences := 4;
     repetition_penalty := repetition_penalty;
     length_penalty := 3 # 2;
     no_repeat_ngram_size := 3;
     max_length := 80;
     min_length := 10;
     early_stopping := true;
     do_sample := false |}.

Definition NL : Py.str := [10%N].

(** [range(n)] and [enumerate(l)] *)
Definition range (n : Z) : list Z := List.map Z.of_nat (seq 0 (Z.to_nat n)).
Definition enumerate {A : Type} (l : list A) : list (Z * A) :=
  combine (List.map Z.of_nat (seq 0 (List.length l))) l.

Fixpoint list_set {A : Type} (i : nat) (x : A) (l : list A) : list A :=
  match l, i with
  | [], _ => []
  | _ :: l', O => x :: l'
  | y :: l', S i' => y :: list_set i' x l'
  end.

(** [for i, paraphrase in enumerate(paraphrases): all_versions[i].append(paraphrase)] *)
Fixpoint append_versions (all_versions : list (list Py.str))
         (l : list (Z * Py.str)) : Exn + list (list Py.str) :=
  match l with
  | [] => inr all_versions
  | (i, paraphrase) :: l' =>
      match nth_error all_versions (Z.to_nat i) with
      | Some v => append_versions (list_set (Z.to_nat i) (v ++ [paraphrase]) all_versions) l'
      | None => inl IndexError
      end
  end.

(** The local variables of [_process_text] that live across loop
    iterations; [None] is a name not bound yet. *)
Record Locals := mkLocals {
  all_versions : list (list Py.str);
  chunk_counter : Z;
  chunk_data : option ChunkData;
  processed_chunk : Py.str;
  paraphrases : option (list Py.str)
}.

Section PassController.
Import Py.

(** The generation client: tokenization of the prefixed text
    (truncated to 80 tokens), [model.generate] and [batch_decode],
    as one opaque call.  It may keep state of its own and either
    raises (left, with the text of the exception) or returns the
    decoded sequences (right). *)
Variable Model : Type.
Variable generate : Model -> str -> GenParams -> Model * (str + list str).
Variable ntokens : str -> nat.

(** [repr] on strings, used by [str(e)] for a [KeyError]. *)
Variable repr : str -> str.

(** The attributes of [TextHumanizerApp] the pipeline touches, the
    requests sent to the presentation layer, and the calls made on
    the generation client. *)
Record App := mkApp {
  settings : Settings;
  intermediate_outputs : list ChunkData;
  all_outputs : list str;
  model : option Model;
  ui : list UIEvent;
  calls : list Call
}.

Definition set_settings (s : Settings) (w : App) : App :=
  mkApp s (intermediate_outputs w) (all_outputs w) (model w) (ui w) (calls w).
Definition set_intermediate_outputs (x : list ChunkData) (w : App) : App :=
  mkApp (settings w) x (all_outputs w) (model w) (ui w) (calls w).
Definition set_all_outputs (x : list str) (w : App) : App :=
  mkApp (settings w) (intermediate_outputs w) x (model w) (ui w) (calls w).
Definition emit (e : UIEvent) (w : App) : App :=
  mkApp (settings w) (intermediate_outputs w) (all_outputs w) (model w) (ui w ++ [e]) (calls w).
Definition called (m : Model) (c : Call) (w : App) : App :=
  mkApp (settings w) (intermediate_outputs w) (all_outputs w) (Some m) (ui w) (calls w ++ [c]).

(** *** Statements that read and write the application and may raise *)

Inductive Outcome (A : Type) :=
| Ok (a : A) (w : App)
| Raised (e : Exn) (w : App).
Arguments Ok {A} a w.
Arguments Raised {A} e w.

Definition Run (A : Type) : Type := App -> Outcome A.

(** The application as a statement leaves it, raising or not. *)
Definition world_of {A} (o : Outcome A) : App :=
  match o with Ok _ w => w | Raised _ w => w end.

Definition ret {A} (a : A) : Run A := fun w => Ok a w.
Definition bind {A B} (m : Run A) (k : A -> Run B) : Run B :=
  fun w => match m w with
           | Ok a w' => k a w'
           | Raised e w' => Raised e w'
           end.
Definition raise {A} (e : Exn) : Run A := fun w => Raised e w.
Definition lift {A} (r : Exn + A) : Run A :=
  fun w => match r with inl e => Raised e w | inr a => Ok a w end.
Definition get {A} (f : App -> A) : Run A := fun w => Ok (f w) w.
Definition modify (f : App -> App) : Run unit := fun w => Ok tt (f w).
Definition schedule (e : UIEvent) : Run unit := modify (emit e).

(** [try: body / except Exception as e: handler(e)] *)
Definition try_except (body : Run unit) (handler : Exn -> Run unit) : Run unit :=
  fun w => match body w with
           | Ok a w' => Ok a w'
           | Raised e w' => handler e w'
           end.

Notation "x <- m ;; k" := (bind m (fun x => k))
  (at level 61, m at next level, right associativity).
Notation "m ;;; k" := (bind m (fun _ => k))
  (at level 61, right associativity).

(** [for x in l: body], threading the locals. *)
Fixpoint for_each {A S : Type} (l : list A) (body : A -> S -> Run S) (s : S) : Run S :=
  match l with
  | [] => ret s
  | x :: l' => s' <- body x s ;; for_each l' body s'
  end.

(** The model call of one pass. *)
Definition call_model (prefixed_text : str) (params : GenParams) : Run (list str) :=
  fun w =>
    match model w with
    | None => Raised AttributeError w
    | Some m =>
        let (m', r) := generate m prefixed_text params in
        let w' := called m' (mkCall prefixed_text params r) w in
        match r with
        | inl msg => Raised (ModelError msg) w'
        | inr decoded => Ok decoded w'
        end
    end.

(** The body of [for pass_num in range(passes)]. *)
Definition pass_body (passes : Z) (params : GenParams) (total_chunks : Z)
           (pass_num : Z) (loc : Locals) : Run Locals :=
  schedule (UpdateProgress (chunk_counter loc) total_chunks
              (lit "Processing chunk " ++ str_of_int (chunk_counter loc + 1)
               ++ lit "/" ++ str_of_int total_chunks)) ;;;
  let prefixed_text := PREFIX ++ processed_chunk loc in
  decoded <- call_model prefixed_text params ;;
  st <- get settings ;;
  let paraphrases := List.map (humanize_output st) decoded in
  chunk_data <-
    (if save_intermediate st then
       match chunk_data loc with
       | Some cd => ret (Some (mkChunkData (original cd) (outputs cd ++ [paraphrases])))
       | None => raise (UnboundLocalError (lit "chunk_data"))
       end
     else ret (chunk_data loc)) ;;
  processed_chunk <-
    (if (pass_num <? passes - 1)%Z then
       match paraphrases with
       | p0 :: _ => ret p0
       | [] => raise IndexError
       end
     else ret (processed_chunk loc)) ;;
  ret (mkLocals (all_versions loc) (chunk_counter loc + 1) chunk_data
                processed_chunk (Some paraphrases)).

(** The body of [for chunk_index, chunk in enumerate(chunks)]. *)
Definition chunk_body (passes : Z) (params : GenParams) (total_chunks : Z)
           (ic : Z * str) (loc : Locals) : Run Locals :=
  let chunk := snd ic in
  st <- get settings ;;
  let fresh_chunk_data :=
    if save_intermediate st then Some (mkChunkData chunk []) else chunk_data loc in
  let loc := mkLocals (all_versions loc) (chunk_counter loc) fresh_chunk_data chunk
                      (paraphrases loc) in
  loc <- for_each (range passes) (pass_body passes params total_chunks) loc ;;
  st <- get settings ;;
  (if save_intermediate st then
     match chunk_data loc with
     | Some cd => modify (fun w => set_intermediate_outputs (intermediate_outputs w ++ [cd]) w)
     | None => raise (UnboundLocalError (lit "chunk_data"))
     end
   else ret tt) ;;;
  match paraphrases loc with
  | None => raise (UnboundLocalError (lit "paraphrases"))
  | Some ps =>
      vs <- lift (append_versions (all_versions loc) (enumerate ps)) ;;
      ret (mkLocals vs (chunk_counter loc) (chunk_data loc)
                    (processed_chunk loc) (paraphrases loc))
  end.

(** The [try] block of [_process_text]. *)
Definition process_text_body (input_content : str) : Run unit :=
  st <- get settings ;;
  let strength := strength st in
  passes <- lift (effective_passes st) ;;
  let (num_beams, repetition_penalty) := beam_parameters strength in
  let chunks := split_into_chunks ntokens input_content in
  let total_chunks := (Z.of_nat (List.length chunks) * passes)%Z in
  schedule (UpdateProgress 0 total_chunks
              (lit "Processing with " ++ str_of_int passes ++ lit " pass"
               ++ (if (passes =? 1)%Z then [] else lit "es") ++ lit "...")) ;;;
  loc <- for_each (enumerate chunks)
                  (chunk_body passes (gen_params num_beams repetition_penalty) total_chunks)
                  (mkLocals [[]; []; []; []] 0 None [] None) ;;
  modify (set_all_outputs (List.map (join (lit " ")) (all_versions loc))) ;;;
  schedule (UpdateProgress total_chunks total_chunks (lit "Complete!")) ;;;
  outs <- get all_outputs ;;
  match outs with
  | first :: _ => schedule (UpdateOutput first true)
  | [] => raise IndexError
  end.

(** [_process_text(self, input_content)] *)
Definition process_text (input_content : str) : Run unit :=
  try_except (process_text_body input_content)
    (fun e =>
       let error_msg := lit "Error during processing:" ++ NL ++ exn_str repr e in
       schedule (UpdateOutput error_msg false)).

(** [humanize_text(self)]; [input_text] is the content of the input
    widget.  The worker thread is run to its end. *)
Definition humanize_text (input_text : str) (w : App) : App :=
  let input_content := strip input_text in
  if negb (nonempty input_content) then
    emit (ShowWarning (lit "No Input") (lit "Please enter some text to humanize.")) w
  else
    match model w with
    | None =>
        emit (ShowWarning (lit "Model Not Loaded") (lit "Please load the model first.")) w
    | Some _ =>
        let w := emit BeginProcessing w in
        let w := set_intermediate_outputs [] w in
        match process_text input_content w with
        | Ok _ w' => w'
        | Raised _ w' => w'
        end
    end.

(** The application as [__init__] and a successful model load leave it. *)
Definition init_app (m : option Model) : App :=
  mkApp default_settings [] [] m [] [].

End PassController.

Arguments Ok {Model A} a w.
Arguments Raised {Model A} e w.

(* ================================================================= *)
(** ** Settings handlers *)

Section SettingsUI.
Import Py.

(** [str.isdigit] and [int(...)] ([None]: [ValueError]) of the Python
    runtime, on the text of the passes entry. *)
Variable isdigit : str -> bool.
Variable int_of : str -> option Z.

Definition update_strength (value : str) (s : Settings) : Settings :=
  mkSettings (custom_passes s) (remove_dashes s) (use_custom_passes s) value
             (save_intermediate s) (intermediate_format s)
             (highlight_paraphraser s) (highlight_intensity s).

Definition toggle_custom_passes (is_enabled : bool) (s : Settings) : Settings :=
  mkSettings (custom_passes s) (remove_dashes s) is_enabled (strength s)
             (save_intermediate s) (intermediate_format s)
             (highlight_paraphraser s) (highlight_intensity s).

Definition set_custom_passes (passes : Z) (s : Settings) : Settings :=
  mkSettings passes (remove_dashes s) (use_custom_passes s) (strength s)
             (save_intermediate s) (intermediate_format s)
             (highlight_paraphraser s) (highlight_intensity s).

(** [update_passes] of [open_settings], on the entry's text. *)
Definition update_passes (entry_text : str) (s : Settings) : Settings :=
  let value := strip entry_text in
  if nonempty value && isdigit value then
    match int_of value with
    | Some passes =>
        if (0 <? passes)%Z then set_custom_passes passes s
        else s
    | None => s
    end
  else s.

Definition update_dash (b : bool) (s : Settings) : Settings :=
  mkSettings (custom_passes s) b (use_custom_passes s) (strength s)
             (save_intermediate s) (intermediate_format s)
             (highlight_paraphraser s) (highlight_intensity s).

Definition update_intermediate (b : bool) (s : Settings) : Settings :=
  mkSettings (custom_passes s) (remove_dashes s) (use_custom_passes s) (strength s)
             b (intermediate_format s)
             (highlight_paraphraser s) (highlight_intensity s).

Definition update_format (lowered : str) (s : Settings) : Settings :=
  mkSettings (custom_passes s) (remove_dashes s) (use_custom_passes s) (strength s)
             (save_intermediate s) lowered
             (highlight_paraphraser s) (highlight_intensity s).

Definition update_highlight (b : bool) (s : Settings) : Settings :=
  mkSettings (custom_passes s) (remove_dashes s) (use_custom_passes s) (strength s)
             (save_intermediate s) (intermediate_format s)
             b (highlight_intensity s).

Definition update_highlight_intensity (intensity : Z) (s : Settings) : Settings :=
  mkSettings (custom_passes s) (remove_dashes s) (use_custom_passes s) (strength s)
             (save_intermediate s) (intermediate_format s)
             (highlight_paraphraser s) intensity.

(** What the user can do to the settings; the strength selector and
    the format selector only offer their listed values. *)
Inductive Action :=
| SelectStrength (value : str)
| ToggleCustomPasses (is_enabled : bool)
| EditPasses (entry_text : str)
| ToggleDash (b : bool)
| ToggleIntermediate (b : bool)
| SelectFormat (value : str)
| ToggleHighlight (b : bool)
| SlideIntensity (intensity : Z).

Definition STRENGTH_VALUES : list str := [lit "Standard"; lit "High"; lit "Maximum"].
Definition FORMAT_VALUES : list str := [lit "json"; lit "txt"].

Definition offered (a : Action) : Prop :=
  match a with
  | SelectStrength value => In value STRENGTH_VALUES
  | SelectFormat value => In value FORMAT_VALUES
  | _ => True
  end.

Definition perform (a : Action) (s : Settings) : Settings :=
  match a with
  | SelectStrength value => update_strength value s
  | ToggleCustomPasses b => toggle_custom_passes b s
  | EditPasses entry_text => update_passes entry_text s
  | ToggleDash b => update_dash b s
  | ToggleIntermediate b => update_intermediate b s
  | SelectFormat value => update_format value s
  | ToggleHighlight b => update_highlight b s
  | SlideIntensity v => update_highlight_intensity v s
  end.

(** The settings a run can start with. *)
Inductive reachable : Settings -> Prop :=
| reach_default : reachable default_settings
| reach_perform a s : reachable s -> offered a -> reachable (perform a s).

End SettingsUI.

(** The invariant of the settings: a positive custom pass count and a
    strength of the table. *)
Definition valid_settings (s : Settings) : Prop :=
  (0 < custom_passes s)%Z /\ In (strength s) STRENGTH_VALUES.

(** ASCII instances of the runtime functions, for the examples. *)
Definition ascii_isdigit (s : Py.str) : bool :=
  forallb (fun c => (48 <=? c) && (c <=? 57))%N s.
Definition ascii_int (s : Py.str) : option Z :=
  if nonempty s && ascii_isdigit s then
    Some (fold_left (fun acc c => acc * 10 + Z.of_N (c - 48)) s 0)%Z
  else None.

(** [repr(s)] as CPython computes it for a string of ASCII characters
    (code points from 128 on are copied, as the printable ones are):
    double quotes when the string has an apostrophe and no double
    quote, apostrophes otherwise; a backslash before the quote and
    before a backslash; [\t], [\n], [\r]; [\xNN] for the other
    control characters and for DEL. *)
Definition hex_lower (n : N) : Py.char :=
  (if n <? 10 then 48 + n else 87 + n)%N.

Definition repr_char (quote c : Py.char) : Py.str :=
  (if (c =? quote) || (c =? 92) then [92; c]
   else if c =? 9 then [92; 116]
   else if c =? 10 then [92; 110]
   else if c =? 13 then [92; 114]
   else if (c <? 32) || (c =? 127) then [92; 120; hex_lower (c / 16); hex_lower (c mod 16)]
   else [c])%N.

Definition ascii_repr (s : Py.str) : Py.str :=
  let quote := (if existsb (N.eqb 39) s && negb (existsb (N.eqb 34) s)
                then 34 else 39)%N in
  quote :: flat_map (repr_char quote) s ++ [quote].

(* ================================================================= *)
(** ** Export *)

(** The values handed to [json.dump]. *)
#[warnings="-register-all"] Inductive JSON :=
| JStr (s : Py.str)
| JInt (z : Z)
| JBool (b : bool)
| JList (l : list JSON)
| JDict (items : list (Py.str * JSON)).

(** What [save_intermediate_outputs] writes: the object given to
    [json.dump], or the text of the report. *)
Inductive Document :=
| JsonFile (data : JSON)
| TextFile (content : Py.str).

(** How [save_intermediate_outputs] ends: with the "No Data" box, with
    nothing at all when the file dialog is cancelled, with the file
    written and the "Success" box, or in the [except] branch with the
    "Error" box (what was written of the file before the exception is
    not known). *)
Inductive SaveResult :=
| NoData
| Cancelled
| Saved (filename : Py.str) (doc : Document)
| SaveFailed (message : Py.str).

(** The title and the message of the box shown by [messagebox]. *)
Definition save_message (r : SaveResult) : option (Py.str * Py.str) :=
  match r with
  | NoData =>
      Some (Py.lit "No Data",
            Py.lit "No intermediate outputs to save. Run humanization first.")
  | Cancelled => None
  | Saved filename _ =>
      Some (Py.lit "Success",
            Py.lit "Intermediate outputs saved to:" ++ NL ++ filename)
  | SaveFailed message => Some (Py.lit "Error", message)
  end.

Section ExportDocuments.
Import Py.
Variable Model : Type.

Definition settings_json (s : Settings) : JSON :=
  JDict [(lit "custom_passes", JInt (custom_passes s));
         (lit "remove_dashes", JBool (remove_dashes s));
         (lit "use_custom_passes", JBool (use_custom_passes s));
         (lit "strength", JStr (strength s));
         (lit "save_intermediate", JBool (save_intermediate s));
         (lit "intermediate_format", JStr (intermediate_format s));
         (lit "highlight_paraphraser", JBool (highlight_paraphraser s));
         (lit "highlight_intensity", JInt (highlight_intensity s))].

Definition chunk_data_json (cd : ChunkData) : JSON :=
  JDict [(lit "original", JStr (original cd));
         (lit "outputs",
          JList (List.map (fun outs => JList (List.map JStr outs)) (outputs cd)))].

(** [output_data] of the JSON branch. *)
Definition export_json (timestamp : str) (w : App Model) : JSON :=
  JDict [(lit "timestamp", JStr timestamp);
         (lit "settings", settings_json (settings w));
         (lit "intermediate_outputs",
          JList (List.map chunk_data_json (intermediate_outputs w)));
         (lit "final_outputs", JList (List.map JStr (all_outputs w)))].

(** [output[:100]] *)
Definition TRUNCATE : nat := 100.

(** The [f.write] calls of the TXT branch, in order. *)
Definition txt_candidate (jo : Z * str) : str :=
  lit "    Version " ++ str_of_int (fst jo + 1) ++ lit ": "
  ++ firstn TRUNCATE (snd jo) ++ lit "..." ++ NL.

Definition txt_pass (po : Z * list str) : str :=
  NL ++ lit "  Pass " ++ str_of_int (fst po + 1) ++ lit ":" ++ NL
  ++ List.concat (List.map txt_candidate (enumerate (snd po))).

Definition txt_chunk (ic : Z * ChunkData) : str :=
  lit "CHUNK " ++ str_of_int (fst ic + 1) ++ lit ":" ++ NL
  ++ times "-" 30 ++ NL
  ++ List.concat (List.map txt_pass (enumerate (outputs (snd ic))))
  ++ NL.

Definition txt_final (io : Z * str) : str :=
  lit "Version " ++ str_of_int (fst io + 1) ++ lit ":" ++ NL
  ++ times "-" 30 ++ NL
  ++ snd io ++ NL ++ NL.

Definition txt_settings (s : Settings) : str :=
  lit "SETTINGS:" ++ NL
  ++ lit "  Strength: " ++ strength s ++ NL
  ++ lit "  Custom Passes: " ++ str_of_int (custom_passes s) ++ NL
  ++ lit "  Use Custom Passes: " ++ str_of_bool (use_custom_passes s) ++ NL
  ++ lit "  Remove Dashes: " ++ str_of_bool (remove_dashes s) ++ NL ++ NL.

Definition export_txt (timestamp : str) (w : App Model) : str :=
  lit "Intermediate Outputs - " ++ timestamp ++ NL
  ++ times "=" 50 ++ NL ++ NL
  ++ txt_settings (settings w)
  ++ lit "INTERMEDIATE OUTPUTS:" ++ NL
  ++ times "=" 50 ++ NL ++ NL
  ++ List.concat (List.map txt_chunk (enumerate (intermediate_outputs w)))
  ++ NL ++ lit "FINAL OUTPUTS:" ++ NL
  ++ times "=" 50 ++ NL ++ NL
  ++ List.concat (List.map txt_final (enumerate (all_outputs w))).

(** [save_intermediate_outputs(self)].  [timestamp] is the formatted
    current time, [filename] the answer of the file dialog (empty
    when it is cancelled), and [failure] what the file system does
    inside the [try] block: [Some msg] when [open], [json.dump] or a
    [f.write] raises an exception [e] with [str(e) = msg], [None]
    when they all return. *)
Definition save_intermediate_outputs (timestamp : str) (filename : str)
           (failure : option str) (w : App Model) : SaveResult :=
  if negb (nonempty (intermediate_outputs w)) then NoData
  else if negb (nonempty filename) then Cancelled
  else
    let doc :=
      if str_eqb (intermediate_format (settings w)) (lit "json")
      then JsonFile (export_json timestamp w)
      else TextFile (export_txt timestamp w) in
    match failure with
    | None => Saved filename doc
    | Some msg => SaveFailed (lit "Failed to save file:" ++ NL ++ msg)
    end.

(** What the text report shows of the application: four of the
    settings, the first 100 characters of every candidate, and the
    final outputs. *)
Definition txt_view (w : App Model) : (str * Z * bool * bool) * list (list (list str)) * list str :=
  ((strength (settings w), custom_passes (settings w),
    use_custom_passes (settings w), remove_dashes (settings w)),
   List.map (fun cd => List.map (List.map (firstn TRUNCATE)) (outputs cd))
            (intermediate_outputs w),
   all_outputs w).

End ExportDocuments.

(** Two applications after a run that differ only in the
    [save_intermediate] setting. *)
Definition REPORT_APP : App unit :=
  mkApp default_settings
        [mkChunkData (Py.lit "Hi there.")
                     [[Py.lit "Hello."; Py.lit "Hey."; Py.lit "Hi."; Py.lit "Yo."]]]
        [Py.lit "Hello."; Py.lit "Hey."; Py.lit "Hi."; Py.lit "Yo."]
        None [] [].

Definition REPORT_APP' : App unit :=
  set_settings (update_intermediate false default_settings) REPORT_APP.

(** *** A small run for the examples *)

(** Custom passes switched on and set to 2, respectively 5, through
    the settings window. *)
Definition TWO_PASSES : Settings :=
  update_passes ascii_isdigit ascii_int (Py.lit "2")
                (toggle_custom_passes true default_settings).
Definition FIVE_PASSES : Settings :=
  update_passes ascii_isdigit ascii_int (Py.lit "5")
                (toggle_custom_passes true default_settings).

(** The application with the model loaded and no run made yet. *)
Definition loaded_app (st : Settings) : App nat := mkApp st [] [] (Some 0%nat) [] [].

Definition TWO_SENTENCES : Py.str := Py.lit "Hello there. How are you?".
Definition ONE_SENTENCE : Py.str := Py.lit "Hello there.".

(* ================================================================= *)
(** ** Vocabulary for talking about a run *)

Section RunVocabulary.
Import Py.

(** The progress request made at the start of a unit. *)
Definition unit_event (total c : Z) : UIEvent :=
  UpdateProgress c total
    (lit "Processing chunk " ++ str_of_int (c + 1) ++ lit "/" ++ str_of_int total).

(** The requests of [n] consecutive units, the first with counter [c]. *)
Definition unit_events (total c : Z) (n : nat) : list UIEvent :=
  List.map (fun i => unit_event total (c + Z.of_nat i)) (seq 0 n).

Definition start_event (total passes : Z) : UIEvent :=
  UpdateProgress 0 total
    (lit "Processing with " ++ str_of_int passes ++ lit " pass"
     ++ (if (passes =? 1)%Z then [] else lit "es") ++ lit "...").

Definition complete_event (total : Z) : UIEvent :=
  UpdateProgress total total (lit "Complete!").

(** The [current] values of the progress requests among some events. *)
Fixpoint progress_values (evs : list UIEvent) : list Z :=
  match evs with
  | [] => []
  | UpdateProgress current _ _ :: evs' => current :: progress_values evs'
  | _ :: evs' => progress_values evs'
  end.

Fixpoint progress_totals (evs : list UIEvent) : list Z :=
  match evs with
  | [] => []
  | UpdateProgress _ total _ :: evs' => total :: progress_totals evs'
  | _ :: evs' => progress_totals evs'
  end.

(** The post-processed candidates of a call that returned. *)
Definition pass_record (st : Settings) (c : Call) : list str :=
  match call_result c with
  | inr decoded => List.map (humanize_output st) decoded
  | inl _ => []
  end.

Definition returned (c : Call) : Prop := exists decoded, call_result c = inr decoded.

(** The calls of the successive passes of one chunk: the first is
    given the prefixed [text]; each next one the prefixed first
    candidate, post-processed, of the call before it. *)
Fixpoint chained (st : Settings) (params : GenParams) (text : str)
         (g : list Call) : Prop :=
  match g with
  | [] => True
  | c :: g' =>
      call_text c = PREFIX ++ text /\ call_params c = params /\
      match g' with
      | [] => True
      | _ :: _ =>
          exists p0 rest, returned c /\ pass_record st c = p0 :: rest /\
                          chained st params p0 g'
      end
  end.

(** All the passes of a chunk, done: [n] chained calls that returned. *)
Definition full_group (st : Settings) (params : GenParams) (n : nat)
           (chunk : str) (g : list Call) : Prop :=
  List.length g = n /\ chained st params chunk g /\ Forall returned g.

(** The candidates of the last pass of a chunk. *)
Definition final_record (st : Settings) (g : list Call) : list str :=
  match rev g with
  | c :: _ => pass_record st c
  | [] => []
  end.

(** The element of [self.intermediate_outputs] for a chunk and its calls. *)
Definition chunk_record (st : Settings) (chunk : str) (g : list Call) : ChunkData :=
  mkChunkData chunk (List.map (pass_record st) g).

Definition chunk_records (st : Settings) (chunks : list str)
           (groups : list (list Call)) : list ChunkData :=
  List.map (fun cg => chunk_record st (fst cg) (snd cg)) (combine chunks groups).

(** The four version lists after the chunks' final candidates have
    been appended, chunk after chunk. *)
Fixpoint gather (all_versions : list (list str)) (finals : list (list str))
  : Exn + list (list str) :=
  match finals with
  | [] => inr all_versions
  | f :: finals' =>
      match append_versions all_versions (enumerate f) with
      | inl e => inl e
      | inr vs => gather vs finals'
      end
  end.

(** The application after the model call of a unit. *)
Definition after_call {Model : Type} (total : Z) (loc : Locals) (m' : Model)
           (c : Call) (w : App Model) : App Model :=
  called m' c (emit (unit_event total (chunk_counter loc)) w).

(** The value of [paraphrases] after the calls [g], [dflt] before. *)
Definition last_record (st : Settings) (g : list Call) (dflt : option (list str))
  : option (list str) :=
  match rev g with
  | c :: _ => Some (pass_record st c)
  | [] => dflt
  end.

(** The value of [chunk_data] after the calls [g]. *)
Definition recorded (st : Settings) (g : list Call) (cd : option ChunkData)
  : option ChunkData :=
  if save_intermediate st
  then option_map (fun cd => mkChunkData (original cd)
                                         (outputs cd ++ List.map (pass_record st) g)) cd
  else cd.

(** How the calls [g] of a chunk end when the chunk raises [e]: the
    model raised in the last call, all earlier ones having returned;
    or an index was out of range. *)
Definition failure (e : Exn) (g : list Call) : Prop :=
  (exists msg oks c, e = ModelError msg /\ g = oks ++ [c] /\
                     call_result c = inl msg /\ Forall returned oks)
  \/ e = IndexError.

(** A call record that some call of the generation client explains. *)
Definition genuine {Model : Type}
           (generate : Model -> str -> GenParams -> Model * (str + list str))
           (c : Call) : Prop :=
  exists m, call_result c = snd (generate m (call_text c) (call_params c)).

(** The calls made since [w0] are all genuine. *)
Definition new_calls_genuine {Model : Type}
           (generate : Model -> str -> GenParams -> Model * (str + list str))
           (w0 w : App Model) : Prop :=
  exists new, calls w = calls w0 ++ new /\ Forall (genuine generate) new.

(** The interface contract of the generation client: when it returns,
    it returns exactly four sequences. *)
Definition returns_four {Model : Type}
           (generate : Model -> str -> GenParams -> Model * (str + list str)) : Prop :=
  forall m text params decoded,
    snd (generate m text params) = inr decoded -> List.length decoded = 4%nat.

(** A generation client for the examples: it counts its calls, raises
    on call number [fail_at] (counting from 0) and otherwise returns
    the text without the marker, tagged four ways. *)
Definition mock_generate (fail_at : nat) (m : nat) (text : str) (params : GenParams)
  : nat * (str + list str) :=
  (S m,
   if Nat.eqb m fail_at then inl (lit "out of memory")
   else inr (List.map (fun tag => skipn 13 text ++ tag)
                      [lit " (a)"; lit " (b)"; lit " (c)"; lit " (d)"])).

(** One sentence, five passes, the second call raising: a run of five
    units interrupted in its second unit. *)
Definition INTERRUPTED_RUN : App nat :=
  humanize_text (mock_generate 1) flat_tokens ascii_repr ONE_SENTENCE (loaded_app FIVE_PASSES).

(** Candidate [v] of each chunk, in chunk order. *)
Definition column (v : nat) (finals : list (list str)) : list str :=
  List.map (fun f => nth v f []) finals.

End RunVocabulary.

(* ================================================================= *)
(** ** Vocabulary for the post-processor and the chunker *)

(** The class of an atom. *)
Definition class_of (a : Re.atom) : Py.char -> bool :=
  match a with Re.One c | Re.Star c | Re.Plus c => c end.

(** What [humanize_output] may add or remove: whitespace, the two
    dashes and the comma.  Every other character is [plain]. *)
Definition plain (c : Py.char) : bool :=
  negb (Py.isspace c || Re.dash c || Re.one_of "," c).

(** A character that is not whitespace. *)
Definition visible (c : Py.char) : bool := negb (Py.isspace c).

(** A text of whitespace only (the empty text included). *)
Definition blank (s : Py.str) : bool := forallb Py.isspace s.

(** The [if] branch of [humanize_output] with its second substitution
    left out. *)
Definition dashes_to_commas (text : Py.str) : Py.str :=
  let result := Re.sub (Re.pat [Re.Star Re.ws; Re.One Re.dash; Re.Star Re.ws])
                       (Py.lit ", ") text in
  let result := Re.sub (Re.pat [Re.One (Re.one_of ","); Re.Star Re.ws; Re.One (Re.one_of ",")])
                       (Py.lit ",") result in
  let result := Re.sub (Re.pat [Re.Star Re.ws; Re.One (Re.one_of ","); Re.Star Re.ws])
                       (Py.lit ", ") result in
  Re.sub (Re.pat [Re.One (Re.one_of ","); Re.Star Re.ws; Re.One (Re.one_of ".")])
         (Py.lit ".") result.

(** Settings for the examples that no sequence of handler calls
    produces (a strength outside the selector's values, a pass count
    of zero), and the defaults with intermediate saving off. *)
Definition UNKNOWN_STRENGTH : Settings := update_strength (Py.lit "Extreme") default_settings.
Definition NO_PASSES : Settings :=
  set_custom_passes 0 (toggle_custom_passes true default_settings).
Definition NOT_SAVING : Settings := update_intermediate false default_settings.

(* ================================================================= *)
(** ** Progress bar *)

(** [_update_progress(self, current, total, message)]: the value
    given to the progress bar and the text of the progress label.
    [current / total] divides two ints; the quotient, which Python
    rounds to the nearest double, is kept exact here. *)
Definition update_progress (current total : Z) (message : Py.str) : Q * Py.str :=
  let progress := if (0 <? total)%Z then current # Z.to_pos total else 0 in
  (progress, Py.lit "Progress: " ++ message).

(** The bar value a request asks for, if it is a progress request. *)
Definition bar_value (e : UIEvent) : option Q :=
  match e with
  | UpdateProgress current total message => Some (fst (update_progress current total message))
  | _ => None
  end.

(** A request that leaves the bar between empty and full. *)
Definition bar_in_range (e : UIEvent) : Prop :=
  forall q, bar_value e = Some q -> (0 <= q)%Q /\ (q <= 1)%Q.

(* ================================================================= *)
(** ** Output box and highlighting *)

(** The widgets followed here: the output box, as the sequence of
    segments inserted into it, each with or without the
    ["paraphraser"] tag; the info label under it; the status label. *)
Record Display := mkDisplay {
  inserted : list (Py.str * bool);
  output_info_label : Py.str;
  status_label : Py.str
}.

Section Highlighting.
Import Py.

(** Two tables of the [re] engine for [str] patterns: the class [\w],
    and whether a subject character equals a pattern letter under
    [re.IGNORECASE]. *)
Variable isword : char -> bool.
Variable ignorecase : char -> char -> bool.

Definition word_char (c : option char) : bool :=
  match c with Some x => isword x | None => false end.

(** [\b] between two neighbours ([None]: an end of the string). *)
Definition boundary (before after : option char) : bool :=
  xorb (word_char before) (word_char after).

(** A literal, letter by letter. *)
Fixpoint literal (p : str) (s : str) : option (str * str) :=
  match p with
  | [] => Some ([], s)
  | a :: p' =>
      match s with
      | x :: s' => if ignorecase x a then Re.consumed x (literal p' s') else None
      | [] => None
      end
  end.

Definition WORD : str := lit "paraphraser".

(** [\b(paraphraser)\b] at the head of [s], [prev] being the
    character before it in the subject. *)
Definition word_at (prev : option char) (s : str) : option (str * str) :=
  if boundary prev (hd_error s) then
    match literal WORD s with
    | Some (m, rest) =>
        if boundary (hd_error (rev m)) (hd_error rest) then Some (m, rest) else None
    | None => None
    end
  else None.

(** [re.split(f'({pattern})', text, flags=re.IGNORECASE)]: the
    pattern has two groups, the one put around it here and the one
    around the word, and [re.split] returns, between the pieces, the
    text of each group of every match.  [skip] counts the characters
    of the current match still to be passed over, [cur] is the piece
    being accumulated. *)
Fixpoint highlight_split (skip : nat) (prev : option char) (cur : str) (s : str)
  : list str :=
  match s with
  | [] => [cur]
  | x :: s' =>
      match skip with
      | S k => highlight_split k (Some x) cur s'
      | O =>
          match word_at prev s with
          | Some (y :: m, _) =>
              cur :: (y :: m) :: (y :: m) :: highlight_split (List.length m) (Some x) [] s'
          | _ => highlight_split 0 (Some x) (cur ++ [x]) s'
          end
      end
  end.

(** [re.match(pattern, part, re.IGNORECASE)] *)
Definition is_word (part : str) : bool :=
  match word_at None part with Some _ => true | None => false end.

(** What holds of the piece [cur] being accumulated while the rest
    [s] is scanned: [prev] is its last character, and either the
    text from its start on begins with a character that is not a
    word character, or it starts the subject and the pattern does
    not match at its start. *)
Definition segment (prev : option char) (cur s : str) : Prop :=
  (cur <> [] -> prev = hd_error (rev cur)) /\
  (word_char (hd_error (cur ++ s)) = false \/
   (cur = [] /\ prev = None) \/
   (cur <> [] /\ word_at None (cur ++ s) = None)).

(** The body of [for part in parts]. *)
Definition insert_part (acc : list (str * bool) * Z) (part : str)
  : list (str * bool) * Z :=
  let (ins, paraphraser_count) := acc in
  if is_word part then (ins ++ [(part, true)], (paraphraser_count + 1)%Z)
  else if nonempty part then (ins ++ [(part, false)], paraphraser_count)
  else (ins, paraphraser_count).

(** The text of the info label for a count. *)
Definition found_label (paraphraser_count : Z) : str :=
  if (0 <? paraphraser_count)%Z then
    [9888; 65039]%N ++ lit " Found " ++ str_of_int paraphraser_count
    ++ lit " 'paraphraser' word(s) that need manual fixing!"
  else [].

(** [apply_highlighting(self, text)] *)
Definition apply_highlighting (st : Settings) (text : str) (d : Display) : Display :=
  if negb (highlight_paraphraser st) then
    mkDisplay [(text, false)] (output_info_label d) (status_label d)
  else
    let parts := highlight_split 0 None [] text in
    let (ins, paraphraser_count) := fold_left insert_part parts ([], 0%Z) in
    mkDisplay ins (found_label paraphraser_count) (status_label d).

(** What a piece of the text becomes in the output box when every
    highlighted piece is inserted twice. *)
Definition shown (p : str * bool) : list (str * bool) :=
  if snd p then [(fst p, true); (fst p, true)]
  else if nonempty (fst p) then [(fst p, false)] else [].

(** A whole-word occurrence of the word at offset [j] of [text]: the
    text is [pre ++ m ++ post] with [pre] of [j] characters, [m]
    spells the word in some letter case, and neither the character
    before [m] nor the one after it is a word character. *)
Definition whole_word (text : str) (j : nat) : Prop :=
  exists pre m post,
    text = pre ++ m ++ post /\ List.length pre = j /\
    Forall2 (fun x a => ignorecase x a = true) m WORD /\
    word_char (hd_error (rev pre)) = false /\
    word_char (hd_error post) = false.

(** The pattern matches at offset [j] of [s], [prev] being the
    character before [s]. *)
Definition prev_at (prev : option char) (s : str) (j : nat) : option char :=
  match j with
  | O => prev
  | S k => nth_error s k
  end.

Definition occurs (prev : option char) (s : str) (j : nat) : Prop :=
  exists m r, word_at (prev_at prev s j) (skipn j s) = Some (m, r).

(** The pieces of a text made from a list that [re.split] returns:
    the first piece, then each match and the piece after it. *)
Definition pieces_of (seg0 : str) (tl : list (str * str)) : list (str * bool) :=
  (seg0, false) :: flat_map (fun p => [(fst p, true); (snd p, false)]) tl.

(** The offsets in the text of the tagged pieces, the first piece
    starting at [base]. *)
Fixpoint tagged_offsets (base : nat) (pieces : list (str * bool)) : list nat :=
  match pieces with
  | [] => []
  | p :: rest =>
      (if snd p then [base] else [])
      ++ tagged_offsets (base + List.length (fst p)) rest
  end.

(** Pieces that are in turn untagged and tagged, from an untagged
    one to an untagged one; [expect] is the tag of the next piece. *)
Fixpoint alternating (expect : bool) (pieces : list (str * bool)) : bool :=
  match pieces with
  | [] => expect
  | p :: rest => Bool.eqb (snd p) expect && alternating (negb expect) rest
  end.

End Highlighting.

(** ASCII instances of the two tables, for the examples. *)
Definition ascii_isword (c : Py.char) : bool :=
  ((48 <=? c) && (c <=? 57) || (65 <=? c) && (c <=? 90)
   || (97 <=? c) && (c <=? 122) || (c =? 95))%N.
Definition ascii_ignorecase (x a : Py.char) : bool :=
  ((x =? a) || (65 <=? x) && (x <=? 90) && (x + 32 =? a))%N.

(* ================================================================= *)
(** ** Version selector *)

(** [s.split()]: the maximal runs of characters that are not
    whitespace. *)
Fixpoint words_scan (cur : Py.str) (s : Py.str) : list Py.str :=
  match s with
  | [] => if nonempty cur then [cur] else []
  | c :: s' =>
      if Py.isspace c then
        if nonempty cur then cur :: words_scan [] s' else words_scan [] s'
      else words_scan (cur ++ [c]) s'
  end.

Definition words (s : Py.str) : list Py.str := words_scan [] s.

(** [l[i]] for a Python list: a negative index counts from the end. *)
Definition index {A : Type} (l : list A) (i : Z) : option A :=
  if (0 <=? i)%Z then nth_error l (Z.to_nat i)
  else if (0 <=? Z.of_nat (List.length l) + i)%Z
       then nth_error l (Z.to_nat (Z.of_nat (List.length l) + i))
       else None.

(** What a handler of the main window can raise. *)
Inductive HandlerError :=
| HandlerIndexError
| HandlerValueError.


Section Window.
Import Py.
Variable Model : Type.
Variable generate : Model -> str -> GenParams -> Model * (str + list str).
Variable ntokens : str -> nat.
Variable repr : Py.str -> Py.str.
Variable isword : char -> bool.
Variable ignorecase : char -> char -> bool.
Variable isdigit : str -> bool.
Variable int_of : str -> option Z.

(** [change_output(self, choice)] *)
Definition change_output (choice : str) (w : App Model) (d : Display)
  : HandlerError + Display :=
  if negb (nonempty (all_outputs w)) then inr d
  else
    match nth_error (words choice) 1 with
    | None => inl HandlerIndexError
    | Some number =>
        match int_of number with
        | None => inl HandlerValueError
        | Some n =>
            let version_num := (n - 1)%Z in
            match index (all_outputs w) version_num with
            | None => inl HandlerIndexError
            | Some output_text =>
                let d := apply_highlighting isword ignorecase (settings w) output_text d in
                inr (mkDisplay (inserted d) (output_info_label d)
                               (lit "Showing " ++ choice))
            end
        end
    end.

(** [_load_model], when both [from_pretrained] calls return. *)
Definition load_model (m : Model) (w : App Model) : App Model :=
  mkApp (settings w) (intermediate_outputs w) (all_outputs w) (Some m) (ui w) (calls w).

(** [clear_all(self)], on the two result lists. *)
Definition clear_all (w : App Model) : App Model :=
  let w := set_all_outputs [] w in
  set_intermediate_outputs [] w.

(** What happens to the application between start-up and now. *)
Inductive Event :=
| ModelLoaded (m : Model)
| HumanizeClicked (input_text : str)
| ClearClicked
| SettingChanged (a : Action).

Definition handle (w : App Model) (e : Event) : App Model :=
  match e with
  | ModelLoaded m => load_model m w
  | HumanizeClicked input_text => humanize_text generate ntokens repr input_text w
  | ClearClicked => clear_all w
  | SettingChanged a => set_settings (perform isdigit int_of a (settings w)) w
  end.

(** The application after a sequence of events. *)
Definition session (events : list Event) : App Model :=
  fold_left handle events (init_app None).

End Window.

Arguments HumanizeClicked {Model} input_text.
Arguments ClearClicked {Model}.
Arguments SettingChanged {Model} a.

(* ================================================================= *)
(** ** Passes label *)

(** [get_passes_info_text(self)] *)
Definition get_passes_info_text (st : Settings) : Py.str :=
  if use_custom_passes st then
    Py.lit "(Custom: " ++ Py.str_of_int (custom_passes st) ++ Py.lit " passes)"
  else
    Py.lit "(Using Strength setting: " ++ strength st ++ Py.lit ")".

Section PassesLabel.
Import Py.
Variable isdigit : str -> bool.
Variable int_of : str -> option Z.

(** The settings together with the text of the [passes_info] label:
    the handlers of the three keys the label shows end with
    [update_passes_info()], [update_passes] only in the branch that
    stores the value; the other handlers leave the label alone. *)
Definition perform_labelled (p : Settings * str) (a : Action) : Settings * str :=
  let (s, passes_info) := p in
  match a with
  | SelectStrength value =>
      let s := update_strength value s in (s, get_passes_info_text s)
  | ToggleCustomPasses is_enabled =>
      let s := toggle_custom_passes is_enabled s in (s, get_passes_info_text s)
  | EditPasses entry_text =>
      let value := strip entry_text in
      if nonempty value && isdigit value then
        match int_of value with
        | Some passes =>
            if (0 <? passes)%Z then
              let s := set_custom_passes passes s in (s, get_passes_info_text s)
            else (s, passes_info)
        | None => (s, passes_info)
        end
      else (s, passes_info)
  | _ => (perform isdigit int_of a s, passes_info)
  end.

(** The window as [setup_ui] leaves it, and after some actions. *)
Definition labelled (actions : list Action) : Settings * str :=
  fold_left perform_labelled actions
            (default_settings, get_passes_info_text default_settings).

End PassesLabel.

(* ================================================================= *)
(** ** Highlight colour *)

(** [float(z)] for an int [z] with [|z| < 2^53], where it is exact. *)
Definition float_of_int (z : Z) : PrimFloat.float :=
  if (z <? 0)%Z then PrimFloat.opp (PrimFloat.of_uint63 (Uint63.of_Z (- z)))
  else PrimFloat.of_uint63 (Uint63.of_Z z).

(** [int(f)]: truncation towards zero ([None]: Python raises on an
    infinity or a NaN). *)
Definition int_of_float (f : PrimFloat.float) : option Z :=
  match FloatOps.Prim2SF f with
  | SpecFloat.S754_zero _ => Some 0%Z
  | SpecFloat.S754_finite s m e =>
      let a := (if 0 <=? e then Z.pos m * 2 ^ e else Z.pos m / 2 ^ (- e))%Z in
      Some (if s then (- a)%Z else a)
  | _ => None
  end.

(** The digits of [format(n, 'X')]. *)
Fixpoint hex_digits (u : Hexadecimal.uint) : Py.str :=
  match u with
  | Hexadecimal.Nil => []
  | Hexadecimal.D0 u => 48%N :: hex_digits u
  | Hexadecimal.D1 u => 49%N :: hex_digits u
  | Hexadecimal.D2 u => 50%N :: hex_digits u
  | Hexadecimal.D3 u => 51%N :: hex_digits u
  | Hexadecimal.D4 u => 52%N :: hex_digits u
  | Hexadecimal.D5 u => 53%N :: hex_digits u
  | Hexadecimal.D6 u => 54%N :: hex_digits u
  | Hexadecimal.D7 u => 55%N :: hex_digits u
  | Hexadecimal.D8 u => 56%N :: hex_digits u
  | Hexadecimal.D9 u => 57%N :: hex_digits u
  | Hexadecimal.Da u => 65%N :: hex_digits u
  | Hexadecimal.Db u => 66%N :: hex_digits u
  | Hexadecimal.Dc u => 67%N :: hex_digits u
  | Hexadecimal.Dd u => 68%N :: hex_digits u
  | Hexadecimal.De u => 69%N :: hex_digits u
  | Hexadecimal.Df u => 70%N :: hex_digits u
  end.

(** [f"{n:02X}"]: upper-case hexadecimal, padded with zeros to two
    characters, the sign of a negative number counting as one. *)
Definition hex2 (n : Z) : Py.str :=
  let digits := hex_digits (N.to_hex_uint (Z.abs_N n)) in
  if (n <? 0)%Z then 45%N :: digits
  else repeat 48%N (2 - List.length digits) ++ digits.

(** [update_highlight_color(self)]: the foreground colour given to
    the ["paraphraser"] tag, for an intensity with
    [|intensity| < 2^53] ([None] beyond, where [float(intensity)]
    would round). *)
Definition update_highlight_color (st : Settings) : option Py.str :=
  let intensity := highlight_intensity st in
  if (Z.abs intensity <? 2 ^ 53)%Z then
    match int_of_float (PrimFloat.mul (float_of_int 255)
                          (PrimFloat.div (float_of_int intensity) (float_of_int 100))) with
    | Some red_intensity =>
        Some (Py.lit "#" ++ hex2 (Z.min 255 red_intensity)
              ++ hex2 (Z.max 0 (100 - red_intensity))
              ++ hex2 (Z.max 0 (100 - red_intensity)))
    | None => None
    end
  else None.

(** The colour the arithmetic is meant to give. *)
Definition colour_of (intensity : Z) : Py.str :=
  let red := (255 * intensity / 100)%Z in
  Py.lit "#" ++ hex2 red ++ hex2 (Z.max 0 (100 - red)) ++ hex2 (Z.max 0 (100 - red)).

Definition is_hex_digit (c : Py.char) : bool :=
  ((48 <=? c) && (c <=? 57) || (65 <=? c) && (c <=? 70))%N.

(* ================================================================= *)
(** * Properties *)

Lemma str_eqb_eq (a b : Py.str) : Py.str_eqb a b = true <-> a = b.
Proof.
  unfold Py.str_eqb. destruct (list_eq_dec N.eq_dec a b); split; congruence.
Qed.

Lemma str_eqb_refl (a : Py.str) : Py.str_eqb a a = true.
Proof. now apply str_eqb_eq. Qed.

(* ----------------------------------------------------------------- *)
(** ** The matcher *)

Section Matcher.
Import Py Re.

Lemma star_split c k s m r :
  (forall s m r, k s = Some (m, r) -> s = m ++ r) ->
  star c k s = Some (m, r) -> s = m ++ r.
Proof.
  intros Hk. revert m r. induction s as [|x s IH]; intros m r; cbn [star].
  - apply Hk.
  - destruct (c x); [|apply Hk].
    destruct (star c k s) as [[m' r']|] eqn:E; cbn [consumed].
    + intros [= <- <-]. cbn. f_equal. now apply IH.
    + apply Hk.
Qed.

(** A match is a prefix of the subject. *)
Lemma match_atoms_split p : forall s m r, match_atoms p s = Some (m, r) -> s = m ++ r.
Proof.
  induction p as [|[c|c|c] p IH]; intros s m r; cbn [match_atoms].
  - intros [= <- <-]. reflexivity.
  - destruct s as [|x s]; [discriminate|]. destruct (c x); [|discriminate].
    destruct (match_atoms p s) as [[m' r']|] eqn:E; cbn [consumed]; [|discriminate].
    intros [= <- <-]. cbn. f_equal. now apply IH.
  - apply star_split. exact IH.
  - destruct s as [|x s]; [discriminate|]. destruct (c x); [|discriminate].
    destruct (star c (match_atoms p) s) as [[m' r']|] eqn:E; cbn [consumed];
      [|discriminate].
    intros [= <- <-]. cbn. f_equal. exact (star_split _ _ _ IH E).
Qed.

Lemma star_nonempty c k s m r :
  (forall s m r, k s = Some (m, r) -> m <> []) ->
  star c k s = Some (m, r) -> m <> [].
Proof.
  intros Hk. revert m r. induction s as [|x s IH]; intros m r; cbn [star].
  - apply Hk.
  - destruct (c x); [|apply Hk].
    destruct (star c k s) as [[m' r']|] eqn:E; cbn [consumed].
    + intros [= <- <-]. discriminate.
    + apply Hk.
Qed.

(** Every pattern of the program consumes at least one character. *)
Lemma match_atoms_nonempty p :
  consumes p = true -> forall s m r, match_atoms p s = Some (m, r) -> m <> [].
Proof.
  induction p as [|[c|c|c] p IH]; cbn [consumes existsb orb]; intros Hp s m r;
    cbn [match_atoms].
  - discriminate.
  - destruct s as [|x s]; [discriminate|]. destruct (c x); [|discriminate].
    destruct (match_atoms p s) as [[m' r']|]; cbn [consumed]; [|discriminate].
    intros [= <- <-]. discriminate.
  - apply star_nonempty. exact (IH Hp).
  - destruct s as [|x s]; [discriminate|]. destruct (c x); [|discriminate].
    destruct (star c (match_atoms p) s) as [[m' r']|]; cbn [consumed]; [|discriminate].
    intros [= <- <-]. discriminate.
Qed.

Example program_patterns_consume :
  forallb consumes
    [[Star ws; One dash; Star ws]; [One dash];
     [One (one_of ","); Star ws; One (one_of ",")];
     [Star ws; One (one_of ","); Star ws];
     [One (one_of ","); Star ws; One (one_of ".")];
     [Plus ws]; atoms SENTENCE_END; atoms PART_END] = true.
Proof. reflexivity. Qed.

(** Without a lookbehind the character before the match is not looked at. *)
Lemma sub_scan_prev r repl :
  lookbehind r = None ->
  forall s k p1 p2, sub_scan r repl k p1 s = sub_scan r repl k p2 s.
Proof.
  intros Hr. induction s as [|x s IH]; intros k p1 p2; cbn [sub_scan]; [reflexivity|].
  destruct k as [|k]; [|apply IH].
  unfold match_at. rewrite Hr. reflexivity.
Qed.

(** Skipping the rest of a match. *)
Lemma sub_scan_skip r repl :
  lookbehind r = None ->
  forall m rest p, sub_scan r repl (List.length m) p (m ++ rest) = sub_scan r repl 0 None rest.
Proof.
  intros Hr. induction m as [|x m IH]; intros rest p; cbn [List.length app].
  - now apply sub_scan_prev.
  - cbn [sub_scan]. apply IH.
Qed.

(** The greedy run of whitespace is what [lstrip] removes. *)
Lemma star_ws_lstrip s :
  exists m, star ws (match_atoms []) s = Some (m, lstrip s) /\ s = m ++ lstrip s.
Proof.
  induction s as [|x s (m & Hm & Hs)]; cbn [star lstrip].
  - exists []. auto.
  - unfold ws at 1. destruct (isspace x).
    + rewrite Hm. cbn [consumed]. exists (x :: m). split; [reflexivity|].
      cbn. now f_equal.
    + exists []. auto.
Qed.

End Matcher.

(* ----------------------------------------------------------------- *)
(** ** Whitespace collapsing *)

Section Collapse.
Import Py Re.

Lemma collapse_nil : collapse [] = [].
Proof. reflexivity. Qed.

Lemma collapse_cons x s :
  collapse (x :: s) =
  if isspace x then 32%N :: collapse (lstrip s) else x :: collapse s.
Proof.
  unfold collapse, sub. cbn [sub_scan match_at lookbehind pat atoms match_atoms].
  unfold ws at 1. destruct (isspace x).
  - destruct (star_ws_lstrip s) as (m & Hm & Hs).
    change (star ws (fun s0 : str => Some ([], s0)) s) with (star ws (match_atoms []) s).
    rewrite Hm. cbn [consumed].
    rewrite <- (@sub_scan_skip (pat [Plus ws]) (lit " ") eq_refl m (lstrip s) (Some x)).
    rewrite <- Hs. reflexivity.
  - apply f_equal. now apply sub_scan_prev.
Qed.

Lemma lstrip_clean s : starts_clean s -> lstrip s = s.
Proof. destruct s as [|y s]; cbn; [reflexivity|]. now intros ->. Qed.

Lemma lstrip_starts_clean s : starts_clean (lstrip s).
Proof.
  induction s as [|x s IH]; cbn; [exact I|].
  destruct (isspace x) eqn:E; [exact IH | exact E].
Qed.

Lemma length_lstrip s : (List.length (lstrip s) <= List.length s)%nat.
Proof.
  induction s as [|x s IH]; cbn; [lia|]. destruct (isspace x); cbn; lia.
Qed.

Lemma collapse_starts_clean s : starts_clean s -> starts_clean (collapse s).
Proof.
  destruct s as [|y s]; [intros _; exact I|]. cbn [starts_clean]. intros Hy.
  rewrite collapse_cons, Hy. exact Hy.
Qed.

(** Collapsing leaves single spaces, each followed by a character
    that is not whitespace, or by nothing. *)
Lemma collapse_loose s : loose (collapse s).
Proof.
  remember (List.length s) as n eqn:Hn. revert s Hn.
  induction n as [n IH] using lt_wf_ind. intros [|x s] Hn.
  - exact I.
  - rewrite collapse_cons. cbn [List.length] in Hn.
    destruct (isspace x) eqn:Hx.
    + cbn [loose]. split.
      * intros _. split; [reflexivity|].
        pose proof (collapse_starts_clean _ (lstrip_starts_clean s)) as H.
        destruct (collapse (lstrip s)); [exact I | exact H].
      * apply (IH (List.length (lstrip s))); [|reflexivity].
        pose proof (length_lstrip s). lia.
    + cbn [loose]. split; [congruence|].
      apply (IH (List.length s)); [lia | reflexivity].
Qed.

Lemma tidy_loose s : tidy s -> loose s.
Proof.
  induction s as [|x s IH]; [auto|]. cbn [tidy loose]. intros [Hx Hs].
  split; [|auto]. intros Hw. destruct (Hx Hw) as [-> H]. split; [reflexivity|].
  destruct s; [destruct H | exact H].
Qed.

Lemma loose_tail x s : loose (x :: s) -> loose s.
Proof. now intros [_ H]. Qed.

Lemma loose_lstrip s : loose s -> loose (lstrip s).
Proof.
  induction s as [|x s IH]; [auto|]. intros H. cbn [lstrip].
  destruct (isspace x); [apply IH; exact (loose_tail H) | exact H].
Qed.

(** Removing what [rstrip] removes from a loose text: at most one
    final space. *)
Lemma rstrip_snoc_space s x : isspace x = true -> rstrip (s ++ [x]) = rstrip s.
Proof.
  intros Hx. unfold rstrip. rewrite rev_app_distr. cbn [rev app lstrip].
  now rewrite Hx.
Qed.

Lemma rstrip_snoc_clean s x : isspace x = false -> rstrip (s ++ [x]) = s ++ [x].
Proof.
  intros Hx. unfold rstrip. rewrite rev_app_distr. cbn [rev app lstrip].
  rewrite Hx. cbn [rev]. now rewrite rev_involutive.
Qed.

Lemma loose_snoc_inv s x :
  loose (s ++ [x]) ->
  loose s /\ (isspace x = true -> match rev s with y :: _ => isspace y = false | [] => True end).
Proof.
  induction s as [|y s IH]; cbn [app loose rev].
  - intros _. auto.
  - intros [Hy Hs]. destruct (IH Hs) as [Hl Hlast]. split.
    + split; [|exact Hl]. intros Hw. destruct (Hy Hw) as [-> H]. split; [reflexivity|].
      destruct s; [exact I | exact H].
    + intros Hx. specialize (Hlast Hx).
      destruct (rev s) as [|z l] eqn:Hrev; cbn [app].
      * apply (f_equal (@rev _)) in Hrev. rewrite rev_involutive in Hrev. subst s.
        cbn [app] in Hy. destruct (isspace y) eqn:Ey; [|reflexivity].
        destruct (Hy eq_refl) as [_ H]. congruence.
      * exact Hlast.
Qed.

Lemma loose_clean_end_tidy s x : loose (s ++ [x]) -> isspace x = false -> tidy (s ++ [x]).
Proof.
  intros Hl Hx. induction s as [|y s IH]; cbn [app tidy loose] in *.
  - split; [congruence | exact I].
  - destruct Hl as [Hy Hs]. split; [|now apply IH].
    intros Hw. destruct (Hy Hw) as [-> H]. split; [reflexivity|].
    destruct (s ++ [x]) eqn:E; [destruct s; discriminate | exact H].
Qed.

Lemma tidy_last s x : tidy (s ++ [x]) -> isspace x = false.
Proof.
  induction s as [|y s IH]; cbn [app tidy].
  - intros [H _]. destruct (isspace x); [destruct (H eq_refl) as [_ []] | reflexivity].
  - intros [_ H]. now apply IH.
Qed.

Lemma starts_clean_app s t : s <> [] -> starts_clean (s ++ t) -> starts_clean s.
Proof. destruct s; [congruence | auto]. Qed.

(** Stripping a loose text on the right gives a tidy one. *)
Lemma rstrip_loose s :
  loose s -> starts_clean s ->
  tidy (rstrip s) /\ starts_clean (rstrip s).
Proof.
  destruct s as [|x s _] using rev_ind; [cbn; auto|].
  intros Hl Hc. destruct (isspace x) eqn:Hx.
  - rewrite (rstrip_snoc_space _ _ Hx).
    destruct (loose_snoc_inv _ _ Hl) as [Hl' Hlast]. specialize (Hlast Hx).
    destruct s as [|y s _] using rev_ind; [cbn; auto|].
    rewrite rev_app_distr in Hlast. cbn [rev app] in Hlast.
    rewrite (rstrip_snoc_clean _ _ Hlast). split.
    + now apply loose_clean_end_tidy.
    + apply (@starts_clean_app (s ++ [y]) [x]); [destruct s; discriminate | exact Hc].
  - rewrite (rstrip_snoc_clean _ _ Hx). split; [now apply loose_clean_end_tidy | exact Hc].
Qed.

Lemma collapse_tidy s : tidy s -> collapse s = s.
Proof.
  induction s as [|x s IH]; [reflexivity|]. cbn [tidy]. intros [Hx Hs].
  rewrite collapse_cons. destruct (isspace x).
  - destruct (Hx eq_refl) as [-> H]. f_equal.
    rewrite lstrip_clean; [now apply IH|]. destruct s; [destruct H | exact H].
  - f_equal. now apply IH.
Qed.

Lemma strip_tidy s : tidy s -> starts_clean s -> strip s = s.
Proof.
  intros Ht Hc. unfold strip. rewrite (lstrip_clean _ Hc).
  destruct s as [|x s _] using rev_ind; [reflexivity|].
  apply rstrip_snoc_clean. exact (tidy_last _ _ Ht).
Qed.

(** The text left by collapsing and trimming is tidy. *)
Lemma strip_collapse_tidy s :
  tidy (strip (collapse s)) /\ starts_clean (strip (collapse s)).
Proof.
  unfold strip. apply rstrip_loose.
  - apply loose_lstrip, collapse_loose.
  - apply lstrip_starts_clean.
Qed.

End Collapse.

(** With dash removal off, [humanize_output] only collapses whitespace
    and trims, and applying it again changes nothing. *)
Lemma humanize_output_idempotent_without_dashes st s :
  remove_dashes st = false ->
  humanize_output st (humanize_output st s) = humanize_output st s.
Proof.
  intros Hrd.
  assert (H : forall t, humanize_output st t = Py.strip (collapse t)).
  { intros t. unfold humanize_output. rewrite Hrd. reflexivity. }
  rewrite !H. destruct (strip_collapse_tidy s) as [Ht Hc].
  rewrite (collapse_tidy _ Ht). now apply strip_tidy.
Qed.

(* ----------------------------------------------------------------- *)
(** ** Post-processor *)

Example humanize_dashes :
  humanize_output default_settings ([65; 32; 8212; 32; 66; 8211; 67; 46]%N)
  = Py.lit "A, B, C.".
Proof. vm_compute. reflexivity. Qed.

Example humanize_commas :
  humanize_output default_settings (Py.lit "a  ,b ,, c ,.") = Py.lit "a, b, c.".
Proof. vm_compute. reflexivity. Qed.

(** C1 fails on the code: with dash removal on, three commas in a row
    come out as two (the double-comma pass replaces non-overlapping
    pairs once), and a second application removes one more. *)
Theorem humanize_output_not_idempotent :
  remove_dashes default_settings = true /\
  humanize_output default_settings (Py.lit "a,,,b") = Py.lit "a, , b" /\
  humanize_output default_settings (humanize_output default_settings (Py.lit "a,,,b"))
    = Py.lit "a, b" /\
  humanize_output default_settings (humanize_output default_settings (Py.lit "a,,,b"))
    <> humanize_output default_settings (Py.lit "a,,,b").
Proof.
  split; [reflexivity|]. split; [vm_compute; reflexivity|].
  split; [vm_compute; reflexivity|]. vm_compute. discriminate.
Qed.

(** The same with three dashes in a row. *)
Example humanize_three_dashes :
  humanize_output default_settings ([97; 8212; 8212; 8212; 98]%N) = Py.lit "a, , b".
Proof. vm_compute. reflexivity. Qed.

(* ----------------------------------------------------------------- *)
(** ** Chunker *)

Section ChunkerProperties.
Import Py.
Variable ntokens : str -> nat.

Lemma emit_parts_app chunks parts :
  emit_parts ntokens chunks parts = chunks ++ parts.
Proof.
  unfold emit_parts. revert chunks.
  induction parts as [|p parts IH]; intros chunks; cbn [fold_left].
  - now rewrite app_nil_r.
  - destruct (BUDGET <? ntokens (PREFIX ++ p)); rewrite IH, <- app_assoc; reflexivity.
Qed.

Lemma render_part parts : List.map render (List.map Part parts) = parts.
Proof. rewrite map_map. cbn. apply map_id. Qed.

Lemma erase_step t sentence :
  chunk_step ntokens (erase t) sentence = erase (traced_step ntokens t sentence).
Proof.
  unfold chunk_step, traced_step, erase. cbn [chunks current_chunk current_tokens].
  destruct (BUDGET <? ntokens (PREFIX ++ sentence)).
  - destruct (nonempty (t_current t));
      cbn [chunks current_chunk current_tokens t_chunks t_current t_tokens];
      rewrite emit_parts_app, !map_app, ?render_part; reflexivity.
  - destruct (BUDGET <? t_tokens t + ntokens (PREFIX ++ sentence));
      cbn [t_chunks t_current t_tokens]; rewrite ?map_app; reflexivity.
Qed.

Lemma erase_fold sentences t :
  fold_left (chunk_step ntokens) sentences (erase t)
  = erase (fold_left (traced_step ntokens) sentences t).
Proof.
  revert t. induction sentences as [|s sentences IH]; intros t; cbn [fold_left].
  - reflexivity.
  - rewrite erase_step. apply IH.
Qed.

(** The chunks are the renderings of the remembered origins. *)
Lemma chunk_origins_render text :
  split_into_chunks ntokens text = List.map render (chunk_origins ntokens text).
Proof.
  unfold split_into_chunks, chunk_origins.
  change (mkChunker [] [] 0) with (erase (mkTraced [] [] 0)).
  rewrite erase_fold.
  destruct (fold_left (traced_step ntokens) (sentences_of text) (mkTraced [] [] 0))
    as [cs cur tok].
  cbn [erase chunks current_chunk current_tokens t_chunks t_current t_tokens].
  destruct (nonempty cur); [rewrite map_app|]; reflexivity.
Qed.

Lemma packed_tokens_snoc ss s :
  packed_tokens ntokens (ss ++ [s])
  = (packed_tokens ntokens ss + ntokens (PREFIX ++ s))%nat.
Proof.
  unfold packed_tokens. rewrite map_app, list_sum_app. unfold list_sum. cbn [List.map fold_right].
  now rewrite Nat.add_0_r.
Qed.

Lemma nonempty_true {A : Type} (l : list A) : nonempty l = true <-> l <> [].
Proof. destruct l; cbn; split; congruence. Qed.

Lemma packing_ok_step t sentence :
  packing_ok ntokens t -> packing_ok ntokens (traced_step ntokens t sentence).
Proof.
  intros (Hchunks & Htok & Hle). unfold traced_step.
  destruct (BUDGET <? ntokens (PREFIX ++ sentence)) eqn:Hbig.
  - assert (Hflush : packing_ok ntokens
              (if nonempty (t_current t)
               then mkTraced (t_chunks t ++ [Packed (t_current t)]) [] 0
               else t)).
    { destruct (nonempty (t_current t)) eqn:Hne.
      - split; [|split; [reflexivity | cbn; lia]].
        cbn [t_chunks]. intros ss Hin. apply in_app_or in Hin.
        destruct Hin as [Hin|[[= <-]|[]]]; [now apply Hchunks|].
        split; [now apply nonempty_true|]. rewrite <- Htok. exact Hle.
      - split; [exact Hchunks | split; [exact Htok | exact Hle]]. }
    destruct Hflush as (Hchunks' & Htok' & Hle').
    split; [|split; [exact Htok' | exact Hle']].
    cbn [t_chunks]. intros ss Hin. apply in_app_or in Hin.
    destruct Hin as [Hin|Hin]; [now apply Hchunks'|].
    apply in_map_iff in Hin. destruct Hin as (p & [=] & _).
  - apply Nat.ltb_ge in Hbig.
    destruct (BUDGET <? t_tokens t + ntokens (PREFIX ++ sentence)) eqn:Hsum.
    + apply Nat.ltb_lt in Hsum.
      split; [|split; [unfold packed_tokens, list_sum; cbn [t_tokens t_current List.map fold_right]; lia | exact Hbig]].
      cbn [t_chunks]. intros ss Hin. apply in_app_or in Hin.
      destruct Hin as [Hin|[[= <-]|[]]]; [now apply Hchunks|].
      split; [|rewrite <- Htok; exact Hle].
      intros Hnil. rewrite Hnil in Htok. cbn in Htok. lia.
    + apply Nat.ltb_ge in Hsum.
      split; [exact Hchunks|].
      cbn [t_current t_tokens]. rewrite packed_tokens_snoc, <- Htok.
      split; [reflexivity | exact Hsum].
Qed.

Lemma packing_ok_fold sentences t :
  packing_ok ntokens t -> packing_ok ntokens (fold_left (traced_step ntokens) sentences t).
Proof.
  revert t. induction sentences as [|s sentences IH]; intros t Ht; cbn [fold_left].
  - exact Ht.
  - apply IH. now apply packing_ok_step.
Qed.

Lemma joined_tokens_le ss :
  (forall a b, ntokens (PREFIX ++ a ++ lit " " ++ b)
               <= ntokens (PREFIX ++ a) + ntokens (PREFIX ++ b))%nat ->
  ss <> [] ->
  (ntokens (PREFIX ++ join (lit " ") ss) <= packed_tokens ntokens ss)%nat.
Proof.
  intros Hsub. induction ss as [|a [|b ss] IH]; intros Hne.
  - now destruct Hne.
  - unfold packed_tokens, list_sum. cbn [join List.map fold_right]. lia.
  - change (join (lit " ") (a :: b :: ss))
      with (a ++ lit " " ++ join (lit " ") (b :: ss)).
    specialize (IH ltac:(discriminate)).
    etransitivity; [apply Hsub|].
    unfold packed_tokens, list_sum in *. cbn [List.map fold_right] in *. lia.
Qed.

Lemma packed_origin_ok text ss :
  In (Packed ss) (chunk_origins ntokens text) ->
  ss <> [] /\ (packed_tokens ntokens ss <= BUDGET)%nat.
Proof.
  intros Hin. unfold chunk_origins in Hin.
  assert (H0 : packing_ok ntokens (mkTraced [] [] 0)).
  { split; [intros ? []|]. split; [reflexivity | cbn; lia]. }
  pose proof (packing_ok_fold (sentences_of text) H0) as (Hchunks & Htok & Hle).
  destruct (nonempty (t_current (fold_left (traced_step ntokens) (sentences_of text)
                                          (mkTraced [] [] 0)))) eqn:Hne.
  - apply in_app_or in Hin. destruct Hin as [Hin|[[= <-]|[]]]; [now apply Hchunks|].
    split; [now apply nonempty_true|]. rewrite <- Htok. exact Hle.
  - now apply Hchunks.
Qed.

(** C7, as the code has it: the chunks are the renderings of their
    origins, and every chunk packed from whole sentences is not
    empty of sentences and has a sum of per-sentence counts (each
    counted with its own prefix) of at most 60; the count of the
    prefixed, joined chunk is at most 60 for every token counter
    that is subadditive over joining with a space. *)
Theorem packed_chunks_within_budget text ss :
  In (Packed ss) (chunk_origins ntokens text) ->
  split_into_chunks ntokens text = List.map render (chunk_origins ntokens text) /\
  ss <> [] /\
  (packed_tokens ntokens ss <= BUDGET)%nat /\
  ((forall a b, ntokens (PREFIX ++ a ++ lit " " ++ b)
                <= ntokens (PREFIX ++ a) + ntokens (PREFIX ++ b))%nat ->
   (ntokens (PREFIX ++ render (Packed ss)) <= BUDGET)%nat).
Proof.
  intros Hin. split; [apply chunk_origins_render|].
  destruct (packed_origin_ok text ss Hin) as [Hne Hle].
  split; [exact Hne|]. split; [exact Hle|].
  intros Hsub. cbn [render]. etransitivity; [now apply joined_tokens_le | exact Hle].
Qed.

(** *** Order and content *)

Lemma flat_map_pieces_parts parts : flat_map pieces (List.map Part parts) = parts.
Proof. induction parts as [|p parts IH]; cbn; [reflexivity | now rewrite IH]. Qed.

Lemma traced_step_pieces t sentence :
  flat_map pieces (t_chunks (traced_step ntokens t sentence))
    ++ t_current (traced_step ntokens t sentence)
  = (flat_map pieces (t_chunks t) ++ t_current t) ++ expand ntokens sentence.
Proof.
  unfold traced_step, expand.
  destruct (BUDGET <? ntokens (PREFIX ++ sentence)).
  - destruct (t_current t) as [|a cur] eqn:Hcur; cbn [nonempty t_chunks t_current].
    + rewrite flat_map_app, flat_map_pieces_parts, Hcur, !app_nil_r. reflexivity.
    + rewrite !flat_map_app, flat_map_pieces_parts. cbn [flat_map pieces].
      rewrite !app_nil_r. reflexivity.
  - destruct (BUDGET <? t_tokens t + ntokens (PREFIX ++ sentence));
      cbn [t_chunks t_current].
    + rewrite flat_map_app. cbn [flat_map pieces]. now rewrite app_nil_r.
    + now rewrite app_assoc.
Qed.

Lemma traced_fold_pieces sentences t :
  let t' := fold_left (traced_step ntokens) sentences t in
  flat_map pieces (t_chunks t') ++ t_current t'
  = (flat_map pieces (t_chunks t) ++ t_current t) ++ flat_map (expand ntokens) sentences.
Proof.
  revert t. induction sentences as [|s sentences IH]; intros t; cbn [fold_left flat_map].
  - now rewrite app_nil_r.
  - cbv zeta in IH. rewrite IH, traced_step_pieces, <- app_assoc. reflexivity.
Qed.

(** The chunks, taken apart again, are the sentences in their order,
    an oversized sentence standing as its parts. *)
Lemma chunk_origins_in_order text :
  flat_map pieces (chunk_origins ntokens text)
  = flat_map (expand ntokens) (sentences_of text).
Proof.
  unfold chunk_origins.
  pose proof (traced_fold_pieces (sentences_of text) (mkTraced [] [] 0)) as H.
  cbv zeta in H. cbn [t_chunks t_current flat_map app] in H. rewrite <- H.
  destruct (t_current (fold_left (traced_step ntokens) (sentences_of text)
                                 (mkTraced [] [] 0))) as [|a cur];
    cbn [nonempty].
  - now rewrite app_nil_r.
  - rewrite flat_map_app. cbn [flat_map pieces]. now rewrite app_nil_r.
Qed.

Lemma sentences_nonempty text s : In s (sentences_of text) -> s <> [].
Proof.
  unfold sentences_of. intros H. apply in_map_iff in H.
  destruct H as (s0 & <- & H). apply filter_In in H. destruct H as [_ H].
  now apply nonempty_true.
Qed.

Lemma packed_from_step (S : list str) t sentence :
  In sentence S ->
  (forall ss, In (Packed ss) (t_chunks t) -> incl ss S) -> incl (t_current t) S ->
  (forall ss, In (Packed ss) (t_chunks (traced_step ntokens t sentence)) -> incl ss S)
  /\ incl (t_current (traced_step ntokens t sentence)) S.
Proof.
  intros Hs Hchunks Hcur. unfold traced_step.
  destruct (BUDGET <? ntokens (PREFIX ++ sentence)).
  - destruct (nonempty (t_current t)); cbn [t_chunks t_current]; split;
      try (intros a []); try exact Hcur;
      intros ss Hin; repeat (apply in_app_or in Hin; destruct Hin as [Hin|Hin]);
      try (now apply Hchunks);
      try (apply in_map_iff in Hin; destruct Hin as (p & [=] & _)).
    destruct Hin as [[= <-]|[]]. exact Hcur.
  - destruct (BUDGET <? t_tokens t + ntokens (PREFIX ++ sentence));
      cbn [t_chunks t_current]; split.
    + intros ss Hin. apply in_app_or in Hin.
      destruct Hin as [Hin|[[= <-]|[]]]; [now apply Hchunks | exact Hcur].
    + intros a [<-|[]]. exact Hs.
    + exact Hchunks.
    + apply incl_app; [exact Hcur|]. intros a [<-|[]]. exact Hs.
Qed.

Lemma packed_from_fold (S : list str) sentences t :
  incl sentences S ->
  (forall ss, In (Packed ss) (t_chunks t) -> incl ss S) -> incl (t_current t) S ->
  let t' := fold_left (traced_step ntokens) sentences t in
  (forall ss, In (Packed ss) (t_chunks t') -> incl ss S) /\ incl (t_current t') S.
Proof.
  revert t. induction sentences as [|s sentences IH]; intros t HS Hchunks Hcur;
    cbn [fold_left].
  - auto.
  - destruct (@packed_from_step S t s (HS s (or_introl eq_refl)) Hchunks Hcur) as [H1 H2].
    apply IH; auto. intros a Ha. apply HS. now right.
Qed.

(** A chunk packed from whole sentences is made of sentences of the
    text and is not empty. *)
Lemma packed_chunk_nonempty text ss :
  In (Packed ss) (chunk_origins ntokens text) ->
  incl ss (sentences_of text) /\ render (Packed ss) <> [].
Proof.
  intros Hin.
  assert (Hincl : incl ss (sentences_of text)).
  { unfold chunk_origins in Hin.
    destruct (@packed_from_fold (sentences_of text) (sentences_of text) (mkTraced [] [] 0)
                (incl_refl _) (fun ss (H : In (Packed ss) []) => match H with end)
                (incl_nil_l _)) as [H1 H2].
    destruct (nonempty (t_current (fold_left (traced_step ntokens) (sentences_of text)
                                            (mkTraced [] [] 0)))).
    - apply in_app_or in Hin. destruct Hin as [Hin|[[= <-]|[]]]; [now apply H1 | exact H2].
    - now apply H1. }
  split; [exact Hincl|].
  destruct (packed_origin_ok text ss Hin) as [Hne _].
  destruct ss as [|a ss]; [now destruct Hne|].
  pose proof (@sentences_nonempty text a (Hincl a (or_introl eq_refl))) as Ha.
  cbn [render join]. destruct a; [now destruct Ha|]. destruct ss; discriminate.
Qed.

End ChunkerProperties.

(** C7 fails as stated: with a token counter that is not subadditive,
    two sentences of one token each are packed into a chunk whose own
    count is 100. *)
Lemma joined_chunk_over_budget :
  chunk_origins threshold_tokens (Py.lit "a. b.") = [Packed [Py.lit "a."; Py.lit "b."]] /\
  split_into_chunks threshold_tokens (Py.lit "a. b.") = [Py.lit "a. b."] /\
  ~ (threshold_tokens (PREFIX ++ Py.lit "a. b.") <= BUDGET)%nat.
Proof.
  split; [vm_compute; reflexivity|]. split; [vm_compute; reflexivity|].
  vm_compute. lia.
Qed.

(** C6 fails on the code: an oversized sentence with two commas in a
    row is split into parts one of which is empty, and the parts,
    unlike the sentences, are not filtered. *)
Theorem oversized_sentence_yields_empty_chunk :
  (BUDGET < word_tokens (PREFIX ++ LONG_SENTENCE))%nat /\
  nth_error (split_into_chunks word_tokens LONG_SENTENCE) 0 = Some (Py.lit "x") /\
  nth_error (split_into_chunks word_tokens LONG_SENTENCE) 1 = Some [] /\
  In [] (split_into_chunks word_tokens LONG_SENTENCE).
Proof.
  split; [vm_compute; lia|]. split; [vm_compute; reflexivity|].
  split; [vm_compute; reflexivity|]. vm_compute. auto.
Qed.

(* ----------------------------------------------------------------- *)
(** ** Strength table *)

(** C2: the strength table is the fixed one.  Standard gives 4 beams
    and penalty 10.0, High 8 and 12.0, Maximum 10 and 15.0; once a
    strength is selected, the pass count of a run is the custom value
    when custom passes are enabled and otherwise 1, 1 and 2. *)
Theorem strength_table_exact (st : Settings) :
  beam_parameters (Py.lit "Standard") = (4%Z, 10 # 1) /\
  beam_parameters (Py.lit "High") = (8%Z, 12 # 1) /\
  beam_parameters (Py.lit "Maximum") = (10%Z, 15 # 1) /\
  effective_passes (update_strength (Py.lit "Standard") st)
    = inr (if use_custom_passes st then custom_passes st else 1%Z) /\
  effective_passes (update_strength (Py.lit "High") st)
    = inr (if use_custom_passes st then custom_passes st else 1%Z) /\
  effective_passes (update_strength (Py.lit "Maximum") st)
    = inr (if use_custom_passes st then custom_passes st else 2%Z).
Proof.
  repeat split; try reflexivity;
    unfold effective_passes, update_strength; simpl;
    destruct (use_custom_passes st); reflexivity.
Qed.

(* ----------------------------------------------------------------- *)
(** ** Settings reachable from the user interface *)

Section ReachableSettings.
Variable isdigit : Py.str -> bool.
Variable int_of : Py.str -> option Z.

Lemma update_passes_positive entry_text s :
  (0 < custom_passes s)%Z ->
  (0 < custom_passes (update_passes isdigit int_of entry_text s))%Z.
Proof.
  intros Hs. unfold update_passes.
  destruct (nonempty (Py.strip entry_text) && isdigit (Py.strip entry_text)); auto.
  destruct (int_of (Py.strip entry_text)) as [passes|]; auto.
  destruct (0 <? passes)%Z eqn:E; auto.
  simpl. now apply Z.ltb_lt.
Qed.

Lemma update_passes_strength entry_text s :
  strength (update_passes isdigit int_of entry_text s) = strength s.
Proof.
  unfold update_passes.
  destruct (nonempty (Py.strip entry_text) && isdigit (Py.strip entry_text)); auto.
  destruct (int_of (Py.strip entry_text)) as [passes|]; auto.
  destruct (0 <? passes)%Z; auto.
Qed.

Lemma reachable_valid s : reachable isdigit int_of s -> valid_settings s.
Proof.
  induction 1 as [|a s Hr [IHp IHs] Hoff].
  - split; [reflexivity | simpl; auto].
  - destruct a; simpl in *; split; auto.
    + now apply update_passes_positive.
    + now rewrite update_passes_strength.
Qed.

Lemma valid_effective_passes s :
  valid_settings s ->
  exists passes, effective_passes s = inr passes /\ (1 <= passes)%Z.
Proof.
  intros [Hp Hs]. unfold effective_passes.
  destruct (use_custom_passes s).
  - exists (custom_passes s). split; [reflexivity | lia].
  - simpl in Hs. destruct Hs as [E|[E|[E|[]]]]; rewrite <- E; simpl.
    + exists 1%Z; split; [reflexivity | lia].
    + exists 1%Z; split; [reflexivity | lia].
    + exists 2%Z; split; [reflexivity | lia].
Qed.

End ReachableSettings.

(* ----------------------------------------------------------------- *)
(** ** Lists *)

Lemma map_snd_combine {A B : Type} (a : list A) (l : list B) :
  List.length a = List.length l -> List.map snd (combine a l) = l.
Proof.
  revert a. induction l as [|x l IH]; intros [|y a] H; try discriminate; cbn.
  - reflexivity.
  - f_equal. apply IH. now injection H.
Qed.

Lemma map_snd_enumerate {A : Type} (l : list A) : List.map snd (enumerate l) = l.
Proof.
  unfold enumerate. apply map_snd_combine. now rewrite length_map, length_seq.
Qed.

Lemma length_enumerate {A : Type} (l : list A) :
  List.length (enumerate l) = List.length l.
Proof.
  rewrite <- (map_snd_enumerate l) at 2. now rewrite length_map.
Qed.

Lemma length_list_set {A : Type} i (x : A) l :
  List.length (list_set i x l) = List.length l.
Proof.
  revert i. induction l as [|y l IH]; intros [|i]; cbn; auto.
Qed.

Lemma append_versions_length av l vs :
  append_versions av l = inr vs -> List.length vs = List.length av.
Proof.
  revert av. induction l as [|[i p] l IH]; intros av; cbn.
  - intros [= <-]. reflexivity.
  - destruct (nth_error av (Z.to_nat i)); [|discriminate].
    intros H. apply IH in H. now rewrite length_list_set in H.
Qed.

Lemma gather_length av finals vs :
  gather av finals = inr vs -> List.length vs = List.length av.
Proof.
  revert av. induction finals as [|f finals IH]; intros av; cbn.
  - intros [= <-]. reflexivity.
  - destruct (append_versions av (enumerate f)) as [e|vs'] eqn:E; [discriminate|].
    intros H. apply IH in H. apply append_versions_length in E. congruence.
Qed.



Lemma Forall2_in_r {A B : Type} (R : A -> B -> Prop) l1 l2 b :
  Forall2 R l1 l2 -> In b l2 -> exists a, In a l1 /\ R a b.
Proof.
  induction 1 as [|x y l1 l2 Hxy H IH]; cbn; [intros []|].
  intros [<-|Hin].
  - exists x. auto.
  - destruct (IH Hin) as (a & Ha & HR). exists a. auto.
Qed.


(* ----------------------------------------------------------------- *)
(** ** Chained calls *)



(* ----------------------------------------------------------------- *)
(** ** Gathering the versions *)

Lemma append_versions_four a b c d p0 p1 p2 p3 :
  append_versions [a; b; c; d] (enumerate [p0; p1; p2; p3])
  = inr [a ++ [p0]; b ++ [p1]; c ++ [p2]; d ++ [p3]].
Proof. reflexivity. Qed.

Lemma gather_four finals :
  Forall (fun f => List.length f = 4%nat) finals ->
  forall a b c d,
    gather [a; b; c; d] finals
    = inr [a ++ column 0 finals; b ++ column 1 finals;
           c ++ column 2 finals; d ++ column 3 finals].
Proof.
  induction 1 as [|f finals Hf _ IH]; intros a b c d.
  - cbn. now rewrite !app_nil_r.
  - destruct f as [|p0 [|p1 [|p2 [|p3 [|]]]]]; try discriminate.
    cbn [gather]. rewrite append_versions_four, IH.
    unfold column. cbn [List.map nth]. now rewrite <- !app_assoc.
Qed.

(* ----------------------------------------------------------------- *)
(** ** Progress values *)







(* ----------------------------------------------------------------- *)
(** ** The pass loop and the chunk loop *)

Section RunProperties.
Import Py.
Variable Model : Type.
Variable generate : Model -> str -> GenParams -> Model * (str + list str).
Variable ntokens : str -> nat.
Variable repr : Py.str -> Py.str.

Lemma pass_body_step (P : Z) params (T k : Z) loc (w : App Model) m :
  model w = Some m ->
  (save_intermediate (settings w) = true -> chunk_data loc <> None) ->
  let text := PREFIX ++ processed_chunk loc in
  let c := mkCall text params (snd (generate m text params)) in
  let w1 := after_call T loc (fst (generate m text params)) c w in
  pass_body generate P params T k loc w =
  match snd (generate m text params) with
  | inl msg => Raised (ModelError msg) w1
  | inr decoded =>
      let ps := List.map (humanize_output (settings w)) decoded in
      let cd :=
        if save_intermediate (settings w)
        then option_map (fun cd => mkChunkData (original cd) (outputs cd ++ [ps]))
                        (chunk_data loc)
        else chunk_data loc in
      if (k <? P - 1)%Z then
        match ps with
        | p0 :: _ =>
            Ok (mkLocals (all_versions loc) (chunk_counter loc + 1) cd p0 (Some ps)) w1
        | [] => Raised IndexError w1
        end
      else
        Ok (mkLocals (all_versions loc) (chunk_counter loc + 1) cd
                     (processed_chunk loc) (Some ps)) w1
  end.
Proof.
  intros Hm Hcd text c w1.
  unfold pass_body, bind, schedule, modify, call_model, get, ret, raise.
  cbn [model emit]. rewrite Hm.
  subst w1 c. unfold after_call, unit_event. fold text.
  destruct (generate m text params) as [m' [msg|decoded]]; cbn [fst snd]; [reflexivity|].
  cbn [settings called emit].
  destruct (save_intermediate (settings w)) eqn:Hs.
  - destruct (chunk_data loc) as [cd|]; [|exfalso; now apply Hcd].
    cbn [option_map].
    destruct (k <? P - 1)%Z; [|reflexivity].
    destruct (List.map (humanize_output (settings w)) decoded); reflexivity.
  - destruct (k <? P - 1)%Z; [|reflexivity].
    destruct (List.map (humanize_output (settings w)) decoded); reflexivity.
Qed.

Lemma unit_events_S T c n :
  unit_events T c (S n) = unit_event T c :: unit_events T (c + 1) n.
Proof.
  unfold unit_events. cbn [seq List.map]. rewrite Z.add_0_r. f_equal.
  rewrite <- seq_shift, map_map. apply map_ext. intros i. f_equal. lia.
Qed.

Lemma unit_events_app T c n k :
  unit_events T c (n + k) = unit_events T c n ++ unit_events T (c + Z.of_nat n) k.
Proof.
  revert c. induction n as [|n IH]; intros c.
  - cbn. now rewrite Z.add_0_r.
  - cbn [Nat.add]. rewrite !unit_events_S, IH. cbn. do 3 f_equal. lia.
Qed.

Lemma last_record_cons st c g d :
  last_record st (c :: g) d = last_record st g (Some (pass_record st c)).
Proof.
  unfold last_record. cbn [rev]. destruct (rev g); reflexivity.
Qed.

Lemma recorded_cons st c g cd :
  recorded st g
    (if save_intermediate st
     then option_map (fun cd => mkChunkData (original cd)
                                            (outputs cd ++ [pass_record st c])) cd
     else cd)
  = recorded st (c :: g) cd.
Proof.
  unfold recorded. destruct (save_intermediate st); [|reflexivity].
  destruct cd as [cd|]; [|reflexivity]. cbn. now rewrite <- app_assoc.
Qed.

Lemma for_each_cons {A S : Type} (x : A) l (body : A -> S -> Run Model S) s w :
  for_each (x :: l) body s w =
  match body x s w with
  | Ok s' w' => for_each l body s' w'
  | Raised e w' => Raised e w'
  end.
Proof. reflexivity. Qed.

(** What the pass loop of one chunk does, from pass [a] on with [n]
    passes to go. *)
Lemma pass_loop_spec (P : Z) params (T : Z) :
  forall n a loc (w : App Model) m,
    (a + n = Z.to_nat P)%nat ->
    model w = Some m ->
    (save_intermediate (settings w) = true -> chunk_data loc <> None) ->
    match for_each (List.map Z.of_nat (seq a n)) (pass_body generate P params T) loc w with
    | Ok loc' w' =>
        exists g m',
          List.length g = n /\
          chained (settings w) params (processed_chunk loc) g /\
          Forall returned g /\
          w' = mkApp (settings w) (intermediate_outputs w) (all_outputs w) (Some m')
                     (ui w ++ unit_events T (chunk_counter loc) n) (calls w ++ g) /\
          all_versions loc' = all_versions loc /\
          chunk_counter loc' = (chunk_counter loc + Z.of_nat n)%Z /\
          chunk_data loc' = recorded (settings w) g (chunk_data loc) /\
          paraphrases loc' = last_record (settings w) g (paraphrases loc)
    | Raised e w' =>
        exists g c m',
          (List.length g < n)%nat /\
          chained (settings w) params (processed_chunk loc) (g ++ [c]) /\
          Forall returned g /\
          w' = mkApp (settings w) (intermediate_outputs w) (all_outputs w) (Some m')
                     (ui w ++ unit_events T (chunk_counter loc) (S (List.length g)))
                     (calls w ++ g ++ [c]) /\
          ((exists msg, e = ModelError msg /\ call_result c = inl msg) \/
           (e = IndexError /\ call_result c = inr []))
    end.
Proof.
  induction n as [|n IH]; intros a loc w m Han Hm Hcd.
  - cbn. exists [], m. destruct w; cbn in *. subst.
    rewrite !app_nil_r, Z.add_0_r. unfold recorded, last_record. cbn.
    repeat split; auto.
    destruct save_intermediate; [destruct (chunk_data loc) as [[]|]|];
      cbn; rewrite ?app_nil_r; reflexivity.
  - cbn [seq List.map]. rewrite for_each_cons.
    rewrite (pass_body_step P params T (Z.of_nat a) loc w Hm Hcd).
    set (text := PREFIX ++ processed_chunk loc).
    destruct (generate m text params) as [m1 r] eqn:Hgen. cbn [fst snd].
    set (c := mkCall text params r).
    set (w1 := after_call T loc m1 c w).
    assert (Hw1 : w1 = mkApp (settings w) (intermediate_outputs w) (all_outputs w) (Some m1)
                          (ui w ++ unit_events T (chunk_counter loc) 1) (calls w ++ [c]))
      by (rewrite unit_events_S; reflexivity).
    destruct r as [msg|decoded].
    + exists [], c, m1. cbn [List.length app]. repeat split; auto; try lia.
      left. exists msg. auto.
    + cbv zeta.
      remember (List.map (humanize_output (settings w)) decoded) as ps eqn:Hps_def.
      assert (Hrec : pass_record (settings w) c = ps) by (subst ps; reflexivity).
      assert (Hret : returned c) by (exists decoded; reflexivity).
      destruct (Z.of_nat a <? P - 1)%Z eqn:Hk.
      * destruct ps as [|p0 rest].
        { exists [], c, m1. cbn [List.length app]. repeat split; auto; try lia.
          right. split; [reflexivity|]. subst c. cbn.
          destruct decoded; [reflexivity | discriminate]. }
        match goal with
        | |- context [for_each _ _ ?l1 w1] => set (loc1 := l1)
        end.
        assert (Hm1 : model w1 = Some m1) by reflexivity.
        assert (Hcd1 : save_intermediate (settings w1) = true -> chunk_data loc1 <> None).
        { subst loc1. cbn. intros Hs. rewrite Hs. specialize (Hcd Hs).
          destruct (chunk_data loc); [discriminate | congruence]. }
        specialize (IH (S a) loc1 w1 m1 ltac:(lia) Hm1 Hcd1).
        destruct (for_each (List.map Z.of_nat (seq (S a) n)) (pass_body generate P params T) loc1 w1)
          as [loc' w'|e w'].
        { destruct IH as (g & m' & Hlen & Hch & Hall & Hw' & Hav & Hcc & Hdata & Hpar).
          exists (c :: g), m'. cbn [List.length].
          split; [lia|]. split.
          { cbn [chained]. split; [reflexivity|]. split; [reflexivity|].
            destruct g; [exact I|]. exists p0, rest.
            split; [exact Hret|]. split; [exact Hrec|]. exact Hch. }
          split; [constructor; auto|].
          split.
          { rewrite Hw', Hw1. subst loc1.
            cbn [settings intermediate_outputs all_outputs ui calls chunk_counter].
            change (S n) with (1 + n)%nat. rewrite unit_events_app.
            change (Z.of_nat 1) with 1%Z. rewrite <- !app_assoc. reflexivity. }
          split; [rewrite Hav; reflexivity|].
          split; [rewrite Hcc; subst loc1; cbn; lia|].
          split.
          { rewrite Hdata. subst loc1. cbn [chunk_data settings w1].
            rewrite Hw1. cbn [settings]. rewrite <- recorded_cons, Hrec. reflexivity. }
          rewrite Hpar, last_record_cons, Hrec. reflexivity. }
        { destruct IH as (g & c' & m' & Hlen & Hch & Hall & Hw' & He).
          exists (c :: g), c', m'. cbn [List.length].
          split; [lia|]. split.
          { cbn [chained app]. split; [reflexivity|]. split; [reflexivity|].
            destruct (g ++ [c']) eqn:Hg; [destruct g; discriminate|].
            exists p0, rest.
            split; [exact Hret|]. split; [exact Hrec|]. exact Hch. }
          split; [constructor; auto|].
          split; [|exact He].
          rewrite Hw', Hw1. subst loc1.
          cbn [settings intermediate_outputs all_outputs ui calls chunk_counter List.length].
          change (S (S (List.length g))) with (1 + S (List.length g))%nat.
          rewrite unit_events_app.
          change (Z.of_nat 1) with 1%Z. rewrite <- !app_assoc. reflexivity. }
      * assert (n = 0)%nat by (apply Z.ltb_ge in Hk; lia). subst n.
        cbn [seq List.map for_each ret]. exists [c], m1. cbn [List.length].
        split; [reflexivity|]. split; [cbn; auto|].
        split; [constructor; auto|].
        split; [exact Hw1|].
        split; [reflexivity|]. split; [reflexivity|].
        split.
        { cbn [chunk_data]. rewrite <- recorded_cons, Hrec.
          unfold recorded.
          destruct save_intermediate; [destruct (chunk_data loc) as [[]|]|]; cbn;
            rewrite ?app_nil_r; reflexivity. }
        cbn [paraphrases]. rewrite last_record_cons, Hrec. reflexivity.
Qed.

Lemma last_record_final st g d :
  g <> [] -> last_record st g d = Some (final_record st g).
Proof.
  unfold last_record, final_record. intros Hg.
  destruct (rev g) eqn:E; [|reflexivity].
  apply (f_equal (@rev _)) in E. rewrite rev_involutive in E. now destruct Hg.
Qed.

Lemma append_versions_error av l e :
  append_versions av l = inl e -> e = IndexError.
Proof.
  revert av. induction l as [|[i p] l IH]; intros av; cbn; [discriminate|].
  destruct (nth_error av (Z.to_nat i)); [apply IH | congruence].
Qed.

(** What one iteration of the chunk loop does when at least one pass
    is asked for. *)
Lemma chunk_body_spec (P : Z) params (T : Z) ic loc (w : App Model) m :
  (1 <= Z.to_nat P)%nat ->
  model w = Some m ->
  match chunk_body generate P params T ic loc w with
  | Ok loc' w' =>
      exists g m',
        full_group (settings w) params (Z.to_nat P) (snd ic) g /\
        w' = mkApp (settings w)
                   (intermediate_outputs w ++
                      (if save_intermediate (settings w)
                       then [chunk_record (settings w) (snd ic) g] else []))
                   (all_outputs w) (Some m')
                   (ui w ++ unit_events T (chunk_counter loc) (Z.to_nat P))
                   (calls w ++ g) /\
        append_versions (all_versions loc) (enumerate (final_record (settings w) g))
          = inr (all_versions loc') /\
        chunk_counter loc' = (chunk_counter loc + Z.of_nat (Z.to_nat P))%Z
  | Raised e w' =>
      exists g m',
        g <> [] /\ (List.length g <= Z.to_nat P)%nat /\
        chained (settings w) params (snd ic) g /\
        settings w' = settings w /\ all_outputs w' = all_outputs w /\
        model w' = Some m' /\
        ui w' = ui w ++ unit_events T (chunk_counter loc) (List.length g) /\
        calls w' = calls w ++ g /\
        failure e g /\
        (forall msg, e = ModelError msg -> intermediate_outputs w' = intermediate_outputs w)
  end.
Proof.
  intros Hn Hm.
  unfold chunk_body, bind, get. cbn [snd].
  match goal with
  | |- context [for_each _ _ ?l0 w] => set (loc0 := l0)
  end.
  assert (Hcd0 : save_intermediate (settings w) = true -> chunk_data loc0 <> None).
  { subst loc0. cbn. intros ->. discriminate. }
  pose proof (@pass_loop_spec P params T (Z.to_nat P) 0%nat loc0 w m eq_refl Hm Hcd0) as Hloop.
  unfold range.
  destruct (for_each (List.map Z.of_nat (seq 0 (Z.to_nat P))) (pass_body generate P params T) loc0 w)
    as [loc1 w1|e w1].
  - destruct Hloop as (g & m1 & Hlen & Hch & Hall & Hw1 & Hav & Hcc & Hdata & Hpar).
    assert (Hg : g <> []) by (destruct g; [cbn in Hlen; lia | discriminate]).
    rewrite (last_record_final _ _ Hg) in Hpar.
    assert (Hst1 : settings w1 = settings w) by (rewrite Hw1; reflexivity).
    rewrite Hst1.
    destruct (save_intermediate (settings w)) eqn:Hs.
    + rewrite Hdata. unfold recorded. rewrite Hs. subst loc0. cbn [chunk_data option_map].
      unfold modify. rewrite Hpar. unfold lift.
      destruct (append_versions (all_versions loc1) (enumerate (final_record (settings w) g)))
        as [e|vs] eqn:Happ.
      * apply append_versions_error in Happ. subst e.
        unfold raise. exists g, m1. rewrite Hw1. cbn. rewrite Hlen.
        split; [exact Hg|]. split; [lia|]. split; [exact Hch|].
        repeat (split; [reflexivity|]).
        split; [right; reflexivity | intros msg Hmsg; discriminate].
      * unfold ret. exists g, m1.
        split; [split; [exact Hlen | split; [exact Hch | exact Hall]]|].
        split.
        { rewrite Hw1. reflexivity. }
        cbn [all_versions chunk_counter].
        split; [rewrite <- Happ, Hav; reflexivity|].
        rewrite Hcc. reflexivity.
    + unfold ret. rewrite Hpar. unfold lift.
      destruct (append_versions (all_versions loc1) (enumerate (final_record (settings w) g)))
        as [e|vs] eqn:Happ.
      * apply append_versions_error in Happ. subst e.
        unfold raise. exists g, m1. rewrite Hw1. cbn. rewrite Hlen.
        split; [exact Hg|]. split; [lia|]. split; [exact Hch|].
        repeat (split; [reflexivity|]).
        split; [right; reflexivity | intros msg Hmsg; discriminate].
      * exists g, m1.
        split; [split; [exact Hlen | split; [exact Hch | exact Hall]]|].
        split.
        { rewrite Hw1. cbn. rewrite app_nil_r. reflexivity. }
        cbn [all_versions chunk_counter].
        split; [rewrite <- Happ, Hav; reflexivity|].
        rewrite Hcc. reflexivity.
  - destruct Hloop as (g & c & m1 & Hlen & Hch & Hall & Hw1 & He).
    exists (g ++ [c]), m1. rewrite Hw1. cbn.
    split; [destruct g; discriminate|].
    split; [rewrite length_app; cbn; lia|].
    split; [exact Hch|].
    repeat (split; [reflexivity|]).
    split.
    { rewrite length_app. cbn. rewrite Nat.add_1_r. reflexivity. }
    split; [reflexivity|].
    split; [|reflexivity].
    destruct He as [(msg & -> & Hc)|[-> Hc]]; [left|right; reflexivity].
    exists msg, g, c. auto.
Qed.

(** What the chunk loop does when at least one pass is asked for. *)
Lemma chunk_loop_spec (P : Z) params (T : Z) :
  (1 <= Z.to_nat P)%nat ->
  forall ics loc (w : App Model) m,
    model w = Some m ->
    match for_each ics (chunk_body generate P params T) loc w with
    | Ok loc' w' =>
        exists groups m',
          Forall2 (full_group (settings w) params (Z.to_nat P)) (List.map snd ics) groups /\
          w' = mkApp (settings w)
                     (intermediate_outputs w ++
                        (if save_intermediate (settings w)
                         then chunk_records (settings w) (List.map snd ics) groups
                         else []))
                     (all_outputs w) (Some m')
                     (ui w ++ unit_events T (chunk_counter loc)
                                          (List.length ics * Z.to_nat P))
                     (calls w ++ List.concat groups) /\
          gather (all_versions loc) (List.map (final_record (settings w)) groups)
            = inr (all_versions loc') /\
          chunk_counter loc'
            = (chunk_counter loc + Z.of_nat (List.length ics * Z.to_nat P))%Z
    | Raised e w' =>
        exists done ic rest groups g m',
          ics = done ++ ic :: rest /\
          Forall2 (full_group (settings w) params (Z.to_nat P)) (List.map snd done) groups /\
          g <> [] /\ (List.length g <= Z.to_nat P)%nat /\
          chained (settings w) params (snd ic) g /\
          settings w' = settings w /\ all_outputs w' = all_outputs w /\
          model w' = Some m' /\
          ui w' = ui w ++ unit_events T (chunk_counter loc)
                                      (List.length done * Z.to_nat P + List.length g) /\
          calls w' = calls w ++ List.concat groups ++ g /\
          failure e g /\
          (forall msg, e = ModelError msg ->
             intermediate_outputs w' =
             intermediate_outputs w ++
               (if save_intermediate (settings w)
                then chunk_records (settings w) (List.map snd done) groups
                else []))
    end.
Proof.
  intros Hn. induction ics as [|ic ics IH]; intros loc w m Hm.
  - cbn. exists [], m. split; [constructor|].
    split; [|split; [reflexivity | lia]].
    destruct w; cbn in *. subst. unfold chunk_records. cbn.
    destruct save_intermediate; rewrite !app_nil_r; reflexivity.
  - rewrite for_each_cons.
    pose proof (@chunk_body_spec P params T ic loc w m Hn Hm) as Hbody.
    destruct (chunk_body generate P params T ic loc w) as [loc1 w1|e w1].
    + destruct Hbody as (g & m1 & Hfull & Hw1 & Happ & Hcc).
      assert (Hm1 : model w1 = Some m1) by (rewrite Hw1; reflexivity).
      assert (Hst1 : settings w1 = settings w) by (rewrite Hw1; reflexivity).
      specialize (IH loc1 w1 m1 Hm1). rewrite Hst1 in IH.
      destruct (for_each ics (chunk_body generate P params T) loc1 w1) as [loc' w'|e w'].
      * destruct IH as (groups & m' & HF & Hw' & Hgather & Hcc').
        exists (g :: groups), m'. cbn [List.map].
        split; [constructor; assumption|].
        split.
        { rewrite Hw', Hw1.
          cbn [intermediate_outputs all_outputs ui calls List.concat List.length].
          rewrite Hcc. change (S (List.length ics) * Z.to_nat P)%nat
            with (Z.to_nat P + List.length ics * Z.to_nat P)%nat.
          rewrite (unit_events_app T (chunk_counter loc) (Z.to_nat P)), <- !app_assoc.
          unfold chunk_records. cbn [combine List.map fst snd].
          destruct save_intermediate; reflexivity. }
        split.
        { cbn [gather]. rewrite Happ. exact Hgather. }
        rewrite Hcc', Hcc. cbn [List.length]. lia.
      * destruct IH as (done & ic' & rest & groups & g' & m' & Hics & HF & Hg' & Hlen' &
                        Hch' & Hst' & Hao' & Hm' & Hui' & Hcalls' & Hfail & Hinter).
        exists (ic :: done), ic', rest, (g :: groups), g', m'.
        split; [rewrite Hics; reflexivity|].
        split; [cbn [List.map]; constructor; assumption|].
        split; [assumption|]. split; [assumption|]. split; [assumption|].
        split; [assumption|].
        split; [rewrite Hao', Hw1; reflexivity|].
        split; [assumption|].
        split.
        { rewrite Hui', Hw1. cbn [ui List.length]. rewrite Hcc.
          replace (S (List.length done) * Z.to_nat P + List.length g')%nat
            with (Z.to_nat P + (List.length done * Z.to_nat P + List.length g'))%nat by lia.
          rewrite (unit_events_app T (chunk_counter loc) (Z.to_nat P)), <- !app_assoc.
          reflexivity. }
        split.
        { rewrite Hcalls', Hw1. cbn [calls List.concat]. rewrite <- !app_assoc. reflexivity. }
        split; [assumption|].
        intros msg Hmsg. rewrite (Hinter msg Hmsg), Hw1.
        cbn [intermediate_outputs List.map]. unfold chunk_records.
        cbn [combine List.map fst snd]. rewrite <- !app_assoc.
        destruct save_intermediate; reflexivity.
    + destruct Hbody as (g & m1 & Hg & Hlen & Hch & Hst & Hao & Hm1 & Hui & Hcalls & Hfail & Hinter).
      exists [], ic, ics, [], g, m1.
      split; [reflexivity|]. split; [constructor|].
      split; [exact Hg|]. split; [exact Hlen|]. split; [exact Hch|].
      split; [exact Hst|]. split; [exact Hao|]. split; [exact Hm1|].
      split; [exact Hui|]. split; [exact Hcalls|]. split; [exact Hfail|].
      intros msg Hmsg. rewrite (Hinter msg Hmsg). unfold chunk_records. cbn.
      destruct save_intermediate; rewrite app_nil_r; reflexivity.
Qed.

(** The [try] block, for a pass count of at least one. *)
Lemma run_spec input (w : App Model) m (P : Z) :
  model w = Some m ->
  effective_passes (settings w) = inr P ->
  (1 <= P)%Z ->
  let st := settings w in
  let params := gen_params (fst (beam_parameters (strength st)))
                           (snd (beam_parameters (strength st))) in
  let chunks := split_into_chunks ntokens input in
  let n := Z.to_nat P in
  let T := (Z.of_nat (List.length chunks) * P)%Z in
  match process_text_body generate ntokens input w with
  | Ok _ w' =>
      exists groups m' versions first,
        Forall2 (full_group st params n) chunks groups /\
        gather [[]; []; []; []] (List.map (final_record st) groups) = inr versions /\
        hd_error (List.map (join (lit " ")) versions) = Some first /\
        w' = mkApp st
                   (intermediate_outputs w ++
                      (if save_intermediate st then chunk_records st chunks groups else []))
                   (List.map (join (lit " ")) versions)
                   (Some m')
                   (ui w ++ start_event T P
                         :: unit_events T 0 (List.length chunks * n)
                         ++ [complete_event T; UpdateOutput first true])
                   (calls w ++ List.concat groups)
  | Raised e w' =>
      exists done chunk rest groups g m',
        chunks = done ++ chunk :: rest /\
        Forall2 (full_group st params n) done groups /\
        g <> [] /\ (List.length g <= n)%nat /\
        chained st params chunk g /\
        settings w' = st /\ all_outputs w' = all_outputs w /\
        model w' = Some m' /\
        ui w' = ui w ++ start_event T P
                     :: unit_events T 0 (List.length done * n + List.length g) /\
        calls w' = calls w ++ List.concat groups ++ g /\
        failure e g /\
        (forall msg, e = ModelError msg ->
           intermediate_outputs w' =
           intermediate_outputs w ++
             (if save_intermediate st then chunk_records st done groups else []))
  end.
Proof.
  intros Hm HP HP1 st params chunks n T.
  unfold process_text_body, bind, get, lift. rewrite HP. fold st.
  destruct (beam_parameters (strength st)) as [nb rp] eqn:Hbeam.
  fold chunks. fold T. unfold schedule, modify.
  change (UpdateProgress 0 T _) with (start_event T P).
  set (w0 := emit (start_event T P) w).
  set (loc0 := mkLocals [[]; []; []; []] 0 None [] None).
  assert (Hn : (1 <= n)%nat) by (subst n; lia).
  assert (Hm0 : model w0 = Some m) by exact Hm.
  pose proof (@chunk_loop_spec P (gen_params nb rp) T Hn (enumerate chunks) loc0 w0 m Hm0)
    as Hloop.
  change (settings w0) with st in Hloop.
  change (gen_params nb rp) with params in Hloop |- *.
  destruct (for_each (enumerate chunks) (chunk_body generate P params T) loc0 w0)
    as [loc' w1|e w1].
  - destruct Hloop as (groups & m' & HF & Hw1 & Hgather & Hcc).
    rewrite map_snd_enumerate in HF, Hw1. rewrite length_enumerate in Hw1.
    cbn [all_versions] in Hgather.
    pose proof (gather_length _ _ Hgather) as Hlen.
    destruct (all_versions loc') as [|v0 vs] eqn:Hvs; [discriminate|].
    cbn [set_all_outputs emit all_outputs List.map].
    exists groups, m', (v0 :: vs), (join (lit " ") v0).
    split; [exact HF|]. split; [exact Hgather|]. split; [reflexivity|].
    unfold ret. rewrite Hw1. subst w0.
    unfold emit, set_all_outputs.
    cbn [settings intermediate_outputs all_outputs model ui calls].
    f_equal. rewrite <- !app_assoc. reflexivity.
  - destruct Hloop as (done & ic & rest & groups & g & m' & Hics & HF & Hg & Hlen &
                       Hch & Hst & Hao & Hm' & Hui & Hcalls & Hfail & Hinter).
    exists (List.map snd done), (snd ic), (List.map snd rest), groups, g, m'.
    split.
    { rewrite <- (map_snd_enumerate chunks), Hics, map_app. reflexivity. }
    split; [exact HF|]. split; [exact Hg|]. split; [exact Hlen|]. split; [exact Hch|].
    split; [exact Hst|]. split; [exact Hao|]. split; [exact Hm'|].
    split.
    { rewrite Hui. subst w0. cbn. rewrite length_map, <- app_assoc. reflexivity. }
    split; [exact Hcalls|]. split; [exact Hfail|]. exact Hinter.
Qed.

(** The [try] block when no pass is asked for: nothing is generated,
    and a first chunk, if any, finds [paraphrases] unbound. *)
Lemma run_spec_no_pass input (w : App Model) (P : Z) :
  effective_passes (settings w) = inr P ->
  (P <= 0)%Z ->
  let chunks := split_into_chunks ntokens input in
  let T := (Z.of_nat (List.length chunks) * P)%Z in
  match process_text_body generate ntokens input w with
  | Ok _ w' =>
      chunks = [] /\
      w' = mkApp (settings w) (intermediate_outputs w) [[]; []; []; []] (model w)
                 (ui w ++ [start_event T P; complete_event T; UpdateOutput [] true])
                 (calls w)
  | Raised e w' =>
      chunks <> [] /\ e = UnboundLocalError (lit "paraphrases") /\
      settings w' = settings w /\ all_outputs w' = all_outputs w /\
      model w' = model w /\
      ui w' = ui w ++ [start_event T P] /\ calls w' = calls w
  end.
Proof.
  intros HP HP0. cbv zeta.
  unfold process_text_body, bind, get, lift. rewrite HP.
  destruct (beam_parameters (strength (settings w))) as [nb rp].
  remember (split_into_chunks ntokens input) as chunks eqn:Hchunks.
  set (T := (Z.of_nat (List.length chunks) * P)%Z).
  unfold schedule, modify.
  change (UpdateProgress 0 T _) with (start_event T P).
  assert (Hr : range P = [])
    by (unfold range; replace (Z.to_nat P) with 0%nat by lia; reflexivity).
  destruct chunks as [|chunk rest].
  - cbn [enumerate List.length seq List.map combine for_each ret all_versions].
    split; [reflexivity|]. unfold emit, set_all_outputs.
    cbn [settings intermediate_outputs all_outputs model ui calls List.map join].
    rewrite <- !app_assoc. reflexivity.
  - unfold enumerate. cbn [List.length seq List.map combine].
    rewrite for_each_cons. unfold chunk_body at 1. unfold bind, get. rewrite Hr.
    cbn [for_each ret settings emit snd paraphrases].
    destruct (save_intermediate (settings w)); cbn;
      (split; [discriminate|]); repeat split; reflexivity.
Qed.


Lemma process_text_unfold input (w : App Model) :
  process_text generate ntokens repr input w =
  match process_text_body generate ntokens input w with
  | Ok _ w' => Ok tt w'
  | Raised e w' =>
      Ok tt (emit (UpdateOutput (lit "Error during processing:" ++ NL ++ exn_str repr e) false) w')
  end.
Proof.
  unfold process_text, try_except.
  destruct (process_text_body generate ntokens input w) as [[] w'|e w']; reflexivity.
Qed.



Lemma chained_params st params text g :
  chained st params text g -> Forall (fun c => call_params c = params) g.
Proof.
  revert text. induction g as [|c g IH]; intros text; [constructor|].
  cbn [chained]. intros (_ & Hp & Hrest). constructor; [exact Hp|].
  destruct g as [|c' g]; [constructor|].
  destruct Hrest as (p0 & rest & _ & _ & Hch). exact (IH p0 Hch).
Qed.

(** Every call of a run is made with the beam count and repetition
    penalty of the strength and the fixed decoding constants. *)
Lemma calls_carry_run_parameters input (w : App Model) m (P : Z) :
  model w = Some m ->
  effective_passes (settings w) = inr P ->
  let st := settings w in
  let w' := world_of (process_text_body generate ntokens input w) in
  exists new,
    calls w' = calls w ++ new /\
    Forall (fun c => call_params c
                     = gen_params (fst (beam_parameters (strength st)))
                                  (snd (beam_parameters (strength st)))) new.
Proof.
  intros Hm HP st w'. subst w'.
  destruct (Z_le_gt_dec 1 P) as [HP1|HP0].
  - pose proof (@run_spec input w m P Hm HP HP1) as Hrun. cbv zeta in Hrun.
    fold st in Hrun.
    destruct (process_text_body generate ntokens input w) as [[] w'|e w'].
    + destruct Hrun as (groups & m' & versions & first & HF & Hg & Hfirst & Hw').
      exists (List.concat groups). split; [rewrite Hw'; reflexivity|].
      apply Forall_concat, Forall_forall. intros g Hin.
      destruct (@Forall2_in_r _ _ _ _ _ g HF Hin) as (chunk & _ & _ & Hch & _).
      exact (chained_params _ _ _ _ Hch).
    + destruct Hrun as (done & chunk & rest & groups & g & m' & Hchunks & HF & Hg & Hlen &
                        Hch & Hst & Hao & Hm' & Hui & Hcalls & Hfail & Hinter).
      exists (List.concat groups ++ g). split; [exact Hcalls|].
      apply Forall_app. split; [|exact (chained_params _ _ _ _ Hch)].
      apply Forall_concat, Forall_forall. intros g' Hin.
      destruct (@Forall2_in_r _ _ _ _ _ g' HF Hin) as (chunk' & _ & _ & Hch' & _).
      exact (chained_params _ _ _ _ Hch').
  - pose proof (@run_spec_no_pass input w P HP ltac:(lia)) as Hrun. cbv zeta in Hrun.
    exists []. rewrite app_nil_r. split; [|constructor].
    destruct (process_text_body generate ntokens input w) as [[] w'|e w'].
    + destruct Hrun as (_ & Hw'). rewrite Hw'. reflexivity.
    + destruct Hrun as (_ & _ & _ & _ & _ & _ & Hcalls). exact Hcalls.
Qed.

(** C5, as the code has it: when the generation client raises in a
    unit, the failing call is the last call of the run (nothing is
    retried), every call before it returned, the records of the
    chunks whose passes were all done are in
    [intermediate_outputs] (not those of the chunk being processed),
    [all_outputs] is left as it was before the run, and the message
    shown is the exception text after a fixed heading. *)
Theorem generation_failure_aborts input (w : App Model) m msg w1 :
  model w = Some m ->
  process_text_body generate ntokens input w = Raised (ModelError msg) w1 ->
  let st := settings w in
  let params := gen_params (fst (beam_parameters (strength st)))
                           (snd (beam_parameters (strength st))) in
  let chunks := split_into_chunks ntokens input in
  process_text generate ntokens repr input w
    = Ok tt (emit (UpdateOutput (lit "Error during processing:" ++ NL ++ msg) false) w1) /\
  all_outputs w1 = all_outputs w /\
  exists P done chunk rest groups oks c,
    effective_passes st = inr P /\
    chunks = done ++ chunk :: rest /\
    Forall2 (full_group st params (Z.to_nat P)) done groups /\
    calls w1 = calls w ++ List.concat groups ++ oks ++ [c] /\
    Forall returned oks /\ (List.length oks < Z.to_nat P)%nat /\
    chained st params chunk (oks ++ [c]) /\
    call_result c = inl msg /\
    intermediate_outputs w1 =
      intermediate_outputs w ++
        (if save_intermediate st then chunk_records st done groups else []).
Proof.
  intros Hm Hbody st params chunks.
  split; [rewrite process_text_unfold, Hbody; reflexivity|].
  destruct (effective_passes (settings w)) as [e|P] eqn:HP.
  { unfold process_text_body, bind, get, lift in Hbody. rewrite HP in Hbody.
    unfold effective_passes in HP.
    destruct (use_custom_passes (settings w)); [discriminate|].
    destruct (dict_get STRENGTH_PASSES (strength (settings w))); [discriminate|].
    injection HP as <-. discriminate. }
  destruct (Z_le_gt_dec 1 P) as [HP1|HP0].
  - pose proof (@run_spec input w m P Hm HP HP1) as Hrun. cbv zeta in Hrun.
    fold st chunks params in Hrun. rewrite Hbody in Hrun.
    destruct Hrun as (done & chunk & rest & groups & g & m' & Hchunks & HF & Hg & Hlen &
                      Hch & Hst & Hao & Hm' & Hui & Hcalls & Hfail & Hinter).
    split; [exact Hao|].
    destruct Hfail as [(msg' & oks & c & [= <-] & -> & Hc & Hoks)|]; [|discriminate].
    exists P, done, chunk, rest, groups, oks, c.
    split; [exact HP|]. split; [exact Hchunks|]. split; [exact HF|].
    split; [exact Hcalls|]. split; [exact Hoks|].
    split; [rewrite length_app in Hlen; cbn in Hlen; lia|].
    split; [exact Hch|]. split; [exact Hc|]. exact (Hinter msg eq_refl).
  - pose proof (@run_spec_no_pass input w P HP ltac:(lia)) as Hrun. cbv zeta in Hrun.
    rewrite Hbody in Hrun. destruct Hrun as (_ & He & _). discriminate.
Qed.

(** *** Every recorded call is a call of the generation client *)

Lemma for_each_world_inv {A S : Type} (I : App Model -> Prop)
      (body : A -> S -> Run Model S) :
  (forall x s w, I w -> I (world_of (body x s w))) ->
  forall l s w, I w -> I (world_of (for_each l body s w)).
Proof.
  intros Hbody. induction l as [|x l IH]; intros s w Hw; [exact Hw|].
  rewrite for_each_cons. specialize (Hbody x s w Hw).
  destruct (body x s w) as [s' w'|e w']; [apply IH|]; exact Hbody.
Qed.

Lemma new_calls_genuine_refl (w : App Model) : new_calls_genuine generate w w.
Proof. exists []. split; [now rewrite app_nil_r | constructor]. Qed.

Lemma pass_body_genuine w0 P params T k loc (w : App Model) :
  new_calls_genuine generate w0 w ->
  new_calls_genuine generate w0 (world_of (pass_body generate P params T k loc w)).
Proof.
  intros (new & Hnew & Hall).
  unfold pass_body, bind, schedule, modify, call_model, get, ret, raise.
  cbn [model emit].
  destruct (model w) as [m|]; [|exists new; auto].
  destruct (generate m (PREFIX ++ processed_chunk loc) params) as [m' r] eqn:Hgen.
  assert (Hstep : new_calls_genuine generate w0
            (called m' (mkCall (PREFIX ++ processed_chunk loc) params r)
                    (emit (UpdateProgress (chunk_counter loc) T
                             (lit "Processing chunk " ++ str_of_int (chunk_counter loc + 1)
                              ++ lit "/" ++ str_of_int T)) w))).
  { exists (new ++ [mkCall (PREFIX ++ processed_chunk loc) params r]). split.
    - cbn [called calls emit]. rewrite Hnew, app_assoc. reflexivity.
    - apply Forall_app. split; [exact Hall|]. constructor; [|constructor].
      exists m. cbn [call_result call_text call_params]. now rewrite Hgen. }
  destruct r as [msg|decoded]; [exact Hstep|].
  cbn [settings called emit].
  destruct (save_intermediate (settings w)); [destruct (chunk_data loc)|];
    cbn [world_of]; try exact Hstep;
    destruct (k <? P - 1)%Z; cbn [world_of]; try exact Hstep;
    destruct (List.map (humanize_output (settings w)) decoded); exact Hstep.
Qed.

Lemma chunk_body_genuine w0 P params T ic loc (w : App Model) :
  new_calls_genuine generate w0 w ->
  new_calls_genuine generate w0 (world_of (chunk_body generate P params T ic loc w)).
Proof.
  intros Hw. unfold chunk_body, bind, get.
  match goal with
  | |- context [for_each ?l ?b ?s w] =>
      pose proof (for_each_world_inv (new_calls_genuine generate w0) b
                    (fun k loc' w' => @pass_body_genuine w0 P params T k loc' w')
                    l s w Hw) as Hloop;
      destruct (for_each l b s w) as [loc1 w1|e w1]
  end; [|exact Hloop].
  cbn [world_of] in Hloop.
  destruct (save_intermediate (settings w1)).
  - destruct (chunk_data loc1); [|exact Hloop].
    unfold modify. destruct (paraphrases loc1); [|exact Hloop].
    unfold lift, ret. destruct append_versions; exact Hloop.
  - unfold ret. destruct (paraphrases loc1); [|exact Hloop].
    unfold lift. destruct append_versions; exact Hloop.
Qed.

Lemma process_text_body_genuine input (w : App Model) :
  new_calls_genuine generate w (world_of (process_text_body generate ntokens input w)).
Proof.
  unfold process_text_body, bind, get, lift.
  destruct (effective_passes (settings w)) as [e|P]; [apply new_calls_genuine_refl|].
  destruct (beam_parameters (strength (settings w))) as [nb rp].
  unfold schedule, modify.
  match goal with
  | |- context [for_each ?l ?b ?s ?w0] =>
      pose proof (for_each_world_inv (new_calls_genuine generate w) b
                    (fun ic loc' w' => @chunk_body_genuine w P (gen_params nb rp) _ ic loc' w')
                    l s w0 (new_calls_genuine_refl w)) as Hloop;
      destruct (for_each l b s w0) as [loc1 w1|e w1]
  end; [|exact Hloop].
  cbn [world_of] in Hloop.
  cbn [all_outputs set_all_outputs emit].
  destruct (List.map (join (lit " ")) (all_versions loc1)); exact Hloop.
Qed.

Lemma final_record_length st g :
  returns_four generate ->
  g <> [] -> Forall returned g -> Forall (genuine generate) g ->
  List.length (final_record st g) = 4%nat.
Proof.
  intros H4 Hg Hret Hgen. unfold final_record.
  destruct (rev g) as [|c l] eqn:Hrev.
  { apply (f_equal (@rev _)) in Hrev. rewrite rev_involutive in Hrev. now destruct Hg. }
  assert (Hin : In c g) by (apply in_rev; rewrite Hrev; now left).
  destruct (proj1 (Forall_forall _ _) Hret c Hin) as [decoded Hd].
  destruct (proj1 (Forall_forall _ _) Hgen c Hin) as [m Hm].
  unfold pass_record. rewrite Hd, length_map.
  apply (H4 m (call_text c) (call_params c)). now rewrite <- Hm.
Qed.

(** C8: a successful run leaves exactly four versions in
    [all_outputs]; version [v] is the final-pass, post-processed
    candidate [v] of every chunk, in chunk order, joined with one
    space. *)
Theorem versions_join_final_candidates input (w : App Model) m w' :
  model w = Some m ->
  returns_four generate ->
  process_text_body generate ntokens input w = Ok tt w' ->
  let st := settings w in
  let params := gen_params (fst (beam_parameters (strength st)))
                           (snd (beam_parameters (strength st))) in
  let chunks := split_into_chunks ntokens input in
  exists P groups,
    effective_passes st = inr P /\
    Forall2 (full_group st params (Z.to_nat P)) chunks groups /\
    calls w' = calls w ++ List.concat groups /\
    let finals := List.map (final_record st) groups in
    Forall (fun f => List.length f = 4%nat) finals /\
    all_outputs w' =
      [join (lit " ") (column 0 finals); join (lit " ") (column 1 finals);
       join (lit " ") (column 2 finals); join (lit " ") (column 3 finals)].
Proof.
  intros Hm H4 Hbody st params chunks.
  destruct (effective_passes (settings w)) as [e|P] eqn:HP.
  { unfold process_text_body, bind, get, lift in Hbody. rewrite HP in Hbody.
    discriminate. }
  exists P.
  destruct (Z_le_gt_dec 1 P) as [HP1|HP0].
  - pose proof (@run_spec input w m P Hm HP HP1) as Hrun. cbv zeta in Hrun.
    fold st chunks params in Hrun.
    pose proof (process_text_body_genuine input w) as (new & Hnew & Hgen).
    rewrite Hbody in Hrun, Hnew. cbn [world_of] in Hnew.
    destruct Hrun as (groups & m' & versions & first & HF & Hg & Hfirst & Hw').
    exists groups. split; [exact HP|]. split; [exact HF|].
    assert (Hcalls : calls w' = calls w ++ List.concat groups) by (rewrite Hw'; reflexivity).
    split; [exact Hcalls|].
    rewrite Hcalls in Hnew. apply app_inv_head in Hnew. subst new.
    assert (Hfinals : Forall (fun f => List.length f = 4%nat)
                             (List.map (final_record st) groups)).
    { apply Forall_map, Forall_forall. intros g Hin.
      destruct (@Forall2_in_r _ _ _ _ _ g HF Hin) as (chunk & _ & Hl & _ & Hret).
      apply final_record_length; auto.
      - destruct g; [cbn in Hl; lia | discriminate].
      - rewrite Forall_concat in Hgen.
        exact (proj1 (Forall_forall _ _) Hgen g Hin). }
    split; [exact Hfinals|].
    rewrite (gather_four Hfinals) in Hg. injection Hg as <-.
    rewrite Hw'. reflexivity.
  - pose proof (@run_spec_no_pass input w P HP ltac:(lia)) as Hrun. cbv zeta in Hrun.
    fold chunks in Hrun. rewrite Hbody in Hrun. destruct Hrun as (Hchunks & Hw').
    exists []. split; [exact HP|]. split; [rewrite Hchunks; constructor|].
    split; [rewrite Hw'; cbn; now rewrite app_nil_r|].
    split; [constructor|]. rewrite Hw'. reflexivity.
Qed.

(** C10: with settings reachable from the defaults through the
    handlers, the pass count of a run is at least 1; so a run that
    completes has made [passes >= 1] calls, all returned, for every
    chunk (the four version lists are filled from defined
    candidates and there are exactly four outputs), and a run that
    raises never does so on an unbound local variable. *)
Theorem every_run_has_a_pass isdigit int_of input (w : App Model) m :
  reachable isdigit int_of (settings w) ->
  model w = Some m ->
  let chunks := split_into_chunks ntokens input in
  exists P,
    effective_passes (settings w) = inr P /\ (1 <= P)%Z /\
    match process_text_body generate ntokens input w with
    | Ok _ w' =>
        exists groups,
          calls w' = calls w ++ List.concat groups /\
          Forall2 (fun (chunk : str) g =>
                     List.length g = Z.to_nat P /\ g <> [] /\ Forall returned g)
                  chunks groups /\
          List.length (all_outputs w') = 4%nat
    | Raised e w' => forall name, e <> UnboundLocalError name
    end.
Proof.
  intros Hreach Hm chunks.
  destruct (valid_effective_passes (reachable_valid Hreach)) as (P & HP & HP1).
  exists P. split; [exact HP|]. split; [exact HP1|].
  pose proof (@run_spec input w m P Hm HP HP1) as Hrun. cbv zeta in Hrun.
  fold chunks in Hrun.
  destruct (process_text_body generate ntokens input w) as [[] w'|e w'].
  - destruct Hrun as (groups & m' & versions & first & HF & Hg & Hfirst & Hw').
    exists groups. split; [rewrite Hw'; reflexivity|]. split.
    + eapply Forall2_impl; [|exact HF]. intros chunk g (Hl & _ & Hret).
      split; [exact Hl|]. split; [|exact Hret].
      destruct g; [cbn in Hl; lia | discriminate].
    + rewrite Hw'. cbn [all_outputs]. rewrite length_map.
      exact (gather_length _ _ Hg).
  - destruct Hrun as (done & chunk & rest & groups & g & m' & Hchunks & HF & Hg & Hlen &
                      Hch & Hst & Hao & Hm' & Hui & Hcalls & Hfail & Hinter).
    intros name.
    destruct Hfail as [(msg & oks & c & -> & _)| ->]; discriminate.
Qed.

End RunProperties.

(* ----------------------------------------------------------------- *)
(** ** Export *)

Lemma map_injective {A B : Type} (f : A -> B) :
  (forall x y, f x = f y -> x = y) ->
  forall l1 l2, List.map f l1 = List.map f l2 -> l1 = l2.
Proof.
  intros Hf. induction l1 as [|x l1 IH]; intros [|y l2]; cbn; try discriminate.
  - reflexivity.
  - intros [= Hxy Hl]. f_equal; auto.
Qed.

Lemma JStr_list_injective l1 l2 :
  JList (List.map JStr l1) = JList (List.map JStr l2) -> l1 = l2.
Proof.
  intros [= H]. revert H. apply map_injective. now intros x y [=].
Qed.

Lemma settings_json_injective s1 s2 :
  settings_json s1 = settings_json s2 -> s1 = s2.
Proof.
  destruct s1, s2. unfold settings_json. cbn. intros [=]. congruence.
Qed.

Lemma chunk_data_json_injective c1 c2 :
  chunk_data_json c1 = chunk_data_json c2 -> c1 = c2.
Proof.
  destruct c1 as [o1 outs1], c2 as [o2 outs2]. unfold chunk_data_json. cbn.
  intros [= Ho Houts]. f_equal; [exact Ho|].
  revert Houts. apply map_injective. intros x y. apply JStr_list_injective.
Qed.

Lemma map_enumerate_congr {A B C : Type} (key : A -> B) (g : Z * A -> C) :
  (forall i x y, key x = key y -> g (i, x) = g (i, y)) ->
  forall l1 l2,
    List.map key l1 = List.map key l2 ->
    List.map g (enumerate l1) = List.map g (enumerate l2).
Proof.
  intros Hg l1 l2 H. unfold enumerate. generalize 0%nat. revert l2 H.
  induction l1 as [|x l1 IH]; intros [|y l2] H a;
    cbn [List.map List.length seq combine] in *; try discriminate; [reflexivity|].
  injection H as Hxy Hl. f_equal; [now apply Hg | now apply IH].
Qed.

Lemma txt_candidates_congr o1 o2 :
  List.map (firstn TRUNCATE) o1 = List.map (firstn TRUNCATE) o2 ->
  List.map txt_candidate (enumerate o1) = List.map txt_candidate (enumerate o2).
Proof.
  apply map_enumerate_congr. intros i x y H.
  unfold txt_candidate. cbn [fst snd]. now rewrite H.
Qed.

Lemma txt_passes_congr outs1 outs2 :
  List.map (List.map (firstn TRUNCATE)) outs1 = List.map (List.map (firstn TRUNCATE)) outs2 ->
  List.map txt_pass (enumerate outs1) = List.map txt_pass (enumerate outs2).
Proof.
  apply map_enumerate_congr. intros i x y H.
  unfold txt_pass. cbn [fst snd].
  exact (f_equal (fun t => NL ++ Py.lit "  Pass " ++ Py.str_of_int (i + 1)
                              ++ Py.lit ":" ++ NL ++ List.concat t)
                 (txt_candidates_congr _ _ H)).
Qed.

Lemma txt_chunks_congr (l1 l2 : list ChunkData) :
  List.map (fun cd => List.map (List.map (firstn TRUNCATE)) (outputs cd)) l1
  = List.map (fun cd => List.map (List.map (firstn TRUNCATE)) (outputs cd)) l2 ->
  List.map txt_chunk (enumerate l1) = List.map txt_chunk (enumerate l2).
Proof.
  apply (map_enumerate_congr
           (fun cd => List.map (List.map (firstn TRUNCATE)) (outputs cd))).
  intros i x y H.
  unfold txt_chunk. cbn [fst snd].
  exact (f_equal (fun t => Py.lit "CHUNK " ++ Py.str_of_int (i + 1) ++ Py.lit ":" ++ NL
                              ++ Py.times "-" 30 ++ NL ++ List.concat t ++ NL)
                 (txt_passes_congr _ _ H)).
Qed.

(** The element number [i] of a list, in its enumeration and in what
    is written for it. *)
Lemma enumerate_nth {A : Type} (l : list A) i x :
  nth_error l i = Some x ->
  exists l1 l2, enumerate l = l1 ++ (Z.of_nat i, x) :: l2.
Proof.
  unfold enumerate. change i with (0 + i)%nat at 2. generalize 0%nat. revert i.
  induction l as [|y l IH]; intros [|i] a H; cbn [nth_error] in H; try discriminate.
  - injection H as ->. exists [], (combine (List.map Z.of_nat (seq (S a) (List.length l))) l).
    rewrite Nat.add_0_r. reflexivity.
  - destruct (IH i (S a) H) as (l1 & l2 & E).
    exists ((Z.of_nat a, y) :: l1), l2.
    cbn [List.length seq List.map combine app]. rewrite E.
    now replace (S a + i)%nat with (a + S i)%nat by lia.
Qed.

Lemma written_nth {A : Type} (f : Z * A -> Py.str) (l : list A) i x :
  nth_error l i = Some x ->
  exists before after,
    List.concat (List.map f (enumerate l)) = before ++ f (Z.of_nat i, x) ++ after.
Proof.
  intros H. destruct (enumerate_nth l i H) as (l1 & l2 & E).
  exists (List.concat (List.map f l1)), (List.concat (List.map f l2)).
  rewrite E, map_app, concat_app. reflexivity.
Qed.

Section ExportProperties.
Variable Model : Type.

(** C9, as the code has it: the structured export determines, and is
    determined by, the timestamp, the complete settings, the
    intermediate outputs (originals and untruncated candidates) and
    the final outputs; the text report is determined by the timestamp
    and by what [txt_view] keeps (four settings, the first 100
    characters of each candidate, the final outputs), so applications
    with equal structured exports have equal text reports.  And the
    text report shows all of that, in a fixed order: the heading with
    the timestamp; the four settings, each on its line; under the
    heading of the intermediate outputs, for every chunk its block,
    which starts with the chunk's number and holds for every pass its
    block, which starts with the pass's number and holds for every
    candidate a line with its number and its first 100 characters;
    and, under the heading of the final outputs, every final version
    in full after its number. *)
Theorem exports_content (ts1 ts2 : Py.str) (w1 w2 : App Model) :
  (export_json ts1 w1 = export_json ts2 w2 <->
   ts1 = ts2 /\ settings w1 = settings w2 /\
   intermediate_outputs w1 = intermediate_outputs w2 /\
   all_outputs w1 = all_outputs w2) /\
  (ts1 = ts2 -> txt_view w1 = txt_view w2 -> export_txt ts1 w1 = export_txt ts2 w2) /\
  (export_json ts1 w1 = export_json ts2 w2 -> export_txt ts1 w1 = export_txt ts2 w2) /\
  (exists chunks_part finals_part : Py.str,
      export_txt ts1 w1
      = Py.lit "Intermediate Outputs - " ++ ts1 ++ NL
        ++ Py.times "=" 50 ++ NL ++ NL
        ++ Py.lit "SETTINGS:" ++ NL
        ++ Py.lit "  Strength: " ++ strength (settings w1) ++ NL
        ++ Py.lit "  Custom Passes: " ++ Py.str_of_int (custom_passes (settings w1)) ++ NL
        ++ Py.lit "  Use Custom Passes: "
        ++ Py.str_of_bool (use_custom_passes (settings w1)) ++ NL
        ++ Py.lit "  Remove Dashes: " ++ Py.str_of_bool (remove_dashes (settings w1))
        ++ NL ++ NL
        ++ Py.lit "INTERMEDIATE OUTPUTS:" ++ NL
        ++ Py.times "=" 50 ++ NL ++ NL
        ++ chunks_part
        ++ NL ++ Py.lit "FINAL OUTPUTS:" ++ NL
        ++ Py.times "=" 50 ++ NL ++ NL
        ++ finals_part /\
      (forall i cd p outs j out,
          nth_error (intermediate_outputs w1) i = Some cd ->
          nth_error (outputs cd) p = Some outs ->
          nth_error outs j = Some out ->
          (exists before after,
              chunks_part = before ++ txt_chunk (Z.of_nat i, cd) ++ after) /\
          (exists before after,
              txt_chunk (Z.of_nat i, cd)
              = (Py.lit "CHUNK " ++ Py.str_of_int (Z.of_nat i + 1) ++ Py.lit ":" ++ NL
                 ++ Py.times "-" 30 ++ NL)
                ++ before ++ txt_pass (Z.of_nat p, outs) ++ after) /\
          (exists before after,
              txt_pass (Z.of_nat p, outs)
              = (NL ++ Py.lit "  Pass " ++ Py.str_of_int (Z.of_nat p + 1) ++ Py.lit ":" ++ NL)
                ++ before
                ++ (Py.lit "    Version " ++ Py.str_of_int (Z.of_nat j + 1) ++ Py.lit ": "
                    ++ firstn 100 out ++ Py.lit "..." ++ NL)
                ++ after)) /\
      (forall i out,
          nth_error (all_outputs w1) i = Some out ->
          exists before after,
            finals_part
            = before
              ++ (Py.lit "Version " ++ Py.str_of_int (Z.of_nat i + 1) ++ Py.lit ":" ++ NL
                  ++ Py.times "-" 30 ++ NL ++ out ++ NL ++ NL)
              ++ after)).
Proof.
  assert (Hjson : export_json ts1 w1 = export_json ts2 w2 ->
                  ts1 = ts2 /\ settings w1 = settings w2 /\
                  intermediate_outputs w1 = intermediate_outputs w2 /\
                  all_outputs w1 = all_outputs w2).
  { unfold export_json. intros [= Hts Hcp Hrd Huc Hstr Hsi Hif Hhp Hhi Hi Ho].
    split; [exact Hts|].
    split; [destruct (settings w1), (settings w2); cbn in *; congruence|].
    split.
    - revert Hi. apply map_injective. apply chunk_data_json_injective.
    - revert Ho. apply map_injective. now intros x y [=]. }
  assert (Htxt : ts1 = ts2 -> txt_view w1 = txt_view w2 ->
                 export_txt ts1 w1 = export_txt ts2 w2).
  { intros -> Hview. unfold txt_view in Hview.
    injection Hview as Hst Hcp Huc Hrd Hcand Hfinal.
    unfold export_txt, txt_settings.
    rewrite Hst, Hcp, Huc, Hrd, Hfinal.
    pose proof (txt_chunks_congr _ _ Hcand) as E.
    unfold Py.str in *. rewrite E. reflexivity. }
  split; [split; [exact Hjson|]|split; [exact Htxt|split]].
  - intros (-> & Hs & Hi & Ho). unfold export_json. now rewrite Hs, Hi, Ho.
  - intros H. destruct (Hjson H) as (Hts & Hs & Hi & Ho).
    apply Htxt; [exact Hts|]. unfold txt_view. now rewrite Hs, Hi, Ho.
  - exists (List.concat (List.map txt_chunk (enumerate (intermediate_outputs w1)))),
           (List.concat (List.map txt_final (enumerate (all_outputs w1)))).
    split; [|split].
    + unfold export_txt, txt_settings. rewrite <- !app_assoc. reflexivity.
    + intros i cd p outs j out Hi Hp Hj. split; [|split].
      * exact (written_nth txt_chunk _ i Hi).
      * destruct (written_nth txt_pass _ p Hp) as (before & after & E).
        exists before, (after ++ NL). unfold txt_chunk at 1. cbn [fst snd].
        unfold Py.str, Py.char in *. rewrite E, <- !app_assoc. reflexivity.
      * destruct (written_nth txt_candidate _ j Hj) as (before & after & E).
        exists before, after. unfold txt_pass at 1. cbn [fst snd].
        unfold Py.str, Py.char in *. rewrite E. unfold txt_candidate. cbn [fst snd].
        rewrite <- !app_assoc. reflexivity.
    + intros i out Hi. destruct (written_nth txt_final _ i Hi) as (before & after & E).
      exists before, after. rewrite E. unfold txt_final. cbn [fst snd].
      rewrite <- !app_assoc. reflexivity.
Qed.

End ExportProperties.

(** C9 fails as stated: two applications whose settings differ have
    the same text report, character for character, while their
    structured exports differ. *)
Lemma text_report_hides_settings :
  settings REPORT_APP <> settings REPORT_APP' /\
  export_txt (Py.lit "20240101_120000") REPORT_APP
    = export_txt (Py.lit "20240101_120000") REPORT_APP' /\
  export_json (Py.lit "20240101_120000") REPORT_APP
    <> export_json (Py.lit "20240101_120000") REPORT_APP'.
Proof.
  split; [discriminate|]. split; [reflexivity|]. discriminate.
Qed.

(** The four ways [save_intermediate_outputs] ends, and the box it
    shows in each. *)
Example save_intermediate_outputs_example :
  let ts := Py.lit "20240101_120000" in
  let name := Py.lit "out.json" in
  save_intermediate_outputs ts name None (set_intermediate_outputs [] REPORT_APP)
  = NoData /\
  save_intermediate_outputs ts [] None REPORT_APP = Cancelled /\
  save_intermediate_outputs ts name None REPORT_APP
  = Saved name (JsonFile (export_json ts REPORT_APP)) /\
  save_message (save_intermediate_outputs ts name None REPORT_APP)
  = Some (Py.lit "Success", Py.lit "Intermediate outputs saved to:" ++ NL ++ name) /\
  save_message (save_intermediate_outputs ts name (Some (Py.lit "disk full"))
                                          REPORT_APP)
  = Some (Py.lit "Error", Py.lit "Failed to save file:" ++ NL ++ Py.lit "disk full").
Proof. vm_compute. repeat split; reflexivity. Qed.

(* ----------------------------------------------------------------- *)
(** ** The theorems at work on small runs *)

Lemma mock_returns_four fail_at : returns_four (mock_generate fail_at).
Proof.
  intros m text params decoded. unfold mock_generate. cbn [snd].
  destruct (Nat.eqb m fail_at); [discriminate|]. intros [= <-]. reflexivity.
Qed.

Lemma two_passes_reachable : reachable ascii_isdigit ascii_int TWO_PASSES.
Proof.
  exact (reach_perform (EditPasses (Py.lit "2"))
           (reach_perform (ToggleCustomPasses true)
              (reach_default ascii_isdigit ascii_int) I) I).
Qed.



(** The progress values of that run: 0, then 0 1 2 3, then 4. *)
Example progress_values_example :
  progress_values
    (ui (world_of (process_text (mock_generate 99) flat_tokens ascii_repr TWO_SENTENCES
                                (loaded_app TWO_PASSES))))
  = [0; 0; 1; 2; 3; 4]%Z.
Proof. vm_compute. reflexivity. Qed.

(** The third call raises: the first chunk is done, the second is not. *)
Lemma generation_failure_aborts_witness :
  model (loaded_app TWO_PASSES) = Some 0%nat /\
  all_outputs (world_of (process_text_body (mock_generate 2) flat_tokens TWO_SENTENCES
                                           (loaded_app TWO_PASSES))) = [].
Proof.
  split; [reflexivity|].
  assert (Hbody : process_text_body (mock_generate 2) flat_tokens TWO_SENTENCES
                                    (loaded_app TWO_PASSES)
                  = Raised (ModelError (Py.lit "out of memory"))
                           (world_of (process_text_body (mock_generate 2) flat_tokens
                                        TWO_SENTENCES (loaded_app TWO_PASSES))))
    by (vm_compute; reflexivity).
  exact (proj1 (proj2 (@generation_failure_aborts nat (mock_generate 2) flat_tokens ascii_repr
                         TWO_SENTENCES (loaded_app TWO_PASSES) 0%nat _ _
                         eq_refl Hbody))).
Defined.

Example failure_keeps_finished_chunks :
  let w' := humanize_text (mock_generate 2) flat_tokens ascii_repr TWO_SENTENCES
                          (loaded_app TWO_PASSES) in
  List.map original (intermediate_outputs w') = [Py.lit "Hello there."] /\
  List.length (calls w') = 3%nat /\
  progress_values (ui w') = [0; 0; 1; 2]%Z /\
  last (ui w') BeginProcessing
  = UpdateOutput (Py.lit "Error during processing:" ++ NL ++ Py.lit "out of memory") false.
Proof. vm_compute. repeat split; reflexivity. Qed.

(** C5 fails as stated: one chunk, five passes, the second unit
    raises.  The first unit was completed and its candidates
    recorded, intermediate saving is on, and yet nothing of it is in
    [intermediate_outputs] after the run. *)
Lemma failure_drops_current_chunk_records :
  save_intermediate (settings INTERRUPTED_RUN) = true /\
  List.map call_result (calls INTERRUPTED_RUN)
  = [inr [Py.lit "Hello there. (a)"; Py.lit "Hello there. (b)";
          Py.lit "Hello there. (c)"; Py.lit "Hello there. (d)"];
     inl (Py.lit "out of memory")] /\
  progress_totals (ui INTERRUPTED_RUN) = [5; 5; 5]%Z /\
  progress_values (ui INTERRUPTED_RUN) = [0; 0; 1]%Z /\
  intermediate_outputs INTERRUPTED_RUN = [].
Proof. vm_compute. repeat split; reflexivity. Qed.

(** A failed run leaves the outputs of the run before it in place. *)
Example failure_keeps_previous_outputs :
  let w1 := humanize_text (mock_generate 99) flat_tokens ascii_repr ONE_SENTENCE
                          (loaded_app default_settings) in
  let w2 := humanize_text (mock_generate 1) flat_tokens ascii_repr ONE_SENTENCE w1 in
  all_outputs w1 = [Py.lit "Hello there. (a)"; Py.lit "Hello there. (b)";
                    Py.lit "Hello there. (c)"; Py.lit "Hello there. (d)"] /\
  all_outputs w2 = all_outputs w1 /\
  intermediate_outputs w2 = [].
Proof. vm_compute. repeat split; reflexivity. Qed.

Lemma packed_chunks_within_budget_witness :
  In (Packed [Py.lit "Hello there."; Py.lit "How are you?"])
     (chunk_origins word_tokens TWO_SENTENCES) /\
  (packed_tokens word_tokens [Py.lit "Hello there."; Py.lit "How are you?"] <= BUDGET)%nat.
Proof.
  assert (Hin : In (Packed [Py.lit "Hello there."; Py.lit "How are you?"])
                   (chunk_origins word_tokens TWO_SENTENCES))
    by (vm_compute; left; reflexivity).
  split; [exact Hin|].
  exact (proj1 (proj2 (proj2 (@packed_chunks_within_budget word_tokens TWO_SENTENCES _ Hin)))).
Defined.

Lemma versions_join_final_candidates_witness :
  model (loaded_app TWO_PASSES) = Some 0%nat /\
  returns_four (mock_generate 99) /\
  exists (P : Z) (groups : list (list Call)),
    effective_passes TWO_PASSES = inr P /\
    List.length groups = 2%nat /\
    List.length (all_outputs
                   (world_of (process_text_body (mock_generate 99) flat_tokens
                                TWO_SENTENCES (loaded_app TWO_PASSES)))) = 4%nat.
Proof.
  split; [reflexivity|]. split; [apply mock_returns_four|].
  assert (Hbody : process_text_body (mock_generate 99) flat_tokens TWO_SENTENCES
                                    (loaded_app TWO_PASSES)
                  = Ok tt (world_of (process_text_body (mock_generate 99) flat_tokens
                                       TWO_SENTENCES (loaded_app TWO_PASSES))))
    by (vm_compute; reflexivity).
  destruct (@versions_join_final_candidates nat (mock_generate 99) flat_tokens
              TWO_SENTENCES (loaded_app TWO_PASSES) 0%nat _ eq_refl
              (mock_returns_four 99) Hbody)
    as (P & groups & HP & HF & _ & _ & Hout).
  exists P, groups. split; [exact HP|]. split.
  - symmetry. exact (Forall2_length HF).
  - rewrite Hout. reflexivity.
Defined.

Example versions_example :
  all_outputs (humanize_text (mock_generate 99) flat_tokens ascii_repr TWO_SENTENCES
                             (loaded_app default_settings))
  = [Py.lit "Hello there. (a) How are you? (a)";
     Py.lit "Hello there. (b) How are you? (b)";
     Py.lit "Hello there. (c) How are you? (c)";
     Py.lit "Hello there. (d) How are you? (d)"].
Proof. vm_compute. reflexivity. Qed.

Lemma every_run_has_a_pass_witness :
  reachable ascii_isdigit ascii_int (settings (loaded_app TWO_PASSES)) /\
  exists P, effective_passes TWO_PASSES = inr P /\ (1 <= P)%Z.
Proof.
  split; [exact two_passes_reachable|].
  destruct (@every_run_has_a_pass nat (mock_generate 99) flat_tokens
              ascii_isdigit ascii_int TWO_SENTENCES (loaded_app TWO_PASSES) 0%nat
              two_passes_reachable eq_refl)
    as (P & HP & HP1 & _).
  exists P. split; [exact HP | exact HP1].
Defined.

Lemma exports_content_witness :
  txt_view REPORT_APP = txt_view REPORT_APP' /\
  export_txt (Py.lit "20240101_120000") REPORT_APP
  = export_txt (Py.lit "20240101_120000") REPORT_APP'.
Proof.
  split; [reflexivity|].
  exact (proj1 (proj2 (exports_content (Py.lit "20240101_120000") (Py.lit "20240101_120000")
                                        REPORT_APP REPORT_APP')) eq_refl eq_refl).
Defined.

(* ================================================================= *)
(** * Further properties of the post-processor *)

Section Substitution.
Import Py Re.

(** One step of [re.sub] for a pattern without lookbehind. *)
Lemma sub_cons r repl x s :
  lookbehind r = None ->
  sub r repl (x :: s) =
  match match_atoms (atoms r) (x :: s) with
  | Some (_ :: _, rest) => repl ++ sub r repl rest
  | _ => x :: sub r repl s
  end.
Proof.
  intros Hr. unfold sub. cbn [sub_scan]. unfold match_at. rewrite Hr.
  destruct (match_atoms (atoms r) (x :: s)) as [[[|y m] rest]|] eqn:E.
  - f_equal. now apply sub_scan_prev.
  - apply match_atoms_split in E. cbn [app] in E. injection E as _ ->.
    f_equal. now apply sub_scan_skip.
  - f_equal. now apply sub_scan_prev.
Qed.

(** Reasoning about [re.sub]: a character is copied when no match
    starts at it, and a match is replaced as a whole. *)
Lemma sub_induction (P : str -> str -> Prop) r repl :
  lookbehind r = None ->
  P [] [] ->
  (forall x s out,
      (forall y m rest, match_atoms (atoms r) (x :: s) <> Some (y :: m, rest)) ->
      P s out -> P (x :: s) (x :: out)) ->
  (forall y m rest out,
      match_atoms (atoms r) (y :: m ++ rest) = Some (y :: m, rest) ->
      P rest out -> P (y :: m ++ rest) (repl ++ out)) ->
  forall s, P s (sub r repl s).
Proof.
  intros Hr Hnil Hkeep Hrepl s.
  remember (List.length s) as n eqn:Hn. revert s Hn.
  induction n as [n IH] using lt_wf_ind. intros [|x s] Hn.
  - exact Hnil.
  - rewrite (@sub_cons r repl x s Hr). cbn [List.length] in Hn.
    destruct (match_atoms (atoms r) (x :: s)) as [[[|y m] rest]|] eqn:E.
    + apply Hkeep; [congruence|]. apply (IH (List.length s)); [lia | reflexivity].
    + pose proof (@match_atoms_split _ _ _ _ E) as Hs. cbn [app] in Hs.
      injection Hs as -> ->. apply Hrepl; [exact E|].
      apply (IH (List.length rest)); [|reflexivity].
      rewrite length_app in Hn. lia.
    + apply Hkeep; [congruence|]. apply (IH (List.length s)); [lia | reflexivity].
Qed.

(** The characters of the result come from the subject or from the
    replacement. *)
Lemma sub_members r repl :
  lookbehind r = None ->
  forall s x, In x (sub r repl s) -> In x s \/ In x repl.
Proof.
  intros Hr s.
  apply (@sub_induction (fun s out => forall x, In x out -> In x s \/ In x repl) r repl Hr).
  - intros x [].
  - intros x0 s0 out _ IH x [<-|Hin]; [left; now left|].
    destruct (IH x Hin); [left; now right | now right].
  - intros y m rest out _ IH x Hin. apply in_app_or in Hin.
    destruct Hin as [Hin|Hin]; [now right|].
    destruct (IH x Hin) as [H|H]; [left | now right].
    right. apply in_or_app. now right.
Qed.

(** A substitution keeps the characters selected by [keep], in
    order, when every match holds the same selected characters as
    the replacement. *)
Lemma sub_filter (keep : char -> bool) r repl :
  lookbehind r = None ->
  (forall s m rest, match_atoms (atoms r) s = Some (m, rest) ->
                    filter keep m = filter keep repl) ->
  forall s, filter keep (sub r repl s) = filter keep s.
Proof.
  intros Hr Hm s.
  apply (@sub_induction (fun s out => filter keep out = filter keep s) r repl Hr).
  - reflexivity.
  - intros x s0 out _ IH. cbn [filter]. now rewrite IH.
  - intros y m rest out E IH.
    change (y :: m ++ rest) with ((y :: m) ++ rest).
    rewrite !filter_app, IH. f_equal. symmetry. exact (Hm _ _ _ E).
Qed.

(** A class [c] all of whose characters start a match, and that the
    replacement avoids, is absent from the result. *)
Lemma sub_clears (c : char -> bool) r repl :
  lookbehind r = None ->
  (forall x, In x repl -> c x = false) ->
  (forall x s, c x = true ->
               exists y m rest, match_atoms (atoms r) (x :: s) = Some (y :: m, rest)) ->
  forall s x, In x (sub r repl s) -> c x = false.
Proof.
  intros Hr Hrepl Hc s.
  apply (@sub_induction (fun s out => forall x, In x out -> c x = false) r repl Hr).
  - intros x [].
  - intros x0 s0 out Hno IH x [<-|Hin]; [|now apply IH].
    destruct (c x0) eqn:E; [|reflexivity].
    destruct (Hc x0 s0 E) as (y & m & rest & Hmatch). now destruct (Hno y m rest).
  - intros y m rest out _ IH x Hin. apply in_app_or in Hin.
    destruct Hin as [Hin|Hin]; [now apply Hrepl | now apply IH].
Qed.

(** A one-character pattern whose class does not occur changes nothing. *)
Lemma sub_absent (c : char -> bool) repl s :
  (forall x, In x s -> c x = false) -> sub (pat [One c]) repl s = s.
Proof.
  induction s as [|x s IH]; intros Hs; [reflexivity|].
  rewrite sub_cons by reflexivity. cbn [atoms pat match_atoms].
  rewrite (Hs x (or_introl eq_refl)). f_equal. apply IH.
  intros y Hy. apply Hs. now right.
Qed.

(** What a greedy repetition followed by [k] matched: a run of the
    class, then a match of [k]. *)
Lemma star_inv c k s m r :
  star c k s = Some (m, r) ->
  exists m1 m2 s', s = m1 ++ s' /\ m = m1 ++ m2 /\
                   Forall (fun x => c x = true) m1 /\ k s' = Some (m2, r).
Proof.
  revert m r. induction s as [|x s IH]; intros m r; cbn [star].
  - intros H. exists [], m, []. auto.
  - destruct (c x) eqn:Hx; [|intros H; exists [], m, (x :: s); auto].
    destruct (star c k s) as [[m' r']|] eqn:E; cbn [consumed].
    + intros [= <- <-]. destruct (IH _ _ eq_refl) as (m1 & m2 & s' & -> & -> & Hall & Hk).
      exists (x :: m1), m2, s'. repeat split; auto.
    + intros H. exists [], m, (x :: s). auto.
Qed.

(** Every character of a match belongs to the class of one of the
    atoms of the pattern. *)
Lemma match_atoms_classes p :
  forall s m r, match_atoms p s = Some (m, r) ->
                Forall (fun x => exists a, In a p /\ class_of a x = true) m.
Proof.
  induction p as [|a p IH]; intros s m r; cbn [match_atoms].
  - intros [= <- <-]. constructor.
  - assert (Htail : forall s m r, match_atoms p s = Some (m, r) ->
                Forall (fun x => exists a', In a' (a :: p) /\ class_of a' x = true) m).
    { intros s0 m0 r0 H. eapply Forall_impl; [|exact (IH _ _ _ H)].
      intros x (a' & Hin & Hc). exists a'. split; [now right | exact Hc]. }
    assert (Hrun : forall c m1, class_of a = c -> Forall (fun x => c x = true) m1 ->
                Forall (fun x => exists a', In a' (a :: p) /\ class_of a' x = true) m1).
    { intros c m1 <- H. eapply Forall_impl; [|exact H].
      intros x Hx. exists a. split; [now left | exact Hx]. }
    destruct a as [c|c|c].
    + destruct s as [|x s]; [discriminate|]. destruct (c x) eqn:Hx; [|discriminate].
      destruct (match_atoms p s) as [[m' r']|] eqn:E; cbn [consumed]; [|discriminate].
      intros [= <- <-]. constructor; [|exact (Htail _ _ _ E)].
      exists (One c). split; [now left | exact Hx].
    + intros H. destruct (@star_inv _ _ _ _ _ H) as (m1 & m2 & s' & _ & -> & Hall & Hk).
      apply Forall_app. split; [exact (Hrun c m1 eq_refl Hall) | exact (Htail _ _ _ Hk)].
    + destruct s as [|x s]; [discriminate|]. destruct (c x) eqn:Hx; [|discriminate].
      destruct (star c (match_atoms p) s) as [[m' r']|] eqn:E; cbn [consumed];
        [|discriminate].
      intros [= <- <-]. constructor; [exists (Plus c); split; [now left | exact Hx]|].
      destruct (@star_inv _ _ _ _ _ E) as (m1 & m2 & s' & _ & -> & Hall & Hk).
      apply Forall_app. split; [exact (Hrun c m1 eq_refl Hall) | exact (Htail _ _ _ Hk)].
Qed.

Lemma filter_none {A : Type} (f : A -> bool) l :
  Forall (fun x => f x = false) l -> filter f l = [].
Proof. induction 1 as [|x l Hx _ IH]; cbn; [reflexivity | now rewrite Hx]. Qed.

(** A match of a pattern whose classes are all outside [keep] holds
    no character of [keep]. *)
Lemma match_filter_none (keep : char -> bool) p :
  (forall a x, In a p -> class_of a x = true -> keep x = false) ->
  forall s m r, match_atoms p s = Some (m, r) -> filter keep m = [].
Proof.
  intros Hp s m r H. apply filter_none.
  eapply Forall_impl; [|exact (@match_atoms_classes _ _ _ _ H)].
  intros x (a & Hin & Hc). exact (Hp a x Hin Hc).
Qed.

(** *** Trimming *)

Lemma lstrip_filter (keep : char -> bool) s :
  (forall x, isspace x = true -> keep x = false) ->
  filter keep (lstrip s) = filter keep s.
Proof.
  intros Hk. induction s as [|x s IH]; cbn [lstrip filter]; [reflexivity|].
  destruct (isspace x) eqn:Hx; [|reflexivity]. now rewrite (Hk x Hx).
Qed.

Lemma strip_filter (keep : char -> bool) s :
  (forall x, isspace x = true -> keep x = false) ->
  filter keep (strip s) = filter keep s.
Proof.
  intros Hk. unfold strip, rstrip.
  rewrite filter_rev, (@lstrip_filter keep _ Hk), filter_rev, rev_involutive.
  now apply lstrip_filter.
Qed.

Lemma lstrip_members s x : In x (lstrip s) -> In x s.
Proof.
  induction s as [|y s IH]; cbn [lstrip]; [auto|].
  destruct (isspace y); [intros H; right; now apply IH | auto].
Qed.

Lemma strip_members s x : In x (strip s) -> In x s.
Proof.
  unfold strip, rstrip. intros H. apply in_rev, lstrip_members, in_rev in H.
  now apply lstrip_members.
Qed.

End Substitution.

Section PostProcessorGuarantees.
Import Py Re.

(** [humanize_output], its steps spelled out. *)
Lemma humanize_output_steps st text :
  humanize_output st text
  = strip (collapse
      (if remove_dashes st
       then sub (pat [One (one_of ","); Star ws; One (one_of ".")]) (lit ".")
              (sub (pat [Star ws; One (one_of ","); Star ws]) (lit ", ")
                 (sub (pat [One (one_of ","); Star ws; One (one_of ",")]) (lit ",")
                    (sub (pat [One dash]) (lit ", ")
                       (sub (pat [Star ws; One dash; Star ws]) (lit ", ") text))))
       else text)).
Proof. unfold humanize_output, collapse. destruct (remove_dashes st); reflexivity. Qed.

(** In a tidy text that starts clean, a whitespace character is a
    space, is not the first character and is followed by a character
    that is not whitespace. *)
Lemma tidy_inside s :
  tidy s -> forall pre c post,
    s = pre ++ c :: post -> isspace c = true ->
    c = 32%N /\ exists d post', post = d :: post' /\ isspace d = false.
Proof.
  intros Ht pre. revert s Ht. induction pre as [|p pre IH]; intros s Ht c post -> Hc.
  - cbn [app tidy] in Ht. destruct Ht as [H _]. destruct (H Hc) as [-> Hnext].
    split; [reflexivity|]. destruct post as [|d post']; [destruct Hnext|].
    exists d, post'. auto.
  - cbn [app tidy] in Ht. destruct Ht as [_ Ht]. exact (IH _ Ht c post eq_refl Hc).
Qed.

(** X1: whatever the settings and the text, the result of
    [humanize_output] is in whitespace normal form: each whitespace
    character in it is a single space that is neither the first nor
    the last character and is followed by a character that is not
    whitespace (no tab, no line break, no doubled space, nothing to
    trim). *)
Theorem humanize_output_whitespace_normal st text :
  forall pre c post,
    humanize_output st text = pre ++ c :: post -> isspace c = true ->
    c = 32%N /\ pre <> [] /\
    exists d post', post = d :: post' /\ isspace d = false.
Proof.
  intros pre c post Hout Hc.
  assert (H : tidy (humanize_output st text) /\ starts_clean (humanize_output st text))
    by (rewrite humanize_output_steps; apply strip_collapse_tidy).
  destruct H as [Ht Hs].
  destruct (@tidy_inside _ Ht pre c post Hout Hc) as [Hsp Hnext].
  split; [exact Hsp|]. split; [|exact Hnext].
  intros ->. rewrite Hout in Hs. cbn in Hs. congruence.
Qed.

Lemma sub_stays_clear (c : char -> bool) r repl s :
  lookbehind r = None ->
  (forall x, In x repl -> c x = false) ->
  (forall x, In x s -> c x = false) ->
  forall x, In x (sub r repl s) -> c x = false.
Proof.
  intros Hr Hrepl Hs x Hin. destruct (@sub_members r repl Hr s x Hin); auto.
Qed.

Lemma dash_starts_match x s :
  dash x = true ->
  exists y m rest, match_atoms [Star ws; One dash; Star ws] (x :: s) = Some (y :: m, rest).
Proof.
  intros Hx. cbn [match_atoms star].
  assert (Hw : ws x = false).
  { unfold dash, EM_DASH, EN_DASH in Hx. apply orb_true_iff in Hx.
    destruct Hx as [Hx|Hx]; apply N.eqb_eq in Hx; subst x; reflexivity. }
  rewrite Hw, Hx.
  destruct (star_ws_lstrip s) as (m & Hm & _).
  change (star ws (fun s0 : str => Some ([], s0)) s) with (star ws (match_atoms []) s).
  rewrite Hm. cbn [consumed]. eauto.
Qed.

(** After the first substitution no dash is left. *)
Lemma first_sub_clears_dashes text x :
  In x (sub (pat [Star ws; One dash; Star ws]) (lit ", ") text) -> dash x = false.
Proof.
  apply (@sub_clears dash (pat [Star ws; One dash; Star ws]) (lit ", ") eq_refl).
  - intros y [<-|[<-|[]]]; reflexivity.
  - intros y s Hy. exact (@dash_starts_match y s Hy).
Qed.

(** X2: with dash removal on, the result of [humanize_output]
    contains neither an em dash nor an en dash, whatever the text. *)
Theorem humanize_output_removes_dashes st text :
  remove_dashes st = true ->
  forall c, In c (humanize_output st text) -> dash c = false.
Proof.
  intros Hrd c Hin. rewrite humanize_output_steps, Hrd in Hin.
  apply strip_members in Hin. unfold collapse in Hin. revert c Hin.
  do 5 (apply sub_stays_clear;
        [reflexivity | intros y [<-|[<-|[]]] || intros y [<-|[]]; reflexivity |]).
  intros x. apply first_sub_clears_dashes.
Qed.

(** X6: the second substitution of [humanize_output], the one for
    dashes written without spaces, never changes anything: the
    first one, whose whitespace runs may be empty, has already
    replaced every dash.  The function equals the one without it. *)
Theorem humanize_output_second_sub_is_dead st text :
  humanize_output st text
  = strip (collapse (if remove_dashes st then dashes_to_commas text else text)).
Proof.
  rewrite humanize_output_steps. unfold dashes_to_commas.
  destruct (remove_dashes st); [|reflexivity].
  rewrite (@sub_absent dash (lit ", ")); [reflexivity|].
  intros x. apply first_sub_clears_dashes.
Qed.

(** *** What is never touched *)

Lemma plain_not_space x : isspace x = true -> plain x = false.
Proof. intros H. unfold plain. now rewrite H. Qed.

Lemma plain_not_dash x : dash x = true -> plain x = false.
Proof. intros H. unfold plain. rewrite H, orb_true_r. reflexivity. Qed.

Lemma plain_not_comma x : one_of "," x = true -> plain x = false.
Proof. intros H. unfold plain. rewrite H, orb_true_r. reflexivity. Qed.

(** A match of [,\s*\.] holds one plain character, the full stop. *)
Lemma comma_stop_match s m r :
  match_atoms [One (one_of ","); Star ws; One (one_of ".")] s = Some (m, r) ->
  filter plain m = lit ".".
Proof.
  cbn [match_atoms]. destruct s as [|x s]; [discriminate|].
  destruct (one_of "," x) eqn:Hx; [|discriminate].
  destruct (star ws _ s) as [[m' r']|] eqn:E; cbn [consumed]; [|discriminate].
  intros [= <- <-].
  destruct (@star_inv _ _ _ _ _ E) as (m1 & m2 & s' & _ & -> & Hall & Hk).
  destruct s' as [|y s']; [discriminate|].
  destruct (one_of "." y) eqn:Hy; [|discriminate].
  cbn [consumed] in Hk. injection Hk as <- _.
  cbn [filter]. rewrite (plain_not_comma _ Hx), filter_app.
  rewrite (@filter_none _ plain m1).
  - unfold one_of in Hy. cbn in Hy. rewrite orb_false_r in Hy.
    apply N.eqb_eq in Hy. subst y. reflexivity.
  - eapply Forall_impl; [|exact Hall]. intros z Hz. now apply plain_not_space.
Qed.

(** X3: whatever the settings, [humanize_output] neither adds,
    removes, changes nor reorders any character other than
    whitespace, commas and the two dashes: the other characters of
    the result are those of the text, in the same order. *)
Theorem humanize_output_keeps_plain_characters st text :
  filter plain (humanize_output st text) = filter plain text.
Proof.
  rewrite humanize_output_steps.
  rewrite strip_filter by exact plain_not_space.
  unfold collapse.
  rewrite sub_filter; [|reflexivity|].
  2:{ intros s m r H. transitivity (@nil char); [|reflexivity].
      eapply match_filter_none; [|exact H].
      intros a x [<-|[]]; cbn [class_of]; apply plain_not_space. }
  destruct (remove_dashes st); [|reflexivity].
  rewrite sub_filter; [|reflexivity|exact comma_stop_match].
  rewrite sub_filter; [|reflexivity|].
  2:{ intros s m r H. transitivity (@nil char); [|reflexivity].
      eapply match_filter_none; [|exact H].
      intros a x [<-|[<-|[<-|[]]]]; cbn [class_of];
        auto using plain_not_space, plain_not_comma. }
  rewrite sub_filter; [|reflexivity|].
  2:{ intros s m r H. transitivity (@nil char); [|reflexivity].
      eapply match_filter_none; [|exact H].
      intros a x [<-|[<-|[<-|[]]]]; cbn [class_of];
        auto using plain_not_space, plain_not_comma. }
  rewrite sub_filter; [|reflexivity|].
  2:{ intros s m r H. transitivity (@nil char); [|reflexivity].
      eapply match_filter_none; [|exact H].
      intros a x [<-|[]]; cbn [class_of]; apply plain_not_dash. }
  rewrite sub_filter; [reflexivity|reflexivity|].
  intros s m r H. transitivity (@nil char); [|reflexivity].
  eapply match_filter_none; [|exact H].
  intros a x [<-|[<-|[<-|[]]]]; cbn [class_of];
    auto using plain_not_space, plain_not_dash.
Qed.

(** X4: with dash removal off, [humanize_output] changes whitespace
    only: the characters that are not whitespace (commas and dashes
    included) come out as they went in, in the same order. *)
Theorem humanize_output_without_dashes_keeps_visible st text :
  remove_dashes st = false ->
  filter visible (humanize_output st text) = filter visible text.
Proof.
  intros Hrd.
  assert (Hv : forall x, isspace x = true -> visible x = false)
    by (intros x H; unfold visible; now rewrite H).
  rewrite humanize_output_steps, Hrd.
  rewrite strip_filter by exact Hv.
  unfold collapse. rewrite sub_filter; [reflexivity|reflexivity|].
  intros s m r H. transitivity (@nil char); [|reflexivity].
  eapply match_filter_none; [|exact H].
  intros a x [<-|[]]; cbn [class_of]; apply Hv.
Qed.

(** X5: a text that [humanize_output] has produced, under any
    settings, is left unchanged when it is post-processed again with
    dash removal off. *)
Theorem humanize_output_result_is_fixed st st' text :
  remove_dashes st' = false ->
  humanize_output st' (humanize_output st text) = humanize_output st text.
Proof.
  intros Hrd.
  rewrite (humanize_output_steps st'), Hrd.
  assert (H : tidy (humanize_output st text) /\ starts_clean (humanize_output st text))
    by (rewrite humanize_output_steps; apply strip_collapse_tidy).
  destruct H as [Ht Hs]. rewrite (collapse_tidy _ Ht). now apply strip_tidy.
Qed.

End PostProcessorGuarantees.

Lemma humanize_output_whitespace_normal_witness :
  humanize_output default_settings (Py.lit "  a   b ") = [97%N] ++ 32%N :: [98%N] /\
  Py.isspace 32%N = true /\
  exists d post', [98%N] = d :: post' /\ Py.isspace d = false.
Proof.
  assert (Hout : humanize_output default_settings (Py.lit "  a   b ")
                 = [97%N] ++ 32%N :: [98%N]) by (vm_compute; reflexivity).
  split; [vm_compute; reflexivity|]. split; [reflexivity|].
  exact (proj2 (proj2 (@humanize_output_whitespace_normal default_settings
                         (Py.lit "  a   b ") [97%N] 32%N [98%N] Hout eq_refl))).
Defined.

Lemma humanize_output_removes_dashes_witness :
  remove_dashes default_settings = true /\
  Forall (fun c => Re.dash c = false)
         (humanize_output default_settings [97; 8212; 8212; 32; 8211; 98]%N).
Proof.
  split; [reflexivity|]. apply Forall_forall.
  exact (@humanize_output_removes_dashes default_settings _ eq_refl).
Defined.

Lemma humanize_output_without_dashes_keeps_visible_witness :
  remove_dashes (update_dash false default_settings) = false /\
  filter visible (humanize_output (update_dash false default_settings)
                                  [32; 97; 8212; 9; 44; 44; 98; 10]%N)
  = [97; 8212; 44; 44; 98]%N.
Proof.
  split; [reflexivity|].
  rewrite (@humanize_output_without_dashes_keeps_visible
             (update_dash false default_settings) _ eq_refl).
  reflexivity.
Defined.

Lemma humanize_output_result_is_fixed_witness :
  remove_dashes (update_dash false default_settings) = false /\
  humanize_output (update_dash false default_settings)
                  (humanize_output default_settings (Py.lit "a,,,b"))
  = Py.lit "a, , b".
Proof.
  split; [reflexivity|].
  rewrite (@humanize_output_result_is_fixed default_settings
             (update_dash false default_settings) (Py.lit "a,,,b") eq_refl).
  vm_compute. reflexivity.
Defined.

(* ================================================================= *)
(** * Further properties of the chunker *)

Section Blank.
Import Py Re.

Lemma blank_app a b : blank (a ++ b) = blank a && blank b.
Proof. apply forallb_app. Qed.

Lemma blank_rev s : blank (rev s) = blank s.
Proof.
  induction s as [|x s IH]; [reflexivity|].
  cbn [rev]. rewrite blank_app, IH. cbn [blank forallb].
  rewrite andb_true_r. apply andb_comm.
Qed.

Lemma lstrip_nil_iff s : lstrip s = [] <-> blank s = true.
Proof.
  induction s as [|x s IH]; cbn [lstrip blank forallb]; [tauto|].
  destruct (isspace x); cbn [andb]; [exact IH|]. split; discriminate.
Qed.

Lemma blank_lstrip s : blank (lstrip s) = blank s.
Proof.
  induction s as [|x s IH]; [reflexivity|]. cbn [lstrip].
  destruct (isspace x) eqn:Hx; [|reflexivity].
  rewrite IH. cbn [blank forallb]. now rewrite Hx.
Qed.

(** A text is trimmed to nothing exactly when it is blank. *)
Lemma strip_nil_iff s : strip s = [] <-> blank s = true.
Proof.
  unfold strip, rstrip. rewrite <- (blank_lstrip s), <- (blank_rev (lstrip s)).
  rewrite <- lstrip_nil_iff. split.
  - intros H. apply (f_equal (@rev _)) in H. now rewrite rev_involutive in H.
  - intros ->. reflexivity.
Qed.

Lemma nonempty_strip s : nonempty (strip s) = negb (blank s).
Proof.
  destruct (blank s) eqn:Hb.
  - apply strip_nil_iff in Hb. now rewrite Hb.
  - destruct (strip s) eqn:Hs; [|reflexivity].
    apply strip_nil_iff in Hs. congruence.
Qed.

(** What [(?<=[.!?])\s+] matches is whitespace. *)
Lemma sentence_end_match prev s m rest :
  match_at SENTENCE_END prev s = Some (m, rest) -> blank m = true /\ s = m ++ rest.
Proof.
  unfold match_at. cbn [lookbehind SENTENCE_END atoms].
  destruct prev as [p|]; [|discriminate]. destruct (one_of ".!?" p); [|discriminate].
  intros H. split; [|exact (@match_atoms_split _ _ _ _ H)].
  apply forallb_forall. intros x Hx.
  pose proof (@match_atoms_classes _ _ _ _ H) as Hall.
  rewrite Forall_forall in Hall. destruct (Hall x Hx) as (a & [<-|[]] & Hc). exact Hc.
Qed.

Lemma split_scan_nonempty r s : forall skip prev cur, split_scan r skip prev cur s <> [].
Proof.
  induction s as [|x s IH]; intros skip prev cur; cbn [split_scan]; [discriminate|].
  destruct skip; [|apply IH].
  destruct (match_at r prev (x :: s)) as [[[|y m] rest]|]; try apply IH. discriminate.
Qed.

(** The pieces of a blank text are blank. *)
Lemma split_scan_blank r s :
  forall skip prev cur,
    blank cur = true -> blank s = true ->
    Forall (fun p => blank p = true) (split_scan r skip prev cur s).
Proof.
  induction s as [|x s IH]; intros skip prev cur Hcur Hs; cbn [split_scan].
  - constructor; [exact Hcur | constructor].
  - cbn [blank forallb] in Hs. apply andb_true_iff in Hs. destruct Hs as [Hx Hs].
    destruct skip; [|now apply IH].
    destruct (match_at r prev (x :: s)) as [[[|y m] rest]|].
    + apply IH; [|exact Hs]. rewrite blank_app, Hcur. cbn. now rewrite Hx.
    + constructor; [exact Hcur|]. now apply IH.
    + apply IH; [|exact Hs]. rewrite blank_app, Hcur. cbn. now rewrite Hx.
Qed.

Lemma visible_snoc cur x s :
  blank cur = false \/ blank (x :: s) = false ->
  blank (cur ++ [x]) = false \/ blank s = false.
Proof.
  rewrite blank_app. unfold blank. cbn [forallb].
  destruct (forallb isspace cur), (isspace x), (forallb isspace s); cbn; tauto.
Qed.

(** A text with a visible character has a piece with one: the
    separators between sentences are whitespace. *)
Lemma split_scan_visible s :
  forall skip prev cur,
    blank (firstn skip s) = true ->
    blank cur = false \/ blank s = false ->
    Exists (fun p => blank p = false) (split_scan SENTENCE_END skip prev cur s).
Proof.
  induction s as [|x s IH]; intros skip prev cur Hskip Hvis; cbn [split_scan].
  - destruct Hvis as [H|H]; [now constructor | discriminate].
  - destruct skip as [|k].
    + destruct (match_at SENTENCE_END prev (x :: s)) as [[[|y m] rest]|] eqn:E.
      * apply IH; [reflexivity | now apply visible_snoc].
      * destruct (blank cur) eqn:Hcur; [|now constructor].
        destruct Hvis as [H|H]; [discriminate|].
        destruct (@sentence_end_match _ _ _ _ E) as [Hm Hs]. cbn [app] in Hs.
        injection Hs as -> ->. apply Exists_cons_tl.
        cbn [blank forallb] in Hm, H. apply andb_true_iff in Hm. destruct Hm as [Hy Hm].
        rewrite Hy in H. cbn [andb] in H.
        apply IH; [|now right].
        rewrite firstn_app, Nat.sub_diag, firstn_all. cbn [firstn]. now rewrite app_nil_r.
      * apply IH; [reflexivity | now apply visible_snoc].
    + cbn [firstn blank forallb] in Hskip. apply andb_true_iff in Hskip.
      destruct Hskip as [Hx Hskip]. apply IH; [exact Hskip|].
      destruct Hvis as [H|H]; [now left|]. right.
      cbn [blank forallb] in H. now rewrite Hx in H.
Qed.

(** A text has no sentence exactly when it is blank. *)
Lemma sentences_of_nil_iff text : sentences_of text = [] <-> blank text = true.
Proof.
  unfold sentences_of. split.
  - intros H. destruct (blank text) eqn:Hb; [reflexivity|]. exfalso.
    pose proof (@split_scan_visible text 0 None [] eq_refl (or_intror Hb)) as Hex.
    apply Exists_exists in Hex. destruct Hex as (p & Hin & Hp).
    apply map_eq_nil in H.
    assert (Hf : In p (filter (fun s => nonempty (strip s)) (split SENTENCE_END text))).
    { apply filter_In. split; [exact Hin|]. now rewrite nonempty_strip, Hp. }
    rewrite H in Hf. destruct Hf.
  - intros Hb. rewrite (@filter_none _ (fun s => nonempty (strip s))); [reflexivity|].
    eapply Forall_impl; [|exact (@split_scan_blank SENTENCE_END text 0 None [] eq_refl Hb)].
    intros p Hp. cbn beta in *. now rewrite nonempty_strip, Hp.
Qed.

End Blank.

Section ChunkerGuarantees.
Import Py Re.
Variable ntokens : str -> nat.

Lemma join_cons sep a (l : list str) : l <> [] -> join sep (a :: l) = a ++ sep ++ join sep l.
Proof. destruct l; [congruence | reflexivity]. Qed.

Lemma join_app sep (a b : list str) :
  a <> [] -> b <> [] -> join sep (a ++ b) = join sep a ++ sep ++ join sep b.
Proof.
  intros Ha Hb. induction a as [|x a IH]; [congruence|].
  destruct a as [|y a].
  - cbn [app]. now rewrite join_cons.
  - change ((x :: y :: a) ++ b) with (x :: (y :: a) ++ b).
    rewrite (@join_cons sep x ((y :: a) ++ b)) by discriminate.
    rewrite IH by discriminate.
    rewrite (@join_cons sep x (y :: a)) by discriminate.
    now rewrite <- !app_assoc.
Qed.

(** Joining joined groups is joining their concatenation, when no
    group is empty. *)
Lemma join_concat sep (groups : list (list str)) :
  Forall (fun g => g <> []) groups ->
  join sep (List.map (join sep) groups) = join sep (List.concat groups).
Proof.
  induction 1 as [|g gs Hg Hgs IH]; [reflexivity|].
  destruct gs as [|g' gs].
  - cbn. now rewrite app_nil_r.
  - cbn [List.map List.concat] in *.
    rewrite join_cons by discriminate. rewrite IH.
    rewrite (@join_app sep g (g' ++ List.concat gs)); [reflexivity | exact Hg |].
    inversion Hgs as [|? ? Hg' _]. destruct g'; [congruence | discriminate].
Qed.

(** A chunk is the space-joined list of its pieces, packed or not. *)
Lemma render_join o : render o = join (lit " ") (pieces o).
Proof. destruct o; reflexivity. Qed.

Lemma origins_have_pieces text :
  Forall (fun g => g <> []) (List.map pieces (chunk_origins ntokens text)).
Proof.
  apply Forall_map, Forall_forall. intros [ss|p] Hin; cbn [pieces]; [|discriminate].
  exact (proj1 (@packed_origin_ok ntokens text ss Hin)).
Qed.

Lemma expand_nonempty s : expand ntokens s <> [].
Proof.
  unfold expand. destruct (BUDGET <? ntokens (PREFIX ++ s)); [|discriminate].
  apply split_scan_nonempty.
Qed.

(** X7: the chunks are built from the sentences without loss,
    duplication or reordering.  Each chunk is the space-joined list
    of its pieces, no chunk is without pieces, and the pieces of the
    chunks, read in chunk order, are exactly the sentences of the
    text in their order, a sentence over the token budget standing
    as its comma/semicolon parts. *)
Theorem chunks_keep_sentences_in_order text :
  exists groups : list (list str),
    split_into_chunks ntokens text = List.map (join (lit " ")) groups /\
    Forall (fun g => g <> []) groups /\
    List.concat groups = flat_map (expand ntokens) (sentences_of text).
Proof.
  exists (List.map pieces (chunk_origins ntokens text)).
  split; [|split].
  - rewrite chunk_origins_render, map_map. apply map_ext. exact render_join.
  - apply origins_have_pieces.
  - rewrite <- flat_map_concat_map. apply chunk_origins_in_order.
Qed.

Lemma join_chunks text :
  join (lit " ") (split_into_chunks ntokens text)
  = join (lit " ") (flat_map (expand ntokens) (sentences_of text)).
Proof.
  rewrite chunk_origins_render.
  rewrite (map_ext _ _ render_join), <- (map_map pieces (join (lit " "))).
  rewrite join_concat by apply origins_have_pieces.
  rewrite <- flat_map_concat_map. now rewrite chunk_origins_in_order.
Qed.

(** X8: when every sentence of the text fits the token budget, the
    chunks joined with single spaces are the sentences joined with
    single spaces: chunking cuts the text between sentences only. *)
Theorem chunks_rejoin_to_sentences text :
  (forall s, In s (sentences_of text) -> (ntokens (PREFIX ++ s) <= BUDGET)%nat) ->
  join (lit " ") (split_into_chunks ntokens text) = join (lit " ") (sentences_of text).
Proof.
  intros Hfit. rewrite join_chunks. f_equal.
  induction (sentences_of text) as [|s l IH]; [reflexivity|].
  cbn [flat_map]. rewrite IH by (intros s' Hs'; apply Hfit; now right).
  unfold expand. pose proof (Hfit s (or_introl eq_refl)) as Hs.
  apply Nat.ltb_ge in Hs. now rewrite Hs.
Qed.

Lemma chunks_nil_iff text : split_into_chunks ntokens text = [] <-> sentences_of text = [].
Proof.
  split.
  - intros H. rewrite chunk_origins_render in H. apply map_eq_nil in H.
    pose proof (chunk_origins_in_order ntokens text) as Hord. rewrite H in Hord.
    destruct (sentences_of text) as [|s l]; [reflexivity|].
    cbn [flat_map] in Hord. symmetry in Hord. apply app_eq_nil in Hord.
    now destruct (expand_nonempty s).
  - intros H. unfold split_into_chunks. rewrite H. reflexivity.
Qed.

(** X9: [split_into_chunks] returns no chunk exactly when the text
    is empty or whitespace only ([text.strip()] is empty); a text
    with one visible character gives at least one chunk. *)
Theorem no_chunks_iff_blank text :
  split_into_chunks ntokens text = [] <-> strip text = [].
Proof.
  rewrite chunks_nil_iff, sentences_of_nil_iff. symmetry. apply strip_nil_iff.
Qed.

End ChunkerGuarantees.

Lemma chunks_rejoin_to_sentences_witness :
  Forall (fun s => (word_tokens (PREFIX ++ s) <= BUDGET)%nat)
         (sentences_of (Py.lit "One.  Two!   Three?")) /\
  Py.join (Py.lit " ") (split_into_chunks word_tokens (Py.lit "One.  Two!   Three?"))
  = Py.lit "One. Two! Three?".
Proof.
  assert (H : Forall (fun s => (word_tokens (PREFIX ++ s) <= BUDGET)%nat)
                     (sentences_of (Py.lit "One.  Two!   Three?")))
    by (vm_compute; repeat constructor).
  split; [exact H|].
  rewrite (@chunks_rejoin_to_sentences word_tokens _ (proj1 (Forall_forall _ _) H)).
  vm_compute. reflexivity.
Defined.

(* ================================================================= *)
(** * Further properties of a run *)

Lemma blank_strip s : blank (Py.strip s) = blank s.
Proof. unfold Py.strip, Py.rstrip. now rewrite blank_rev, blank_lstrip, blank_rev, blank_lstrip. Qed.

Section RunGuarantees.
Import Py.
Variable Model : Type.
Variable generate : Model -> str -> GenParams -> Model * (str + list str).
Variable ntokens : str -> nat.
Variable repr : Py.str -> Py.str.

(** The application at the moment the worker starts. *)
Lemma humanize_text_started input_text (w : App Model) m :
  model w = Some m -> strip input_text <> [] ->
  humanize_text generate ntokens repr input_text w
  = world_of (process_text generate ntokens repr (strip input_text)
                           (set_intermediate_outputs [] (emit BeginProcessing w))).
Proof.
  intros Hm Hin. unfold humanize_text.
  destruct (strip input_text) as [|c s] eqn:Hs; [congruence|].
  cbn [nonempty negb]. rewrite Hm.
  destruct (process_text generate ntokens repr (c :: s) _); reflexivity.
Qed.

(** The content of a started run has at least one chunk. *)
Lemma started_run_has_chunk input_text :
  strip input_text <> [] ->
  exists chunk rest, split_into_chunks ntokens (strip input_text) = chunk :: rest.
Proof.
  intros Hin. destruct (split_into_chunks ntokens (strip input_text)) as [|chunk rest] eqn:E.
  - exfalso. apply Hin. apply strip_nil_iff.
    rewrite <- blank_strip. apply sentences_of_nil_iff.
    now apply (chunks_nil_iff ntokens).
  - eauto.
Qed.

Lemma process_text_body_key_error input (w : App Model) e :
  effective_passes (settings w) = inl e ->
  process_text_body generate ntokens input w = Raised e w.
Proof.
  intros HP. unfold process_text_body, bind, get, lift. now rewrite HP.
Qed.

(** X10: a strength that is not a key of the pass table, with custom
    passes off, makes a started run fail in its first statement:
    no chunk is cut, no progress is requested, the model is not
    called, the outputs of the run before are kept, and the text
    shown is the heading followed by [repr] of the strength (the
    text of Python's [KeyError]). *)
Theorem unknown_strength_fails_before_any_work input_text (w : App Model) m :
  model w = Some m ->
  strip input_text <> [] ->
  use_custom_passes (settings w) = false ->
  dict_get STRENGTH_PASSES (strength (settings w)) = None ->
  humanize_text generate ntokens repr input_text w
  = mkApp (settings w) [] (all_outputs w) (Some m)
          (ui w ++ [BeginProcessing;
                    UpdateOutput (lit "Error during processing:" ++ NL
                                  ++ repr (strength (settings w))) false])
          (calls w).
Proof.
  intros Hm Hin Hcustom Hkey.
  rewrite (@humanize_text_started input_text w m Hm Hin), process_text_unfold.
  rewrite (@process_text_body_key_error _ _ (KeyError (strength (settings w)))).
  - cbn [world_of exn_str]. unfold emit, set_intermediate_outputs.
    cbn [settings intermediate_outputs all_outputs model ui calls].
    rewrite Hm, <- app_assoc. reflexivity.
  - cbn [settings set_intermediate_outputs emit]. unfold effective_passes.
    now rewrite Hcustom, Hkey.
Qed.

(** The [try] block when no pass is asked for and there is a chunk. *)
Lemma no_pass_first_chunk input (w : App Model) (P : Z) chunk rest :
  effective_passes (settings w) = inr P ->
  (P <= 0)%Z ->
  split_into_chunks ntokens input = chunk :: rest ->
  process_text_body generate ntokens input w
  = Raised (UnboundLocalError (lit "paraphrases"))
           (mkApp (settings w)
                  (intermediate_outputs w ++
                     (if save_intermediate (settings w) then [mkChunkData chunk []] else []))
                  (all_outputs w) (model w)
                  (ui w ++ [start_event (Z.of_nat (S (List.length rest)) * P) P])
                  (calls w)).
Proof.
  intros HP HP0 Hchunks.
  unfold process_text_body, bind, get, lift. rewrite HP.
  destruct (beam_parameters (strength (settings w))) as [nb rp].
  rewrite Hchunks. unfold schedule, modify.
  assert (Hr : range P = [])
    by (unfold range; replace (Z.to_nat P) with 0%nat by lia; reflexivity).
  unfold enumerate. cbn [List.length seq List.map combine].
  rewrite for_each_cons. unfold chunk_body at 1. unfold bind, get. rewrite Hr.
  cbn [for_each ret settings emit snd paraphrases chunk_data].
  unfold start_event.
  destruct (save_intermediate (settings w)); cbn; rewrite ?app_nil_r; reflexivity.
Qed.

(** X11: a started run whose pass count is zero or negative never
    calls the model; it fails on the unbound local [paraphrases]
    after the first chunk's pass loop ran zero times, the outputs of
    the run before are kept, and, when intermediate saving is on, a
    record of the first chunk with no candidate list at all has
    already been stored. *)
Theorem run_without_pass_fails_unbound input_text (w : App Model) m (P : Z) :
  model w = Some m ->
  strip input_text <> [] ->
  effective_passes (settings w) = inr P ->
  (P <= 0)%Z ->
  exists chunk rest,
    split_into_chunks ntokens (strip input_text) = chunk :: rest /\
    humanize_text generate ntokens repr input_text w
    = mkApp (settings w)
            (if save_intermediate (settings w) then [mkChunkData chunk []] else [])
            (all_outputs w) (Some m)
            (ui w ++ [BeginProcessing;
                      start_event (Z.of_nat (S (List.length rest)) * P) P;
                      UpdateOutput
                        (lit "Error during processing:" ++ NL
                         ++ lit "cannot access local variable 'paraphrases' where it is not associated with a value")
                        false])
            (calls w).
Proof.
  intros Hm Hin HP HP0.
  destruct (@started_run_has_chunk input_text Hin) as (chunk & rest & Hchunks).
  exists chunk, rest. split; [exact Hchunks|].
  rewrite (@humanize_text_started input_text w m Hm Hin), process_text_unfold.
  rewrite (@no_pass_first_chunk _ _ P chunk rest); [|exact HP|exact HP0|exact Hchunks].
  cbn [world_of exn_str]. unfold emit, set_intermediate_outputs.
  cbn [settings intermediate_outputs all_outputs model ui calls app].
  rewrite Hm, <- !app_assoc. reflexivity.
Qed.

Lemma last_request {A : Type} (a : list A) x l y z :
  a ++ x :: l ++ [y; z] = (a ++ x :: l ++ [y]) ++ [z].
Proof. rewrite <- app_assoc. cbn [app]. now rewrite <- app_assoc. Qed.



(** X12: [humanize_text] replaces [all_outputs] only when the run
    succeeds, and then by exactly four versions, the first of which
    is the text handed to the display as the result; in every other
    case (blank input, model not loaded, any failure of the run)
    [all_outputs] is what it was. *)
Theorem all_outputs_written_only_on_success input_text (w : App Model) :
  let w' := humanize_text generate ntokens repr input_text w in
  all_outputs w' = all_outputs w \/
  (List.length (all_outputs w') = 4%nat /\
   exists first evs,
     hd_error (all_outputs w') = Some first /\
     ui w' = evs ++ [UpdateOutput first true]).
Proof.
  cbv zeta.
  destruct (strip input_text) as [|c0 s0] eqn:Hs.
  { left. unfold humanize_text. rewrite Hs. reflexivity. }
  destruct (model w) as [m|] eqn:Hm.
  2:{ left. unfold humanize_text. rewrite Hs, Hm. reflexivity. }
  assert (Hin : strip input_text <> []) by (rewrite Hs; discriminate).
  rewrite (@humanize_text_started input_text w m Hm Hin), process_text_unfold.
  set (w1 := set_intermediate_outputs [] (emit BeginProcessing w)).
  assert (Hm1 : model w1 = Some m) by exact Hm.
  destruct (effective_passes (settings w1)) as [e|P] eqn:HP.
  { left. rewrite (@process_text_body_key_error _ _ _ HP). reflexivity. }
  destruct (Z_le_gt_dec 1 P) as [HP1|HP0].
  - pose proof (@run_spec Model generate ntokens (strip input_text) w1 m P Hm1 HP HP1) as Hrun.
    cbv zeta in Hrun.
    destruct (process_text_body generate ntokens (strip input_text) w1) as [[] w'|e w'].
    + destruct Hrun as (groups & m' & versions & first & HF & Hg & Hfirst & Hw').
      right. cbn [world_of]. rewrite Hw'. cbn [all_outputs ui]. split.
      * rewrite length_map. exact (gather_length _ _ Hg).
      * exists first. eexists. split; [exact Hfirst|]. apply last_request.
    + destruct Hrun as (done & chunk & rest & groups & g & m' & Hchunks & HF & Hg & Hlen &
                        Hch & Hst & Hao & Hm' & Hui & Hcalls & Hfail & Hinter).
      left. cbn [world_of emit all_outputs]. exact Hao.
  - pose proof (@run_spec_no_pass Model generate ntokens (strip input_text) w1 P HP ltac:(lia))
      as Hrun. cbv zeta in Hrun.
    destruct (process_text_body generate ntokens (strip input_text) w1) as [[] w'|e w'].
    + destruct Hrun as (Hchunks & Hw'). right. cbn [world_of]. rewrite Hw'.
      cbn [all_outputs ui]. split; [reflexivity|].
      exists [], (ui w1 ++ [start_event (Z.of_nat (List.length (split_into_chunks ntokens (strip input_text))) * P) P;
                           complete_event (Z.of_nat (List.length (split_into_chunks ntokens (strip input_text))) * P)]).
      split; [reflexivity|]. rewrite <- app_assoc. reflexivity.
    + destruct Hrun as (_ & _ & _ & Hao & _). left. cbn [world_of emit all_outputs]. exact Hao.
Qed.


(** *** What the loops leave alone *)

Lemma pass_body_keeps P params T k loc (w : App Model) :
  settings (world_of (pass_body generate P params T k loc w)) = settings w /\
  intermediate_outputs (world_of (pass_body generate P params T k loc w))
  = intermediate_outputs w.
Proof.
  unfold pass_body, bind, schedule, modify, call_model, get, ret, raise.
  cbn [model emit].
  destruct (model w) as [m|]; [|cbn; auto].
  destruct (generate m (PREFIX ++ processed_chunk loc) params) as [m' [msg|decoded]];
    [cbn; auto|].
  cbn [settings called emit].
  destruct (save_intermediate (settings w)); [destruct (chunk_data loc)|];
    cbn [world_of]; auto;
    destruct (k <? P - 1)%Z; cbn [world_of]; auto;
    destruct (List.map (humanize_output (settings w)) decoded); cbn; auto.
Qed.

Lemma chunk_body_keeps P params T ic loc (w : App Model) :
  save_intermediate (settings w) = false ->
  settings (world_of (chunk_body generate P params T ic loc w)) = settings w /\
  intermediate_outputs (world_of (chunk_body generate P params T ic loc w))
  = intermediate_outputs w.
Proof.
  intros Hs. unfold chunk_body, bind, get.
  match goal with
  | |- context [for_each ?l ?b ?s w] =>
      pose proof (for_each_world_inv
                    (fun w' => settings w' = settings w /\
                               intermediate_outputs w' = intermediate_outputs w) b
                    (fun k loc' w' (H : settings w' = settings w /\
                                        intermediate_outputs w' = intermediate_outputs w) =>
                       conj (eq_trans (proj1 (pass_body_keeps P params T k loc' w')) (proj1 H))
                            (eq_trans (proj2 (pass_body_keeps P params T k loc' w')) (proj2 H)))
                    l s w (conj eq_refl eq_refl)) as Hloop;
      destruct (for_each l b s w) as [loc1 w1|e w1]
  end; [|exact Hloop].
  cbn [world_of] in Hloop. destruct Hloop as [Hst Hio]. rewrite Hst, Hs.
  unfold ret. destruct (paraphrases loc1); [|split; assumption].
  unfold lift. destruct append_versions; split; assumption.
Qed.

Lemma process_text_body_keeps input (w : App Model) :
  save_intermediate (settings w) = false ->
  intermediate_outputs (world_of (process_text_body generate ntokens input w))
  = intermediate_outputs w.
Proof.
  intros Hs. unfold process_text_body, bind, get, lift.
  destruct (effective_passes (settings w)) as [e|P]; [reflexivity|].
  destruct (beam_parameters (strength (settings w))) as [nb rp].
  unfold schedule, modify.
  match goal with
  | |- context [for_each ?l ?b ?s ?w0] =>
      pose proof (for_each_world_inv
                    (fun w' => settings w' = settings w /\
                               intermediate_outputs w' = intermediate_outputs w) b
                    (fun ic loc' w' (H : settings w' = settings w /\
                                         intermediate_outputs w' = intermediate_outputs w) =>
                       let Hs' := eq_trans (f_equal save_intermediate (proj1 H)) Hs in
                       conj (eq_trans (proj1 (chunk_body_keeps P (gen_params nb rp) _ ic loc' w' Hs'))
                                      (proj1 H))
                            (eq_trans (proj2 (chunk_body_keeps P (gen_params nb rp) _ ic loc' w' Hs'))
                                      (proj2 H)))
                    l s w0 (conj eq_refl eq_refl)) as Hloop;
      destruct (for_each l b s w0) as [loc1 w1|e w1]
  end; [|exact (proj2 Hloop)].
  cbn [world_of] in Hloop. destruct Hloop as [_ Hio].
  cbn [all_outputs set_all_outputs emit].
  destruct (List.map (join (lit " ")) (all_versions loc1)); exact Hio.
Qed.

(** X13: with intermediate saving off, a started run leaves
    [intermediate_outputs] empty however it ends (the records of an
    earlier run are cleared at the start and nothing is stored), so
    [save_intermediate_outputs] then stops at its first test and
    shows the No Data box: no file is written, whether or not a file
    name is chosen and whatever the file system would do. *)
Theorem nothing_to_export_without_saving input_text (w : App Model) m timestamp filename
        failure :
  model w = Some m ->
  strip input_text <> [] ->
  save_intermediate (settings w) = false ->
  intermediate_outputs (humanize_text generate ntokens repr input_text w) = [] /\
  save_intermediate_outputs timestamp filename failure
    (humanize_text generate ntokens repr input_text w)
  = NoData.
Proof.
  intros Hm Hin Hs.
  assert (H : intermediate_outputs (humanize_text generate ntokens repr input_text w) = []).
  { rewrite (@humanize_text_started input_text w m Hm Hin), process_text_unfold.
    pose proof (@process_text_body_keeps (strip input_text)
                  (set_intermediate_outputs [] (emit BeginProcessing w)) Hs) as Hk.
    destruct (process_text_body generate ntokens (strip input_text) _) as [[] w'|e w'];
      exact Hk. }
  split; [exact H|]. unfold save_intermediate_outputs. now rewrite H.
Qed.

(** *** The records of a successful run *)

Lemma chunk_records_original {R : str -> list Call -> Prop} st chunks groups :
  Forall2 R chunks groups ->
  List.map original (chunk_records st chunks groups) = chunks.
Proof.
  unfold chunk_records. induction 1 as [|chunk g chunks groups _ _ IH]; [reflexivity|].
  cbn [combine List.map fst snd chunk_record original]. now rewrite IH.
Qed.

Lemma chunk_records_passes st params n chunks groups :
  Forall2 (full_group st params n) chunks groups ->
  Forall (fun cd => List.length (outputs cd) = n) (chunk_records st chunks groups).
Proof.
  unfold chunk_records. induction 1 as [|chunk g chunks groups (Hl & _) _ IH];
    [constructor|].
  cbn [combine List.map fst snd]. constructor; [|exact IH].
  cbn [chunk_record outputs]. now rewrite length_map.
Qed.

Lemma ui_emit e (w : App Model) : ui (emit e w) = ui w ++ [e].
Proof. reflexivity. Qed.

Lemma not_both_outcomes (a b : list UIEvent) t1 t2 :
  a ++ [UpdateOutput t1 false] = b ++ [UpdateOutput t2 true] -> False.
Proof. intros H. apply app_inj_tail in H. destruct H as [_ H]. discriminate. Qed.

(** X14: when a started run succeeds with intermediate saving on,
    [intermediate_outputs] holds exactly one record per chunk, in
    chunk order, whose [original] is the chunk and whose [outputs]
    are the post-processed answers of the chunk's calls, one list
    per pass (so [passes] lists, with [passes >= 1]); and
    [save_intermediate_outputs] with a file name chosen (the dialog
    answers a name that is not empty) then gets past its No Data
    test: when [open] and the writes return, it
    saves under that name the JSON object or the text report of the
    state, by the format setting, and when one of them raises, it
    writes no complete file and shows the error box with the text of
    the exception. *)
Theorem successful_run_records_every_chunk input_text (w : App Model) m first evs :
  model w = Some m ->
  strip input_text <> [] ->
  save_intermediate (settings w) = true ->
  ui (humanize_text generate ntokens repr input_text w) = evs ++ [UpdateOutput first true] ->
  let w' := humanize_text generate ntokens repr input_text w in
  let st := settings w in
  let chunks := split_into_chunks ntokens (strip input_text) in
  exists P groups,
    effective_passes st = inr P /\ (1 <= P)%Z /\
    calls w' = calls w ++ List.concat groups /\
    Forall2 (fun (chunk : str) g => List.length g = Z.to_nat P) chunks groups /\
    intermediate_outputs w' = chunk_records st chunks groups /\
    List.map original (intermediate_outputs w') = chunks /\
    Forall (fun cd => List.length (outputs cd) = Z.to_nat P) (intermediate_outputs w') /\
    forall timestamp filename,
      filename <> [] ->
      save_intermediate_outputs timestamp filename None w'
      = Saved filename
              (if str_eqb (intermediate_format st) (lit "json")
               then JsonFile (export_json timestamp w')
               else TextFile (export_txt timestamp w')) /\
      forall msg,
        save_intermediate_outputs timestamp filename (Some msg) w'
        = SaveFailed (lit "Failed to save file:" ++ NL ++ msg).
Proof.
  intros Hm Hin Hs Hui. cbv zeta.
  rewrite (@humanize_text_started input_text w m Hm Hin), process_text_unfold in Hui |- *.
  set (w1 := set_intermediate_outputs [] (emit BeginProcessing w)) in *.
  assert (Hm1 : model w1 = Some m) by exact Hm.
  destruct (@started_run_has_chunk input_text Hin) as (chunk0 & rest0 & Hchunks0).
  destruct (effective_passes (settings w1)) as [e|P] eqn:HP.
  { rewrite (@process_text_body_key_error _ _ _ HP) in Hui. cbn [world_of] in Hui.
    rewrite ui_emit in Hui. now apply not_both_outcomes in Hui. }
  destruct (Z_le_gt_dec 1 P) as [HP1|HP0].
  2:{ rewrite (@no_pass_first_chunk _ w1 P chunk0 rest0 HP ltac:(lia) Hchunks0) in Hui.
      cbn [world_of] in Hui. rewrite ui_emit in Hui. now apply not_both_outcomes in Hui. }
  pose proof (@run_spec Model generate ntokens (strip input_text) w1 m P Hm1 HP HP1) as Hrun.
  cbv zeta in Hrun.
  destruct (process_text_body generate ntokens (strip input_text) w1) as [[] w'|e w'].
  2:{ cbn [world_of] in Hui. rewrite ui_emit in Hui. now apply not_both_outcomes in Hui. }
  destruct Hrun as (groups & m' & versions & first' & HF & Hg & Hfirst & Hw').
  change (settings w1) with (settings w) in *.
  change (intermediate_outputs w1) with (@nil ChunkData) in Hw'.
  change (calls w1) with (calls w) in Hw'.
  rewrite Hs in Hw'. cbn [app] in Hw'.
  exists P, groups. cbn [world_of]. rewrite Hw'. cbn [calls intermediate_outputs].
  split; [exact HP|]. split; [exact HP1|]. split; [reflexivity|].
  split; [eapply Forall2_impl; [|exact HF]; now intros chunk g (Hl & _)|].
  split; [reflexivity|].
  split; [exact (chunk_records_original _ HF)|].
  split; [exact (chunk_records_passes HF)|].
  intros timestamp [|c filename] Hname; [congruence|]. unfold save_intermediate_outputs.
  cbn [intermediate_outputs].
  pose proof (chunk_records_original (settings w) HF) as Ho.
  destruct (chunk_records (settings w) (split_into_chunks ntokens (strip input_text)) groups).
  - rewrite Hchunks0 in Ho. discriminate Ho.
  - cbn [nonempty negb settings]. split; [reflexivity|]. intros msg. reflexivity.
Qed.

(** *** The progress bar *)

Lemma bar_value_range c T msg :
  (T <= 0 \/ 0 <= c <= T)%Z -> bar_in_range (UpdateProgress c T msg).
Proof.
  intros H q [= <-]. unfold update_progress. cbn [fst].
  destruct (0 <? T)%Z eqn:E.
  - apply Z.ltb_lt in E. destruct H as [H|H]; [lia|].
    unfold Qle. cbn [Qnum Qden]. rewrite Z2Pos.id by lia. lia.
  - unfold Qle. cbn. lia.
Qed.

Lemma other_in_range e : bar_value e = None -> bar_in_range e.
Proof. intros H q Hq. congruence. Qed.

Lemma start_in_range T P : bar_in_range (start_event T P).
Proof. apply bar_value_range. lia. Qed.

Lemma complete_in_range T : bar_in_range (complete_event T).
Proof. apply bar_value_range. lia. Qed.

Lemma units_in_range T k :
  (Z.of_nat k <= T)%Z -> Forall bar_in_range (unit_events T 0 k).
Proof.
  intros Hk. unfold unit_events. apply Forall_map, Forall_forall.
  intros i Hi. apply in_seq in Hi. apply bar_value_range. lia.
Qed.

Lemma complete_is_full T :
  (1 <= T)%Z ->
  exists q, bar_value (complete_event T) = Some q /\ (q == 1)%Q.
Proof.
  intros HT. eexists. split; [reflexivity|].
  unfold update_progress. cbn [fst].
  replace (0 <? T)%Z with true by (symmetry; apply Z.ltb_lt; lia).
  unfold Qeq. cbn [Qnum Qden]. rewrite Z2Pos.id by lia. lia.
Qed.

(** X15: every progress request that [humanize_text] makes sets the
    bar to a value between 0 and 1 (0 when the total is not
    positive: there is no division by zero), and when the run
    succeeds the request just before the result sets it to exactly
    1. *)
Theorem progress_bar_stays_in_range input_text (w : App Model) :
  exists new,
    ui (humanize_text generate ntokens repr input_text w) = ui w ++ new /\
    Forall bar_in_range new /\
    forall first evs,
      new = evs ++ [UpdateOutput first true] ->
      exists evs' e q, evs = evs' ++ [e] /\ bar_value e = Some q /\ (q == 1)%Q.
Proof.
  destruct (strip input_text) as [|c0 s0] eqn:Hstrip.
  { eexists. split; [unfold humanize_text; rewrite Hstrip; reflexivity|].
    split; [repeat first [apply Forall_nil | apply Forall_cons; [now apply other_in_range|]]|].
    intros first evs H. apply (@app_inj_tail _ [] evs) in H. destruct H as [_ H].
    discriminate. }
  destruct (model w) as [m|] eqn:Hm.
  2:{ eexists. split; [unfold humanize_text; rewrite Hstrip, Hm; reflexivity|].
      split; [repeat first [apply Forall_nil | apply Forall_cons; [now apply other_in_range|]]|].
      intros first evs H. apply (@app_inj_tail _ [] evs) in H. destruct H as [_ H].
      discriminate. }
  assert (Hin : strip input_text <> []) by (rewrite Hstrip; discriminate).
  rewrite (@humanize_text_started input_text w m Hm Hin), process_text_unfold.
  set (w1 := set_intermediate_outputs [] (emit BeginProcessing w)).
  assert (Hm1 : model w1 = Some m) by exact Hm.
  assert (Hui1 : ui w1 = ui w ++ [BeginProcessing]) by reflexivity.
  destruct (@started_run_has_chunk input_text Hin) as (chunk0 & rest0 & Hchunks0).
  destruct (effective_passes (settings w1)) as [e|P] eqn:HP.
  { rewrite (@process_text_body_key_error _ _ _ HP). cbn [world_of].
    rewrite ui_emit, Hui1, <- app_assoc.
    eexists. split; [reflexivity|].
    split; [repeat first [apply Forall_nil | apply Forall_cons; [now apply other_in_range|]]|].
    intros first evs H. change ([BeginProcessing] ++ [UpdateOutput _ false])
      with ([BeginProcessing] ++ [UpdateOutput (lit "Error during processing:" ++ NL ++ exn_str repr e) false]) in H.
    now apply not_both_outcomes in H. }
  destruct (Z_le_gt_dec 1 P) as [HP1|HP0].
  2:{ rewrite (@no_pass_first_chunk _ w1 P chunk0 rest0 HP ltac:(lia) Hchunks0).
      cbn [world_of]. rewrite ui_emit. cbn [ui]. rewrite Hui1, <- !app_assoc.
      eexists. split; [reflexivity|].
      split.
      { cbn [app]. constructor; [now apply other_in_range|].
        constructor; [apply start_in_range|].
        constructor; [now apply other_in_range | constructor]. }
      intros first evs H. cbn [app] in H.
      change [BeginProcessing; start_event (Z.of_nat (S (List.length rest0)) * P) P;
              UpdateOutput (lit "Error during processing:" ++ NL
                            ++ exn_str repr (UnboundLocalError (lit "paraphrases"))) false]
        with ([BeginProcessing; start_event (Z.of_nat (S (List.length rest0)) * P) P]
              ++ [UpdateOutput (lit "Error during processing:" ++ NL
                                ++ exn_str repr (UnboundLocalError (lit "paraphrases"))) false]) in H.
      now apply not_both_outcomes in H. }
  pose proof (@run_spec Model generate ntokens (strip input_text) w1 m P Hm1 HP HP1) as Hrun.
  cbv zeta in Hrun.
  set (chunks := split_into_chunks ntokens (strip input_text)) in *.
  set (T := (Z.of_nat (List.length chunks) * P)%Z) in *.
  destruct (process_text_body generate ntokens (strip input_text) w1) as [[] w'|e w'].
  - destruct Hrun as (groups & m' & versions & first' & HF & Hg & Hfirst & Hw').
    cbn [world_of]. rewrite Hw'. cbn [ui]. rewrite Hui1.
    exists (BeginProcessing :: start_event T P
              :: unit_events T 0 (List.length chunks * Z.to_nat P)
              ++ [complete_event T; UpdateOutput first' true]).
    split; [rewrite <- app_assoc; reflexivity|].
    split.
    + constructor; [now apply other_in_range|].
      constructor; [apply start_in_range|].
      apply Forall_app. split; [apply units_in_range; subst T; lia|].
      constructor; [apply complete_in_range|].
      constructor; [now apply other_in_range | constructor].
    + intros first evs H.
      assert (E : BeginProcessing :: start_event T P
                    :: unit_events T 0 (List.length chunks * Z.to_nat P)
                    ++ [complete_event T; UpdateOutput first' true]
                  = (BeginProcessing :: start_event T P
                       :: unit_events T 0 (List.length chunks * Z.to_nat P)
                       ++ [complete_event T]) ++ [UpdateOutput first' true])
        by (cbn [app]; rewrite <- app_assoc; reflexivity).
      rewrite E in H. apply app_inj_tail in H. destruct H as [<- _].
      assert (HT : (1 <= T)%Z).
      { subst T chunks. rewrite Hchunks0. cbn [List.length]. nia. }
      destruct (complete_is_full HT) as (q & Hq & Hq1).
      exists (BeginProcessing :: start_event T P
                :: unit_events T 0 (List.length chunks * Z.to_nat P)),
             (complete_event T), q.
      split; [reflexivity|]. split; [exact Hq | exact Hq1].
  - destruct Hrun as (done & chunk & rest & groups & g & m' & Hchunks & HF & Hg & Hlen &
                      Hch & Hst & Hao & Hm' & Hui & Hcalls & Hfail & Hinter).
    cbn [world_of]. rewrite ui_emit, Hui, Hui1.
    exists (BeginProcessing :: start_event T P
              :: unit_events T 0 (List.length done * Z.to_nat P + List.length g)
              ++ [UpdateOutput (lit "Error during processing:" ++ NL ++ exn_str repr e) false]).
    split; [rewrite <- !app_assoc; reflexivity|].
    split.
    + constructor; [now apply other_in_range|].
      constructor; [apply start_in_range|].
      apply Forall_app. split; [|constructor; [now apply other_in_range | constructor]].
      apply units_in_range. subst T. rewrite Hchunks, length_app. cbn [List.length]. nia.
    + intros first evs H.
      change (BeginProcessing :: start_event T P
                :: unit_events T 0 (List.length done * Z.to_nat P + List.length g)
                ++ [UpdateOutput (lit "Error during processing:" ++ NL ++ exn_str repr e) false])
        with ((BeginProcessing :: start_event T P
                :: unit_events T 0 (List.length done * Z.to_nat P + List.length g))
                ++ [UpdateOutput (lit "Error during processing:" ++ NL ++ exn_str repr e) false]) in H.
      now apply not_both_outcomes in H.
Qed.

End RunGuarantees.

(** *** The theorems at work *)

Lemma unknown_strength_fails_before_any_work_witness :
  model (loaded_app UNKNOWN_STRENGTH) = Some 0%nat /\
  Py.strip ONE_SENTENCE <> [] /\
  dict_get STRENGTH_PASSES (strength UNKNOWN_STRENGTH) = None /\
  ui (humanize_text (mock_generate 99) flat_tokens ascii_repr ONE_SENTENCE (loaded_app UNKNOWN_STRENGTH))
  = [BeginProcessing;
     UpdateOutput (Py.lit "Error during processing:" ++ NL ++ Py.lit "'Extreme'") false].
Proof.
  split; [reflexivity|]. split; [vm_compute; discriminate|]. split; [reflexivity|].
  rewrite (@unknown_strength_fails_before_any_work nat (mock_generate 99) flat_tokens ascii_repr
             ONE_SENTENCE (loaded_app UNKNOWN_STRENGTH) 0%nat eq_refl
             ltac:(vm_compute; discriminate) eq_refl eq_refl).
  reflexivity.
Defined.

(** A strength with an apostrophe is shown between double quotes, and
    a backslash in it is doubled. *)
Example unknown_strength_repr_example :
  last (ui (humanize_text (mock_generate 99) flat_tokens ascii_repr ONE_SENTENCE
              (loaded_app (update_strength (Py.lit "It's") default_settings))))
       BeginProcessing
  = UpdateOutput (Py.lit "Error during processing:" ++ NL
                  ++ [34%N] ++ Py.lit "It's" ++ [34%N]) false /\
  last (ui (humanize_text (mock_generate 99) flat_tokens ascii_repr ONE_SENTENCE
              (loaded_app (update_strength (Py.lit "a\b") default_settings))))
       BeginProcessing
  = UpdateOutput (Py.lit "Error during processing:" ++ NL
                  ++ Py.lit "'a\\b'") false.
Proof. vm_compute. split; reflexivity. Qed.

Lemma run_without_pass_fails_unbound_witness :
  model (loaded_app NO_PASSES) = Some 0%nat /\
  effective_passes NO_PASSES = inr 0%Z /\
  exists chunk rest,
    split_into_chunks flat_tokens (Py.strip ONE_SENTENCE) = chunk :: rest /\
    intermediate_outputs (humanize_text (mock_generate 99) flat_tokens ascii_repr ONE_SENTENCE
                                        (loaded_app NO_PASSES))
    = [mkChunkData chunk []].
Proof.
  split; [reflexivity|]. split; [reflexivity|].
  destruct (@run_without_pass_fails_unbound nat (mock_generate 99) flat_tokens ascii_repr
              ONE_SENTENCE (loaded_app NO_PASSES) 0%nat 0%Z eq_refl
              ltac:(vm_compute; discriminate) eq_refl ltac:(lia))
    as (chunk & rest & Hchunks & Hrun).
  exists chunk, rest. split; [exact Hchunks|]. rewrite Hrun. reflexivity.
Defined.

Lemma nothing_to_export_without_saving_witness :
  model (loaded_app NOT_SAVING) = Some 0%nat /\
  save_intermediate NOT_SAVING = false /\
  save_intermediate_outputs (Py.lit "20240101_120000") (Py.lit "out.json") None
    (humanize_text (mock_generate 99) flat_tokens ascii_repr TWO_SENTENCES (loaded_app NOT_SAVING))
  = NoData.
Proof.
  split; [reflexivity|]. split; [reflexivity|].
  exact (proj2 (@nothing_to_export_without_saving nat (mock_generate 99) flat_tokens ascii_repr
                  TWO_SENTENCES (loaded_app NOT_SAVING) 0%nat
                  (Py.lit "20240101_120000") (Py.lit "out.json") None
                  eq_refl ltac:(vm_compute; discriminate) eq_refl)).
Defined.

Lemma successful_run_records_every_chunk_witness :
  model (loaded_app TWO_PASSES) = Some 0%nat /\
  save_intermediate TWO_PASSES = true /\
  List.map original
    (intermediate_outputs (humanize_text (mock_generate 99) flat_tokens ascii_repr TWO_SENTENCES
                                         (loaded_app TWO_PASSES)))
  = split_into_chunks flat_tokens (Py.strip TWO_SENTENCES) /\
  save_intermediate_outputs (Py.lit "20240101_120000") (Py.lit "out.json")
    (Some (Py.lit "[Errno 13] Permission denied: 'out.json'"))
    (humanize_text (mock_generate 99) flat_tokens ascii_repr TWO_SENTENCES
                   (loaded_app TWO_PASSES))
  = SaveFailed (Py.lit "Failed to save file:" ++ NL
                ++ Py.lit "[Errno 13] Permission denied: 'out.json'").
Proof.
  split; [reflexivity|]. split; [reflexivity|].
  assert (Hui : ui (humanize_text (mock_generate 99) flat_tokens ascii_repr TWO_SENTENCES
                                  (loaded_app TWO_PASSES))
                = removelast (ui (humanize_text (mock_generate 99) flat_tokens ascii_repr TWO_SENTENCES
                                                (loaded_app TWO_PASSES)))
                  ++ [UpdateOutput (Py.lit "Hello there. (a) (a) How are you? (a) (a)") true])
    by (vm_compute; reflexivity).
  destruct (@successful_run_records_every_chunk nat (mock_generate 99) flat_tokens ascii_repr
              TWO_SENTENCES (loaded_app TWO_PASSES) 0%nat _ _ eq_refl
              ltac:(vm_compute; discriminate) eq_refl Hui)
    as (P & groups & _ & _ & _ & _ & _ & Horig & _ & Hsave).
  split; [exact Horig|].
  exact (proj2 (Hsave (Py.lit "20240101_120000") (Py.lit "out.json")
                      ltac:(vm_compute; discriminate)) _).
Defined.

(* ================================================================= *)
(** * Properties of the output box *)

Section HighlightGuarantees.
Import Py.
Variable isword : char -> bool.
Variable ignorecase : char -> char -> bool.

(** The characters that equal a letter of the word under
    [re.IGNORECASE] are word characters. *)
Hypothesis letters_are_word :
  forall x a, In a WORD -> ignorecase x a = true -> isword x = true.

Lemma literal_inv p : forall s m r,
  literal ignorecase p s = Some (m, r) ->
  s = m ++ r /\ Forall2 (fun x a => ignorecase x a = true) m p.
Proof.
  induction p as [|a p IH]; intros s m r; cbn [literal].
  - intros [= <- <-]. split; [reflexivity | constructor].
  - destruct s as [|x s]; [discriminate|]. destruct (ignorecase x a) eqn:Hx; [|discriminate].
    destruct (literal ignorecase p s) as [[m' r']|] eqn:E; cbn [Re.consumed]; [|discriminate].
    intros [= <- <-]. destruct (IH _ _ _ E) as [-> HF].
    split; [reflexivity | now constructor].
Qed.

Lemma literal_of_letters p : forall m r,
  Forall2 (fun x a => ignorecase x a = true) m p ->
  literal ignorecase p (m ++ r) = Some (m, r).
Proof.
  induction p as [|a p IH]; intros m r HF; inversion HF as [|x a' m' p' Hx HF']; subst.
  - reflexivity.
  - cbn [app literal]. rewrite Hx, (IH _ r HF'). reflexivity.
Qed.

Lemma letters_word_chars m p :
  incl p WORD -> Forall2 (fun x a => ignorecase x a = true) m p ->
  Forall (fun x => isword x = true) m.
Proof.
  intros Hp HF. induction HF as [|x a m p Hx _ IH]; constructor.
  - exact (@letters_are_word x a (Hp a (or_introl eq_refl)) Hx).
  - apply IH. intros b Hb. apply Hp. now right.
Qed.

(** The ends of a match of the word are word characters. *)
Lemma word_ends m :
  Forall2 (fun x a => ignorecase x a = true) m WORD ->
  word_char isword (hd_error m) = true /\ word_char isword (hd_error (rev m)) = true.
Proof.
  intros HF. pose proof (letters_word_chars (incl_refl _) HF) as Hall.
  assert (Hne : m <> []) by (inversion HF; discriminate).
  split.
  - destruct m as [|x m]; [congruence|]. inversion Hall; assumption.
  - assert (Hrev : Forall (fun x => isword x = true) (rev m)) by now apply Forall_rev.
    destruct (rev m) as [|z l] eqn:E.
    + apply (f_equal (@rev _)) in E. rewrite rev_involutive in E. cbn in E. congruence.
    + inversion Hrev; assumption.
Qed.

Lemma word_at_inv prev s m r :
  word_at isword ignorecase prev s = Some (m, r) ->
  s = m ++ r /\ Forall2 (fun x a => ignorecase x a = true) m WORD /\
  boundary isword prev (hd_error s) = true /\
  boundary isword (hd_error (rev m)) (hd_error r) = true.
Proof.
  unfold word_at. destruct (boundary isword prev (hd_error s)) eqn:Hb; [|discriminate].
  destruct (literal ignorecase WORD s) as [[m' r']|] eqn:E; [|discriminate].
  destruct (boundary isword (hd_error (rev m')) (hd_error r')) eqn:He; [|discriminate].
  intros [= <- <-]. destruct (literal_inv _ _ E) as [Hs HF]. auto.
Qed.

(** A match of the word, taken alone, matches. *)
Lemma is_word_match m :
  Forall2 (fun x a => ignorecase x a = true) m WORD -> is_word isword ignorecase m = true.
Proof.
  intros HF. destruct (word_ends HF) as [Hfirst Hlast].
  unfold is_word, word_at, boundary. cbn [word_char]. rewrite Hfirst. cbn [xorb].
  rewrite <- (app_nil_r m) at 1. rewrite (literal_of_letters [] HF).
  cbn [hd_error word_char]. rewrite Hlast. reflexivity.
Qed.

Lemma is_word_nil : is_word isword ignorecase [] = false.
Proof. reflexivity. Qed.

Lemma hd_rev_cons {A : Type} (x : A) l : l <> [] -> hd_error (rev (x :: l)) = hd_error (rev l).
Proof.
  intros Hl. cbn [rev]. destruct (rev l) eqn:E; [|reflexivity].
  apply (f_equal (@rev _)) in E. rewrite rev_involutive in E. cbn in E. congruence.
Qed.

(** Passing over the rest of a match. *)
Lemma highlight_split_skip m : forall x cur rest,
  highlight_split isword ignorecase (List.length m) (Some x) cur (m ++ rest)
  = highlight_split isword ignorecase 0 (hd_error (rev (x :: m))) cur rest.
Proof.
  induction m as [|y m IH]; intros x cur rest.
  - reflexivity.
  - cbn [List.length app highlight_split]. rewrite IH.
    now rewrite (@hd_rev_cons _ x (y :: m)) by discriminate.
Qed.

Lemma segment_not_word prev cur tail :
  segment isword ignorecase prev cur tail ->
  tail = [] \/ (exists m r, word_at isword ignorecase prev tail = Some (m, r)) ->
  is_word isword ignorecase cur = false.
Proof.
  intros [Hprev Hseg] Htail.
  destruct cur as [|c cur]; [reflexivity|].
  destruct Hseg as [HB|[[HA _]|[_ HA]]]; [|discriminate|].
  - cbn [app hd_error word_char] in HB.
    unfold is_word, word_at, boundary. cbn [hd_error word_char]. now rewrite HB.
  - unfold is_word.
    destruct (word_at isword ignorecase None (c :: cur)) as [[m' r']|] eqn:E; [|reflexivity].
    exfalso. destruct (word_at_inv _ _ E) as (Hcur & HF & Hb & He).
    destruct (word_ends HF) as [_ Hlast].
    assert (Hmatch : word_at isword ignorecase None ((c :: cur) ++ tail)
                     = Some (m', r' ++ tail)).
    { unfold word_at. cbn [app hd_error] in Hb |- *. rewrite Hb.
      change (c :: cur ++ tail) with ((c :: cur) ++ tail).
      rewrite Hcur, <- app_assoc, (literal_of_letters (r' ++ tail) HF).
      destruct r' as [|d r'].
      - cbn [app]. destruct Htail as [->|(m & r & Hm)].
        + cbn [hd_error] in He |- *. now rewrite He.
        + exfalso. destruct (word_at_inv _ _ Hm) as (Ht & HFm & Hbm & _).
          destruct (word_ends HFm) as [Hfirst _].
          rewrite (Hprev ltac:(discriminate)), Hcur, app_nil_r in Hbm.
          unfold boundary in Hbm. rewrite Hlast in Hbm.
          rewrite Ht in Hbm. destruct m as [|y m]; [inversion HFm|].
          cbn [app hd_error] in Hbm, Hfirst. cbn [word_char] in Hbm, Hfirst.
          rewrite Hfirst in Hbm. discriminate.
      - cbn [app hd_error] in He |- *. now rewrite He. }
    congruence.
Qed.

(** *** Where the pattern matches *)

Lemma tagged_offsets_ge pieces : forall base k,
  In k (tagged_offsets base pieces) -> (base <= k)%nat.
Proof.
  induction pieces as [|[piece tagged] pieces IH]; intros base k;
    cbn [tagged_offsets fst snd].
  - intros [].
  - intros H. apply in_app_or in H. destruct H as [H|H].
    + destruct tagged; [destruct H as [<-|[]]; lia | destruct H].
    + apply IH in H. lia.
Qed.

Lemma tagged_offsets_shift pieces : forall a base k,
  In (a + k)%nat (tagged_offsets (a + base) pieces) <-> In k (tagged_offsets base pieces).
Proof.
  induction pieces as [|[piece tagged] pieces IH]; intros a base k;
    cbn [tagged_offsets fst snd].
  - tauto.
  - rewrite !in_app_iff, <- Nat.add_assoc, IH.
    destruct tagged; cbn [In]; [|tauto].
    split; (intros [[H|[]]|H]; [left; left; lia | now right]).
Qed.

Lemma occurs_nil prev j : ~ occurs isword ignorecase prev [] j.
Proof.
  intros (m & r & H). rewrite skipn_nil in H. unfold word_at in H.
  destruct (boundary isword _ _); discriminate H.
Qed.

Lemma occurs_succ prev x s j :
  occurs isword ignorecase prev (x :: s) (S j) <-> occurs isword ignorecase (Some x) s j.
Proof. unfold occurs. cbn [skipn prev_at]. destruct j; reflexivity. Qed.

(** Past a stretch [M] of the subject. *)
Lemma occurs_after M : forall prev rest k,
  M <> [] ->
  occurs isword ignorecase prev (M ++ rest) (List.length M + k)
  <-> occurs isword ignorecase (hd_error (rev M)) rest k.
Proof.
  induction M as [|y M IH]; intros prev rest k HM; [congruence|].
  cbn [List.length app Nat.add]. rewrite occurs_succ.
  destruct M as [|z M]; [reflexivity|].
  rewrite (IH (Some y) rest k) by discriminate.
  rewrite (@hd_rev_cons _ y (z :: M)) by discriminate. reflexivity.
Qed.

(** Between two word characters there is no boundary, so the pattern
    does not match inside a stretch of word characters. *)
Lemma occurs_inside M : forall prev rest j,
  Forall (fun x => isword x = true) M ->
  (0 < j < List.length M)%nat ->
  ~ occurs isword ignorecase prev (M ++ rest) j.
Proof.
  induction M as [|y M IH]; intros prev rest j HF [Hj0 Hj] H; cbn [List.length] in Hj;
    [lia|].
  destruct j as [|j]; [lia|]. cbn [app] in H. apply occurs_succ in H.
  inversion HF as [|y' M' Hy HM]; subst.
  destruct j as [|j].
  - destruct M as [|z M]; [cbn [List.length] in Hj; lia|].
    inversion HM as [|z' M' Hz _]; subst.
    destruct H as (m & r & H). cbn [skipn prev_at app] in H.
    unfold word_at, boundary in H. cbn [hd_error word_char] in H.
    rewrite Hy, Hz in H. discriminate H.
  - exact (IH (Some y) rest (S j) HM ltac:(lia) H).
Qed.

(** At the end of a prefix. *)
Lemma occurs_prefix pre s :
  occurs isword ignorecase None (pre ++ s) (List.length pre)
  <-> exists m r, word_at isword ignorecase (hd_error (rev pre)) s = Some (m, r).
Proof.
  destruct pre as [|c pre]; [reflexivity|].
  rewrite <- (Nat.add_0_r (List.length (c :: pre))).
  rewrite (@occurs_after (c :: pre) None s 0%nat) by discriminate. reflexivity.
Qed.

(** The pattern matches at an offset exactly when the word occurs
    there as a whole word. *)
Lemma occurs_whole_word text j :
  occurs isword ignorecase None text j <-> whole_word isword ignorecase text j.
Proof.
  split.
  - intros H.
    assert (Hj : (j <= List.length text)%nat).
    { destruct (Nat.le_gt_cases j (List.length text)) as [Hj|Hj]; [exact Hj|].
      exfalso. destruct H as (m & r & H).
      rewrite skipn_all2 in H by lia. unfold word_at in H.
      destruct (boundary isword _ _); discriminate H. }
    assert (H' : occurs isword ignorecase None (firstn j text ++ skipn j text)
                        (List.length (firstn j text)))
      by (rewrite firstn_skipn, firstn_length_le by exact Hj; exact H).
    apply occurs_prefix in H'. destruct H' as (m & r & E).
    destruct (word_at_inv _ _ E) as (Hs & HF & Hb & He).
    destruct (word_ends HF) as [Hfirst Hlast].
    exists (firstn j text), m, r.
    split; [rewrite <- Hs; now rewrite firstn_skipn|].
    split; [now apply firstn_length_le|].
    split; [exact HF|].
    unfold boundary in Hb, He. rewrite Hlast in He.
    rewrite Hs in Hb. destruct m as [|y m]; [inversion HF|].
    cbn [app hd_error] in Hb, Hfirst. rewrite Hfirst in Hb.
    split.
    + destruct (word_char isword (hd_error (rev (firstn j text)))); [discriminate Hb | reflexivity].
    + destruct (word_char isword (hd_error r)); [discriminate He | reflexivity].
  - intros (pre & m & post & -> & <- & HF & Hpre & Hpost).
    apply occurs_prefix. exists m, post.
    destruct (word_ends HF) as [Hfirst Hlast].
    unfold word_at, boundary. rewrite (literal_of_letters post HF).
    destruct m as [|y m]; [inversion HF|].
    cbn [app hd_error] in Hfirst |- *. rewrite Hpre, Hfirst, Hlast, Hpost. reflexivity.
Qed.

(** The list [re.split] returns: a first piece, then, for every
    match, the matched text twice and the piece after it; the pieces
    do not match the pattern, the matched texts spell the word, and
    they stand where the pattern matches. *)
Lemma highlight_split_shape : forall n s,
  List.length s = n ->
  forall prev cur,
    segment isword ignorecase prev cur s ->
    exists seg0 (tl : list (str * str)),
      highlight_split isword ignorecase 0 prev cur s
      = seg0 :: flat_map (fun p => [fst p; fst p; snd p]) tl /\
      cur ++ s = seg0 ++ List.concat (List.map (fun p => fst p ++ snd p) tl) /\
      is_word isword ignorecase seg0 = false /\
      Forall (fun p => Forall2 (fun x a => ignorecase x a = true) (fst p) WORD /\
                       is_word isword ignorecase (snd p) = false) tl /\
      (List.length cur <= List.length seg0)%nat /\
      forall j,
        occurs isword ignorecase prev s j
        <-> In (List.length cur + j)%nat (tagged_offsets 0 (pieces_of seg0 tl)).
Proof.
  induction n as [n IH] using lt_wf_ind. intros [|x s] Hn prev cur Hseg.
  - exists cur, []. cbn [highlight_split flat_map List.map List.concat].
    split; [reflexivity|]. split; [reflexivity|].
    split; [apply (segment_not_word Hseg); now left|].
    split; [constructor|]. split; [lia|].
    intros j. split; [intros H; destruct (occurs_nil H) | intros []].
  - cbn [highlight_split List.length] in *.
    destruct (word_at isword ignorecase prev (x :: s)) as [[[|y m] rest]|] eqn:E.
    + exfalso. destruct (word_at_inv _ _ E) as (_ & HF & _). inversion HF.
    + destruct (word_at_inv _ _ E) as (Hs & HF & Hb & He).
      cbn [app] in Hs. injection Hs as <- ->.
      destruct (word_ends HF) as [_ Hlast].
      rewrite highlight_split_skip.
      assert (Hseg' : segment isword ignorecase (hd_error (rev (x :: m))) [] rest).
      { split; [congruence|]. left. cbn [app].
        unfold boundary in He. rewrite Hlast in He.
        destruct (word_char isword (hd_error rest)); [discriminate | reflexivity]. }
      destruct (IH (List.length rest) ltac:(rewrite length_app in Hn; lia) rest eq_refl
                   _ _ Hseg') as (seg1 & tl & Hsplit & Htext & Hseg1 & Htl & _ & Hocc).
      exists cur, ((x :: m, seg1) :: tl).
      split; [cbn [flat_map fst snd app]; now rewrite Hsplit|].
      split.
      { cbn [List.map List.concat fst snd]. cbn [app] in Htext.
        f_equal. rewrite <- app_assoc. cbn [app]. do 2 f_equal. exact Htext. }
      split.
      { apply (segment_not_word Hseg). right. eauto. }
      split; [constructor; [split; assumption | exact Htl]|].
      split; [lia|].
      intros j. unfold pieces_of in Hocc |- *.
      cbn [flat_map tagged_offsets fst snd app Nat.add] in Hocc |- *.
      set (rest_pieces := flat_map (fun p : str * str => [(fst p, true); (snd p, false)]) tl)
        in *.
      assert (Hshift : In (List.length cur + j)%nat
                          (tagged_offsets (List.length cur + List.length (x :: m)
                                           + List.length seg1) rest_pieces)
                       <-> In j (tagged_offsets (List.length (x :: m) + List.length seg1)
                                                rest_pieces))
        by (rewrite <- Nat.add_assoc; apply tagged_offsets_shift).
      cbn [In]. rewrite Hshift. clear Hshift.
      destruct (Nat.eq_dec j 0) as [->|Hj0].
      { split; [left; lia | intros _; exists (x :: m), rest; exact E]. }
      destruct (Nat.lt_ge_cases j (List.length (x :: m))) as [Hin|Hout].
      { split.
        - intros H. exfalso.
          exact (@occurs_inside (x :: m) prev rest j
                   (letters_word_chars (incl_refl _) HF) ltac:(lia) H).
        - intros [H|H]; [lia|]. apply tagged_offsets_ge in H. lia. }
      assert (Hj : j = (List.length (x :: m) + (j - List.length (x :: m)))%nat) by lia.
      revert Hj. generalize (j - List.length (x :: m))%nat. intros k ->.
      change (x :: m ++ rest) with ((x :: m) ++ rest).
      rewrite (@occurs_after (x :: m) prev rest k) by discriminate.
      rewrite (Hocc k), tagged_offsets_shift. cbn [List.length Nat.add].
      split; [now right | intros [H|H]; [lia | exact H]].
    + assert (Hseg' : segment isword ignorecase (Some x) (cur ++ [x]) s).
      { destruct Hseg as [Hprev Hcase]. split.
        - intros _. rewrite rev_app_distr. reflexivity.
        - rewrite <- app_assoc. cbn [app].
          destruct Hcase as [HB|[[-> ->]|[Hne HA]]]; [now left | right; right | right; right].
          + split; [discriminate | exact E].
          + split; [destruct cur; discriminate | exact HA]. }
      destruct (IH (List.length s) ltac:(lia) s eq_refl _ _ Hseg')
        as (seg0 & tl & Hsplit & Htext & Hseg0 & Htl & Hlen & Hocc).
      rewrite length_app in Hlen, Hocc. cbn [List.length] in Hlen, Hocc.
      exists seg0, tl. rewrite <- app_assoc in Htext.
      split; [exact Hsplit|]. split; [exact Htext|]. split; [exact Hseg0|].
      split; [exact Htl|]. split; [lia|].
      intros [|j].
      * split.
        -- intros (m & r & H). cbn [skipn prev_at] in H. congruence.
        -- intros H. unfold pieces_of in H. cbn [tagged_offsets fst snd app Nat.add] in H.
           apply tagged_offsets_ge in H. lia.
      * rewrite occurs_succ, (Hocc j).
        now replace (List.length cur + 1 + j)%nat with (List.length cur + S j)%nat by lia.
Qed.

Lemma insert_part_word ins n m :
  is_word isword ignorecase m = true ->
  insert_part isword ignorecase (ins, n) m = (ins ++ [(m, true)], (n + 1)%Z).
Proof. intros H. unfold insert_part. now rewrite H. Qed.

Lemma insert_part_other ins n seg :
  is_word isword ignorecase seg = false ->
  insert_part isword ignorecase (ins, n) seg = (ins ++ shown (seg, false), n).
Proof.
  intros H. unfold insert_part, shown. rewrite H. cbn [fst snd].
  destruct (nonempty seg); [reflexivity | now rewrite app_nil_r].
Qed.

(** The loop over the parts. *)
Lemma fold_insert_parts tl :
  Forall (fun p => Forall2 (fun x a => ignorecase x a = true) (fst p) WORD /\
                   is_word isword ignorecase (snd p) = false) tl ->
  forall ins n,
    fold_left (insert_part isword ignorecase)
              (flat_map (fun p => [fst p; fst p; snd p]) tl) (ins, n)
    = (ins ++ flat_map shown (flat_map (fun p => [(fst p, true); (snd p, false)]) tl),
       (n + 2 * Z.of_nat (List.length tl))%Z).
Proof.
  induction 1 as [|[m seg] tl [HF Hseg] _ IH]; intros ins n.
  - cbn. now rewrite app_nil_r, Z.add_0_r.
  - cbn [flat_map fst snd app fold_left] in *.
    rewrite !(@insert_part_word _ _ m (is_word_match HF)), (@insert_part_other _ _ seg Hseg), IH.
    unfold shown at 2. cbn [fst snd List.length]. rewrite <- !app_assoc. cbn [app].
    f_equal. lia.
Qed.

(** X16: with highlighting on, [apply_highlighting] puts every
    whole-word occurrence of "paraphraser" (in any letter case) into
    the output box twice, and counts it twice.  The text is cut into
    pieces that are in turn untagged and tagged; the tagged pieces
    spell the word and stand exactly at the offsets where the word
    occurs as a whole word, so every occurrence is tagged and
    nothing else is; the box receives every tagged piece as two
    tagged segments one after the other and every other piece, if
    not empty, once and untagged; and the info label announces twice
    the number of occurrences (and is empty when there is none). *)
Theorem apply_highlighting_doubles_each_word st text d :
  highlight_paraphraser st = true ->
  exists pieces : list (str * bool),
    List.concat (List.map fst pieces) = text /\
    alternating false pieces = true /\
    Forall (fun p => snd p = true ->
                     Forall2 (fun x a => ignorecase x a = true) (fst p) WORD) pieces /\
    (forall j, whole_word isword ignorecase text j <-> In j (tagged_offsets 0 pieces)) /\
    inserted (apply_highlighting isword ignorecase st text d) = flat_map shown pieces /\
    output_info_label (apply_highlighting isword ignorecase st text d)
    = found_label (2 * Z.of_nat (List.length (filter snd pieces))).
Proof.
  intros Hon. unfold apply_highlighting. rewrite Hon. cbn [negb].
  assert (Hseg : segment isword ignorecase None [] text) by (split; [congruence | right; left; auto]).
  destruct (highlight_split_shape eq_refl Hseg)
    as (seg0 & tl & Hsplit & Htext & Hseg0 & Htl & _ & Hocc).
  rewrite Hsplit. cbn [fold_left].
  exists (pieces_of seg0 tl). unfold pieces_of in *.
  assert (Hconcat : List.concat (List.map fst
                      (flat_map (fun p : str * str => [(fst p, true); (snd p, false)]) tl))
                    = List.concat (List.map (fun p => fst p ++ snd p) tl)).
  { clear. induction tl as [|[m seg] tl IH]; [reflexivity|].
    cbn [flat_map List.map List.concat fst snd app]. rewrite IH, <- app_assoc.
    reflexivity. }
  assert (Hcount : List.length (filter snd
                      (flat_map (fun p : str * str => [(fst p, true); (snd p, false)]) tl))
                   = List.length tl).
  { clear. induction tl as [|[m seg] tl IH]; [reflexivity|].
    cbn [flat_map app filter snd List.length]. now rewrite IH. }
  split; [cbn [List.map List.concat fst]; rewrite Hconcat; now rewrite <- Htext|].
  split.
  { cbn [alternating snd Bool.eqb negb andb]. clear.
    induction tl as [|[m seg] tl IH]; [reflexivity|].
    cbn [flat_map app alternating fst snd Bool.eqb negb andb]. exact IH. }
  split.
  { constructor; [discriminate|]. clear - Htl.
    induction Htl as [|[m seg] tl [HF _] _ IH]; [constructor|].
    cbn [flat_map app fst snd]. constructor; [intros _; exact HF|].
    constructor; [discriminate | exact IH]. }
  split.
  { intros j. rewrite <- occurs_whole_word. exact (Hocc j). }
  cbn [filter snd flat_map]. rewrite Hcount.
  rewrite (@insert_part_other _ _ seg0 Hseg0), (fold_insert_parts Htl).
  cbn [inserted output_info_label app]. split; reflexivity.
Qed.

End HighlightGuarantees.

Lemma ascii_letters_are_word x a :
  In a WORD -> ascii_ignorecase x a = true -> ascii_isword x = true.
Proof.
  intros Hin H. unfold ascii_ignorecase in H. apply orb_true_iff in H.
  destruct H as [H|H].
  - apply N.eqb_eq in H. subst x.
    repeat (destruct Hin as [<-|Hin]; [reflexivity|]). destruct Hin.
  - apply andb_true_iff in H. destruct H as [H _].
    unfold ascii_isword. rewrite H. now rewrite orb_true_r.
Qed.

Lemma apply_highlighting_doubles_each_word_witness :
  highlight_paraphraser default_settings = true /\
  exists pieces : list (Py.str * bool),
    List.concat (List.map fst pieces) = Py.lit "a paraphraser b" /\
    In 2%nat (tagged_offsets 0 pieces) /\
    flat_map shown pieces
    = [(Py.lit "a ", false); (Py.lit "paraphraser", true);
       (Py.lit "paraphraser", true); (Py.lit " b", false)].
Proof.
  split; [reflexivity|].
  destruct (@apply_highlighting_doubles_each_word ascii_isword ascii_ignorecase
              ascii_letters_are_word default_settings (Py.lit "a paraphraser b")
              (mkDisplay [] [] []) eq_refl)
    as (pieces & Htext & _ & _ & Hocc & Hins & _).
  exists pieces. split; [exact Htext|]. split.
  - apply Hocc. exists (Py.lit "a "), (Py.lit "paraphraser"), (Py.lit " b").
    split; [reflexivity|]. split; [reflexivity|].
    split; [repeat (apply Forall2_cons; [reflexivity|]); apply Forall2_nil|].
    split; reflexivity.
  - rewrite <- Hins. vm_compute. reflexivity.
Defined.

(** The word is in the box twice, and counted twice. *)
Example highlighting_example :
  let d := apply_highlighting ascii_isword ascii_ignorecase default_settings
                              (Py.lit "A Paraphraser, again.") (mkDisplay [] [] []) in
  inserted d = [(Py.lit "A ", false); (Py.lit "Paraphraser", true);
                (Py.lit "Paraphraser", true); (Py.lit ", again.", false)] /\
  output_info_label d
  = [9888; 65039]%N ++ Py.lit " Found 2 'paraphraser' word(s) that need manual fixing!".
Proof. vm_compute. split; reflexivity. Qed.

(* ================================================================= *)
(** * Properties of the main window *)

Section WindowGuarantees.
Import Py.
Variable Model : Type.
Variable generate : Model -> str -> GenParams -> Model * (str + list str).
Variable ntokens : str -> nat.
Variable repr : Py.str -> Py.str.
Variable isword : char -> bool.
Variable ignorecase : char -> char -> bool.
Variable isdigit : str -> bool.
Variable int_of : str -> option Z.




End WindowGuarantees.


(** After a run, the second value of the selector shows the second
    version. *)
Example change_output_example :
  change_output ascii_isword ascii_ignorecase ascii_int (Py.lit "Version 2")
    (session (mock_generate 99) flat_tokens ascii_repr ascii_isdigit ascii_int
             [ModelLoaded 0%nat; HumanizeClicked TWO_SENTENCES])
    (mkDisplay [] [] [])
  = inr (mkDisplay [(Py.lit "Hello there. (b) How are you? (b)", false)] []
                   (Py.lit "Showing Version 2")).
Proof. vm_compute. reflexivity. Qed.

Section PassesLabelGuarantees.
Variable isdigit : Py.str -> bool.
Variable int_of : Py.str -> option Z.

Lemma perform_labelled_in_sync p a :
  snd p = get_passes_info_text (fst p) ->
  snd (perform_labelled isdigit int_of p a)
  = get_passes_info_text (fst (perform_labelled isdigit int_of p a)) /\
  fst (perform_labelled isdigit int_of p a) = perform isdigit int_of a (fst p).
Proof.
  destruct p as [s label]. cbn [fst snd]. intros ->.
  destruct a; cbn [perform_labelled perform fst snd]; try (split; reflexivity).
  unfold update_passes.
  destruct (nonempty (Py.strip entry_text) && isdigit (Py.strip entry_text));
    [|split; reflexivity].
  destruct (int_of (Py.strip entry_text)) as [passes|]; [|split; reflexivity].
  destruct (0 <? passes)%Z; split; reflexivity.
Qed.

(** X19: the passes label never goes stale.  After any sequence of
    settings actions, accepted or not, the text of the label is
    [get_passes_info_text] of the settings as they then are (and
    the settings are those the handlers alone produce): every
    handler that changes one of the three keys the text depends on
    refreshes the label. *)
Theorem passes_label_in_sync actions :
  snd (labelled isdigit int_of actions)
  = get_passes_info_text (fst (labelled isdigit int_of actions)) /\
  fst (labelled isdigit int_of actions)
  = fold_left (fun s a => perform isdigit int_of a s) actions default_settings.
Proof.
  unfold labelled.
  assert (H : forall p,
             snd p = get_passes_info_text (fst p) ->
             snd (fold_left (perform_labelled isdigit int_of) actions p)
             = get_passes_info_text (fst (fold_left (perform_labelled isdigit int_of) actions p)) /\
             fst (fold_left (perform_labelled isdigit int_of) actions p)
             = fold_left (fun s a => perform isdigit int_of a s) actions (fst p)).
  { induction actions as [|a actions IH]; intros p Hp; cbn [fold_left]; [auto|].
    destruct (perform_labelled_in_sync p a Hp) as [Hl Hs].
    destruct (IH _ Hl) as [Hl' Hs']. split; [exact Hl'|]. now rewrite Hs', Hs. }
  exact (H (default_settings, get_passes_info_text default_settings) eq_refl).
Qed.

End PassesLabelGuarantees.

(* ================================================================= *)
(** * The highlight colour *)

(** Every position of the slider, computed. *)
Lemma colour_table :
  forallb (fun n =>
             match update_highlight_color
                     (update_highlight_intensity (Z.of_nat n) default_settings) with
             | Some colour =>
                 Py.str_eqb colour (colour_of (Z.of_nat n))
                 && Nat.eqb (List.length colour) 7
                 && forallb is_hex_digit (tl colour)
             | None => false
             end) (seq 0 101) = true.
Proof. vm_compute. reflexivity. Qed.

(** X18: for every intensity of the slider (0 to 100) the floating
    point arithmetic of [update_highlight_color] gives the red
    channel [255 * intensity // 100] without a rounding slip, and
    the colour is a well-formed ["#RRGGBB"]: seven characters, a
    hash sign and six upper-case hexadecimal digits, the green and
    blue channels both being [max(0, 100 - red)]. *)
Theorem highlight_colour_on_slider st :
  (0 <= highlight_intensity st <= 100)%Z ->
  update_highlight_color st = Some (colour_of (highlight_intensity st)) /\
  List.length (colour_of (highlight_intensity st)) = 7%nat /\
  hd_error (colour_of (highlight_intensity st)) = Some 35%N /\
  forallb is_hex_digit (tl (colour_of (highlight_intensity st))) = true.
Proof.
  intros Hrange.
  pose proof colour_table as Htable. rewrite forallb_forall in Htable.
  specialize (Htable (Z.to_nat (highlight_intensity st))).
  rewrite Z2Nat.id in Htable by lia.
  assert (Hsame : update_highlight_color
                    (update_highlight_intensity (highlight_intensity st) default_settings)
                  = update_highlight_color st) by reflexivity.
  rewrite Hsame in Htable.
  specialize (Htable ltac:(apply in_seq; lia)).
  destruct (update_highlight_color st) as [colour|]; [|discriminate].
  apply andb_true_iff in Htable. destruct Htable as [Htable Hhex].
  apply andb_true_iff in Htable. destruct Htable as [Heq Hlen].
  apply str_eqb_eq in Heq. subst colour. apply Nat.eqb_eq in Hlen.
  split; [reflexivity|]. split; [exact Hlen|]. split; [reflexivity | exact Hhex].
Qed.

Lemma highlight_colour_on_slider_witness :
  (0 <= highlight_intensity default_settings <= 100)%Z /\
  update_highlight_color default_settings = Some (Py.lit "#7F0000").
Proof.
  split; [cbn; lia|].
  rewrite (proj1 (@highlight_colour_on_slider default_settings ltac:(cbn; lia))).
  vm_compute. reflexivity.
Defined.

(** The ends of the slider: at 0 the colour is a dark teal, at 100
    pure red. *)
Example highlight_colour_ends :
  update_highlight_color (update_highlight_intensity 0 default_settings)
  = Some (Py.lit "#006464") /\
  update_highlight_color (update_highlight_intensity 100 default_settings)
  = Some (Py.lit "#FF0000").
Proof. vm_compute. split; reflexivity. Qed.

(* ================================================================= *)
(** * The parameters of the calls *)

Section CallParameters.
Import Py.
Variable Model : Type.
Variable generate : Model -> str -> GenParams -> Model * (str + list str).
Variable ntokens : str -> nat.
Variable repr : Py.str -> Py.str.

(** X20: every call of the generation client that [humanize_text]
    makes carries the same keyword arguments: four return
    sequences, length penalty 1.5, no repeated 3-gram, lengths 10 to
    80, early stopping, no sampling, and the beam count and
    repetition penalty that [_process_text] reads off the strength
    alone.  Neither the custom pass count nor its switch changes
    them, and a strength other than Standard and High is served
    with the values of Maximum. *)
Theorem run_calls_use_strength_parameters input_text (w : App Model) :
  exists new,
    calls (humanize_text generate ntokens repr input_text w) = calls w ++ new /\
    Forall (fun c =>
              call_params c
              = mkGenParams
                  (if str_eqb (strength (settings w)) (lit "Standard") then 4
                   else if str_eqb (strength (settings w)) (lit "High") then 8 else 10)%Z
                  4
                  (if str_eqb (strength (settings w)) (lit "Standard") then 10 # 1
                   else if str_eqb (strength (settings w)) (lit "High") then 12 # 1
                        else 15 # 1)
                  (3 # 2) 3 80 10 true false) new.
Proof.
  assert (Hparams : gen_params (fst (beam_parameters (strength (settings w))))
                               (snd (beam_parameters (strength (settings w))))
                    = mkGenParams
                        (if str_eqb (strength (settings w)) (lit "Standard") then 4
                         else if str_eqb (strength (settings w)) (lit "High") then 8 else 10)%Z
                        4
                        (if str_eqb (strength (settings w)) (lit "Standard") then 10 # 1
                         else if str_eqb (strength (settings w)) (lit "High") then 12 # 1
                              else 15 # 1)
                        (3 # 2) 3 80 10 true false).
  { unfold beam_parameters, gen_params.
    destruct (str_eqb (strength (settings w)) (lit "Standard")); [reflexivity|].
    destruct (str_eqb (strength (settings w)) (lit "High")); reflexivity. }
  rewrite <- Hparams. clear Hparams.
  destruct (strip input_text) as [|c0 s0] eqn:Hs.
  { exists []. unfold humanize_text. rewrite Hs. cbn. now rewrite app_nil_r. }
  destruct (model w) as [m|] eqn:Hm.
  2:{ exists []. unfold humanize_text. rewrite Hs, Hm. cbn. now rewrite app_nil_r. }
  assert (Hin : strip input_text <> []) by (rewrite Hs; discriminate).
  rewrite (@humanize_text_started Model generate ntokens repr input_text w m Hm Hin),
    process_text_unfold.
  set (w1 := set_intermediate_outputs [] (emit BeginProcessing w)).
  destruct (effective_passes (settings w1)) as [e|P] eqn:HP.
  { exists []. rewrite (@process_text_body_key_error Model generate ntokens _ _ _ HP).
    cbn. now rewrite app_nil_r. }
  destruct (@calls_carry_run_parameters Model generate ntokens (strip input_text) w1 m P
              Hm HP) as (new & Hcalls & Hall).
  exists new. split; [|exact Hall].
  destruct (process_text_body generate ntokens (strip input_text) w1) as [[] w'|e w'];
    exact Hcalls.
Qed.

End CallParameters.

(** With custom passes on and a strength of no table, the calls are
    made with the beam count of Maximum. *)
Example unknown_strength_with_custom_passes :
  List.map (fun c => num_beams (call_params c))
    (calls (humanize_text (mock_generate 99) flat_tokens ascii_repr ONE_SENTENCE
              (loaded_app (toggle_custom_passes true
                             (set_custom_passes 2 UNKNOWN_STRENGTH)))))
  = [10; 10]%Z.
Proof. vm_compute. reflexivity. Qed.
